(** * helmlint: branch-coverage instrumentation for Helm charts

    A shallow embedding of the Go package [helmlint] (lint.go in its latest
    revision, options.go) and of the slice of the Go runtime it relies on
    (package [strings], [regexp], [bufio.Scanner], [path/filepath], [os]),
    followed by the properties of the instrumentation and verification
    engine.

    Conventions.
    - A Go [string] is a sequence of bytes: [string] of 8-bit [ascii].
    - A Go [[]string] indexed in place is a [list string] with stdpp's
      lookup [!!] and insert [<[i:=x]>]; an index out of range is a runtime
      panic in Go and [None] here.
    - A Go [map[string]V] is a [gmap string V]; [range] over a map visits
      its entries in an unspecified order, so functions that range over a
      map take the visiting order as an argument and the properties are
      stated for every order that enumerates the map.
    - The file system is a finite map from cleaned absolute paths to nodes.
    - Goroutines of an [errgroup.Group] are run one after the other in the
      order in which they are spawned. *)

From Stdlib Require Import Ascii String DecimalString.
From stdpp Require Import base option list gmap strings fin_maps sorting.

Open Scope string_scope.

(* ===================================================================== *)
(** * Part I. The embedding                                               *)
(* ===================================================================== *)

(** ** Package [strings] *)

Module GoStrings.

(** [s[n:]] for [n <= len(s)]. *)
Fixpoint from (n : nat) (s : string) : string :=
  match n, s with
  | O, _ => s
  | S n', String _ s' => from n' s'
  | S _, EmptyString => EmptyString
  end.

(** [s[:n]] for [n <= len(s)]. *)
Fixpoint upto (n : nat) (s : string) : string :=
  match n, s with
  | S n', String c s' => String c (upto n' s')
  | _, _ => EmptyString
  end.

Fixpoint HasPrefix (s prefix : string) {struct prefix} : bool :=
  match prefix, s with
  | EmptyString, _ => true
  | String c p', String d s' => Ascii.eqb d c && HasPrefix s' p'
  | String _ _, EmptyString => false
  end.

(** [len(s) >= len(suffix) && s[len(s)-len(suffix):] == suffix] *)
Definition HasSuffix (s suffix : string) : bool :=
  Nat.leb (String.length suffix) (String.length s) &&
  String.eqb (from (String.length s - String.length suffix) s) suffix.

(** [Index(s, substr) >= 0] *)
Fixpoint Contains (s substr : string) : bool :=
  HasPrefix s substr ||
  match s with
  | String _ s' => Contains s' substr
  | EmptyString => false
  end.

Definition TrimPrefix (s prefix : string) : string :=
  if HasPrefix s prefix then from (String.length prefix) s else s.

Fixpoint Repeat (s : string) (count : nat) : string :=
  match count with
  | O => ""
  | S n => s +:+ Repeat s n
  end.

(** [Split(s, sep)] for a separator of one byte, the only kind the
    package passes. The result is never empty: [Split("", sep)] is
    [[""]]. *)
Fixpoint Split (s : string) (sep : ascii) : list string :=
  match s with
  | EmptyString => [""]
  | String c s' =>
      if Ascii.eqb c sep then "" :: Split s' sep
      else match Split s' sep with
           | x :: xs => String c x :: xs
           | [] => [String c ""]
           end
  end.

Definition Join (elems : list string) (sep : string) : string :=
  String.concat sep elems.

Fixpoint byteIn (c : ascii) (cutset : string) : bool :=
  match cutset with
  | EmptyString => false
  | String d cs => Ascii.eqb c d || byteIn c cs
  end.

(** [TrimLeft(s, cutset)] for a cutset of ASCII bytes. *)
Fixpoint TrimLeft (s cutset : string) : string :=
  match s with
  | String c s' => if byteIn c cutset then TrimLeft s' cutset else s
  | EmptyString => ""
  end.

(** White space as [unicode.IsSpace] defines it, on the UTF-8 encoding.
    One byte: TAB, LF, VT, FF, CR, SPACE. *)
Definition asciiSpace (c : ascii) : bool :=
  match nat_of_ascii c with
  | 9 | 10 | 11 | 12 | 13 | 32 => true
  | _ => false
  end.

(** Two bytes: U+0085 (C2 85) and U+00A0 (C2 A0). *)
Definition space2 (c d : ascii) : bool :=
  Nat.eqb (nat_of_ascii c) 194 &&
  (Nat.eqb (nat_of_ascii d) 133 || Nat.eqb (nat_of_ascii d) 160).

(** Three bytes: U+1680 (E1 9A 80), U+2000..U+200A (E2 80 80..8A),
    U+2028, U+2029, U+202F (E2 80 A8, A9, AF), U+205F (E2 81 9F) and
    U+3000 (E3 80 80). *)
Definition space3 (c d e : ascii) : bool :=
  let c := nat_of_ascii c in
  let d := nat_of_ascii d in
  let e := nat_of_ascii e in
  (Nat.eqb c 225 && Nat.eqb d 154 && Nat.eqb e 128) ||
  (Nat.eqb c 226 && Nat.eqb d 128 &&
   ((Nat.leb 128 e && Nat.leb e 138) || Nat.eqb e 168 || Nat.eqb e 169 ||
    Nat.eqb e 175)) ||
  (Nat.eqb c 226 && Nat.eqb d 129 && Nat.eqb e 159) ||
  (Nat.eqb c 227 && Nat.eqb d 128 && Nat.eqb e 128).

(** Drops the white-space code points at the head of [s]; [p2] and [p3]
    recognise the two- and three-byte ones in the order in which their
    bytes are met. *)
Fixpoint dropSpaces (p2 : ascii -> ascii -> bool)
    (p3 : ascii -> ascii -> ascii -> bool) (s : string) : string :=
  match s with
  | EmptyString => ""
  | String c s1 =>
      if asciiSpace c then dropSpaces p2 p3 s1
      else match s1 with
           | EmptyString => s
           | String d s2 =>
               if p2 c d then dropSpaces p2 p3 s2
               else match s2 with
                    | EmptyString => s
                    | String e s3 =>
                        if p3 c d e then dropSpaces p2 p3 s3 else s
                    end
           end
  end.

Definition trimLeftSpace (s : string) : string :=
  dropSpaces space2 space3 s.

(** The trailing white space is the leading white space of the reversed
    string, its code points read last byte first. *)
Definition trimRightSpace (s : string) : string :=
  String.rev
    (dropSpaces (fun c d => space2 d c) (fun c d e => space3 e d c)
                (String.rev s)).

Definition TrimSpace (s : string) : string :=
  trimRightSpace (trimLeftSpace s).

End GoStrings.

Import GoStrings.

(** The line terminator. *)
Definition LF : ascii := ascii_of_nat 10.
Definition CR : ascii := ascii_of_nat 13.
Definition nl : string := String LF "".

(** ** Package [regexp]: the one pattern of the package *)

Module Regexp.

(** The class [\s] of RE2: TAB, LF, FF, CR, SPACE (no VT). *)
Definition perlSpace (c : ascii) : bool :=
  match nat_of_ascii c with
  | 9 | 10 | 12 | 13 | 32 => true
  | _ => false
  end.

Fixpoint skipSpace (s : string) : string :=
  match s with
  | String c s' => if perlSpace c then skipSpace s' else s
  | EmptyString => ""
  end.

(** The optional [-] of the pattern. *)
Definition skipDash (s : string) : string :=
  match s with
  | String c s' => if Ascii.eqb c "-" then s' else s
  | EmptyString => ""
  end.

(** [{{-?\s*if] anchored at the head of [s]. *)
Definition matchHere (s : string) : bool :=
  match s with
  | String c1 (String c2 r) =>
      Ascii.eqb c1 "{" && Ascii.eqb c2 "{" &&
      HasPrefix (skipSpace (skipDash r)) "if"
  | _ => false
  end.

(** [conditionalRegex.MatchString(s)]: a match anywhere in [s]. *)
Fixpoint MatchString (s : string) : bool :=
  matchHere s ||
  match s with
  | String _ s' => MatchString s'
  | EmptyString => false
  end.

(** The language of [{{-?\s*if], read off the pattern. *)
Definition allSpace (w : string) : Prop :=
  forall c, In c (list_ascii_of_string w) -> perlSpace c = true.

Definition conditionalLang (s : string) : Prop :=
  exists dash w, (dash = "" \/ dash = "-") /\ allSpace w /\
                 s = "{{" +:+ dash +:+ w +:+ "if".

(** A string has a match when some substring is in the language. *)
Definition hasMatch (s : string) : Prop :=
  exists pre m post, conditionalLang m /\ s = pre +:+ m +:+ post.

End Regexp.

Definition conditionalRegex_MatchString : string -> bool := Regexp.MatchString.

(** ** lint.go: the line classifier *)

Definition ignoreMarker : string := "helmlint:ignore".

(** [len(line) - len(strings.TrimLeft(line, " "))] *)
Definition leadingSpaces (line : string) : nat :=
  String.length line - String.length (TrimLeft line " ").

(** [strings.HasSuffix(strings.TrimSpace(line), "|")] *)
Definition opensBlockScalar (line : string) : bool :=
  HasSuffix (TrimSpace line) "|".

(** The loop [for i := start; i >= 0; i--] of [findIndentation], entered at
    [i]; [None] is the index-out-of-range panic of [lines[i]]. *)
Fixpoint findIndentation_loop (lines : list string) (start i : nat)
    : option nat :=
  line ← lines !! i;
  if opensBlockScalar line then
    let prevIndent := leadingSpaces line in
    Some (prevIndent + 2)
  else
    match i with
    | S i' => findIndentation_loop lines start i'
    | O => line0 ← lines !! start; Some (leadingSpaces line0)
    end.

Definition findIndentation (lines : list string) (start : nat) : option nat :=
  findIndentation_loop lines start start.

(** ** Package [path/filepath] (Unix) *)

Module Filepath.

Definition IsAbs (path : string) : bool := HasPrefix path "/".

(** One element of the path met by [Clean]; [out] holds the elements kept
    so far, the last one first. *)
Definition cleanStep (rooted : bool) (out : list string) (elem : string)
    : list string :=
  if String.eqb elem "" || String.eqb elem "." then out
  else if String.eqb elem ".." then
    match out with
    | top :: rest => if String.eqb top ".." then ".." :: out else rest
    | [] => if rooted then [] else [".."]
    end
  else elem :: out.

Definition Clean (path : string) : string :=
  if String.eqb path "" then "." else
  let rooted := HasPrefix path "/" in
  let out := foldl (cleanStep rooted) [] (Split path "/") in
  let body := Join (rev out) "/" in
  if rooted then "/" +:+ body
  else if String.eqb body "" then "." else body.

(** [Join(a, b)]: the empty elements are ignored, the rest is joined with
    the separator and cleaned. *)
Definition Join2 (a b : string) : string :=
  if negb (String.eqb a "") then Clean (a +:+ "/" +:+ b)
  else if negb (String.eqb b "") then Clean b
  else "".

Definition Base (path : string) : string :=
  if String.eqb path "" then "." else
  match rev (filter (fun e => e <> "") (Split path "/")) with
  | e :: _ => e
  | [] => "/"
  end.

(** [Ext(path)]: the suffix that starts at the last dot of the last
    element. [go] scans [s] and keeps the candidate found so far. *)
Fixpoint Ext_go (s : string) (found : string) : string :=
  match s with
  | EmptyString => found
  | String c s' =>
      if Ascii.eqb c "/" then Ext_go s' ""
      else if Ascii.eqb c "." then Ext_go s' s
      else Ext_go s' found
  end.

Definition Ext (path : string) : string := Ext_go path "".

(** [Abs(path)] in the working directory [cwd]. *)
Definition Abs (cwd path : string) : string :=
  if IsAbs path then Clean path else Join2 cwd path.

End Filepath.

(** ** Package [os]: the file system *)

Module Os.

Inductive node : Type :=
| Directory
| Regular (content : string).

Global Instance node_eq_dec : EqDecision node.
Proof. solve_decision. Defined.

(** Keys are cleaned absolute paths; the entries of a directory [d] are
    the keys [d/name]. *)
Abbreviation FS := (gmap string node).

Definition isDir (n : node) : bool :=
  match n with Directory => true | Regular _ => false end.

(** [os.ReadFile]; [None] is the error result. *)
Definition ReadFile (fs : FS) (path : string) : option string :=
  match fs !! path with
  | Some (Regular content) => Some content
  | _ => None
  end.

(** The text of the error [os.ReadFile(path)] returns when it fails: the
    file is missing, or [path] names a directory. *)
Definition ReadFileError (fs : FS) (path : string) : string :=
  match fs !! path with
  | Some Directory => "read " +:+ path +:+ ": is a directory"
  | _ => "open " +:+ path +:+ ": no such file or directory"
  end.

(** [os.WriteFile(path, data, 0644)] on a file that was just read. The
    file system has no permissions, so such a write does not fail and
    the error [os.WriteFile] returns has no counterpart. *)
Definition WriteFile (fs : FS) (path data : string) : FS :=
  <[path := Regular data]> fs.

(** The entries strictly below [root], each with its node: the calls of
    the [filepath.Walk] callback below a root directory, with
    [info.IsDir()] read off the node and [info.Name()] the base name of
    the path. The call for the root itself is not among them: both
    callers skip a root that is a directory, [discoverComments] looks a
    missing root up first, and [injectComments] is handed a root that
    exists, the copy of the chart. The tasks the callers start for the
    files run concurrently; they are taken one after the other, in the
    order of the map. *)
Definition below (root path : string) : bool :=
  HasPrefix path (root +:+ "/").

Definition Walk (fs : FS) (root : string) : list (string * node) :=
  filter (fun e => below root e.1 = true) (map_to_list fs).

(** The order of a directory listing: by name, byte by byte. *)
Definition byName : relation (string * node) :=
  fun a b => String.leb a.1 b.1 = true.

Global Instance byName_dec : RelDecision byName.
Proof. intros a b. unfold byName. apply _. Defined.

(** [os.ReadDir(dir)]: the entries of the directory [dir], each with its
    name, sorted by name; [None] is the error result. *)
Definition ReadDir (fs : FS) (dir : string) : option (list (string * node)) :=
  match fs !! dir with
  | Some Directory =>
      Some (merge_sort byName
              (omap (fun e : string * node =>
                       let name := from (String.length dir + 1) e.1 in
                       if below dir e.1 && negb (Contains name "/")
                       then Some (name, e.2)
                       else None)
                    (map_to_list fs)))
  | _ => None
  end.

(** The text of the error [os.ReadDir(dir)] returns when it fails: the
    directory is missing, or [dir] names a file. *)
Definition ReadDirError (fs : FS) (dir : string) : string :=
  match fs !! dir with
  | Some (Regular _) => "open " +:+ dir +:+ ": not a directory"
  | _ => "open " +:+ dir +:+ ": no such file or directory"
  end.

(** [os.MkdirAll(path, 0755)]: fails when [path] names a file. *)
Definition MkdirAll (fs : FS) (path : string) : option FS :=
  match fs !! path with
  | Some (Regular _) => None
  | _ => Some (<[path := Directory]> fs)
  end.

(** [cp -r src dst] for a [dst] that does not exist: every entry at or
    below [src] is copied below [dst]. [None] when [src] is missing. *)
Definition cp_r (fs : FS) (src dst : string) : option FS :=
  match fs !! src with
  | None => None
  | Some n =>
      Some (foldr (fun e acc =>
                     <[dst +:+ from (String.length src) e.1 := e.2]> acc)
                  (<[dst := n]> fs) (Walk fs src))
  end.

End Os.

Import Os.

(** ** Package [bufio]: [Scanner] with the default [ScanLines] split *)

Module Bufio.

Definition MaxScanTokenSize : N := 65536.

Definition tooLong (line : string) : bool :=
  (MaxScanTokenSize <=? N.of_nat (String.length line))%N.

(** [dropCR]: one trailing carriage return is removed. *)
Fixpoint dropCR (line : string) : string :=
  match line with
  | EmptyString => ""
  | String c EmptyString => if Ascii.eqb c CR then "" else line
  | String c rest => String c (dropCR rest)
  end.

(** The tokens of successive [Scan] calls over the segments between line
    feeds. A segment that does not fit the buffer ends the scan
    ([ErrTooLong]); an empty last segment is no token. *)
Fixpoint tokens (segments : list string) : list string :=
  match segments with
  | [] => []
  | [last] =>
      if String.eqb last "" || tooLong last then [] else [dropCR last]
  | seg :: rest =>
      if tooLong seg then [] else dropCR seg :: tokens rest
  end.

Definition ScanLines (content : string) : list string :=
  tokens (Split content LF).

End Bufio.

(** ** Package [fmt]: the verbs the package uses *)

(** [%d] of a non-negative [int]. *)
Definition fmt_d (n : nat) : string := NilEmpty.string_of_uint (Nat.to_uint n).

(** ** The testing handle [T] *)

(** What the run has reported through [t]: the messages of [Logf] and of
    [Errorf], oldest first. [Fatalf] ends the run; see [outcome]. *)
Record T : Type := mkT {
  Logs : list string;
  Errors : list string;
}.

Definition Logf (t : T) (msg : string) : T :=
  {| Logs := (Logs t ++ [msg])%list; Errors := Errors t |}.

Definition Errorf (t : T) (msg : string) : T :=
  {| Logs := Logs t; Errors := (Errors t ++ [msg])%list |}.

(** ** Go's [error], [range] over a map, and [uuid.NewString] *)

(** [nil] is [None]; an error carries its message. *)
Abbreviation error := (option string).

(** The order in which a [range] statement visits the entries of a map.
    Go leaves it unspecified and draws it anew for every loop; [fairRange]
    says that every entry is visited once. A statement that compares two
    runs takes an order for each. *)
Definition RangeOrder : Type := forall V : Type, gmap string V -> list (string * V).

Definition fairRange (range : RangeOrder) : Prop :=
  forall (V : Type) (m : gmap string V), range V m ≡ₚ map_to_list m.

(** [slices.Contains(s, v)] *)
Definition slices_Contains (s : list string) (v : string) : bool :=
  existsb (String.eqb v) s.

(** The canonical text of a UUID, as [uuid.NewString] returns it: 36 bytes,
    lower-case hexadecimal digits in groups of 8-4-4-4-12 joined by
    dashes. *)
Definition isHex (c : ascii) : bool := byteIn c "0123456789abcdef".

Fixpoint hexRun (n : nat) (s : string) : option string :=
  match n, s with
  | O, _ => Some s
  | S n', String c s' => if isHex c then hexRun n' s' else None
  | S _, EmptyString => None
  end.

Definition dashThen (n : nat) (s : string) : option string :=
  match s with
  | String c s' => if Ascii.eqb c "-" then hexRun n s' else None
  | EmptyString => None
  end.

Definition uuidRest (s : string) : option string :=
  s1 ← hexRun 8 s; s2 ← dashThen 4 s1; s3 ← dashThen 4 s2;
  s4 ← dashThen 4 s3; dashThen 12 s4.

Definition isUUID (s : string) : bool :=
  match uuidRest s with
  | Some EmptyString => true
  | _ => false
  end.

(** ** lint.go: the marker injector *)

Record conditionalDeclRef : Type := mkDecl {
  File : string; (* relative to chart directory *)
  Line : nat;
  Expr : string;
}.

Global Instance conditionalDeclRef_eq_dec : EqDecision conditionalDeclRef.
Proof. solve_decision. Defined.

Abbreviation Registry := (gmap string conditionalDeclRef).

Definition markerPrefix : string := "# helmlint: ".

(** The guard of [continue] in the loop of [injectComments], evaluated left
    to right on the line list as it stands; [line] is the loop variable. *)
Definition skipped (lines : list string) (i : nat) (line : string)
    : option bool :=
  if negb (conditionalRegex_MatchString line) then Some true
  else
    cur ← lines !! i;
    if Contains cur ignoreMarker then Some true
    else match i with
         | O => Some false
         | S j => prev ← lines !! j; Some (Contains prev ignoreMarker)
         end.

(** What one file task shares with the others and owns: its line list, the
    registry under the lock, and the number of tokens drawn so far. *)
Record injection : Type := mkInjection {
  inj_lines : list string;
  inj_comments : Registry;
  inj_drawn : nat;
}.

(** [fmt.Sprintf("%s\n%s# helmlint: %s", line, indentation, id)] *)
Definition markedLine (line indentation id : string) : string :=
  line +:+ nl +:+ indentation +:+ markerPrefix +:+ id.

(** One iteration of [for i, line := range lines]. [uuid k] is the result
    of the [k]-th call of [uuid.NewString]; [file] is [path[len(dir)+1:]]. *)
Definition injectLine (uuid : nat -> string) (file : string) (i : nat)
    (st : injection) : option injection :=
  line ← inj_lines st !! i;
  skip ← skipped (inj_lines st) i line;
  if (skip : bool) then Some st
  else
    let id := uuid (inj_drawn st) in
    n ← findIndentation (inj_lines st) i;
    let indentation := Repeat " " n in
    Some {| inj_comments :=
              <[id := {| File := file; Line := i; Expr := TrimSpace line |}]>
                (inj_comments st);
            inj_lines := <[i := markedLine line indentation id]> (inj_lines st);
            inj_drawn := S (inj_drawn st) |}.

(** [for i := first; count times; i++ { body }] *)
Fixpoint rangeLoop {St : Type} (body : nat -> St -> option St)
    (first count : nat) (st : St) : option St :=
  match count with
  | O => Some st
  | S c => st' ← body first st; rangeLoop body (S first) c st'
  end.

(** The state the tasks of [injectComments] run on. *)
Record injected : Type := mkInjected {
  ic_fs : FS;
  ic_comments : Registry;
  ic_drawn : nat;
  ic_err : error;
}.

Definition firstError (e1 e2 : error) : error :=
  match e1 with Some _ => e1 | None => e2 end.

(** The body of [grp.Go] for one file. *)
Definition injectTask (uuid : nat -> string) (dir path : string)
    (st : injected) : option injected :=
  match ReadFile (ic_fs st) path with
  | None =>
      Some {| ic_fs := ic_fs st; ic_comments := ic_comments st;
              ic_drawn := ic_drawn st;
              ic_err := firstError (ic_err st)
                          (Some (ReadFileError (ic_fs st) path)) |}
  | Some content =>
      let lines := Split content LF in
      r ← rangeLoop (injectLine uuid (from (String.length dir + 1) path))
                    0 (length lines)
                    {| inj_lines := lines; inj_comments := ic_comments st;
                       inj_drawn := ic_drawn st |};
      Some {| ic_fs := WriteFile (ic_fs st) path (Join (inj_lines r) nl);
              ic_comments := inj_comments r;
              ic_drawn := inj_drawn r;
              ic_err := ic_err st |}
  end.

(** The filter of both walks: [info.IsDir() ||
    !strings.HasSuffix(info.Name(), ".yaml")]. *)
Definition notYaml (e : string * node) : bool :=
  isDir e.2 || negb (HasSuffix (Filepath.Base e.1) ".yaml").

(** A loop over a list whose body may panic. *)
Fixpoint forEach {A St : Type} (body : A -> St -> option St) (l : list A)
    (st : St) : option St :=
  match l with
  | [] => Some st
  | x :: l' => st' ← body x st; forEach body l' st'
  end.

(** [injectComments(dir, grp)] run on the file system [fs] after [drawn]
    tokens were drawn: the registry, the error of [grp.Wait()], the file
    system and the tokens drawn at the end. [None] is a panic. *)
Definition injectComments (uuid : nat -> string) (dir : string) (fs : FS)
    (drawn : nat) : option injected :=
  forEach (fun e st => if notYaml e then Some st
                       else injectTask uuid dir e.1 st)
          (Walk fs dir)
          {| ic_fs := fs; ic_comments := ∅; ic_drawn := drawn;
             ic_err := None |}.

(** ** lint.go: the marker scanner *)

(** The ids one line contributes. *)
Definition scanLine (line : string) : list string :=
  if Contains line markerPrefix
  then [TrimPrefix (TrimSpace line) markerPrefix]
  else [].

Record discovered : Type := mkDiscovered {
  dc_fs : FS;
  dc_ids : list string;
  dc_err : error;
}.

(** The body of [grp.Go] for one file: open, scan line by line, close.
    [os.Open] fails on a missing file only; on a directory the scanner
    reads nothing, and its error is not looked at. *)
Definition discoverTask (path : string) (st : discovered) : discovered :=
  match dc_fs st !! path with
  | None =>
      {| dc_fs := dc_fs st; dc_ids := dc_ids st;
         dc_err := firstError (dc_err st)
                     (Some ("open " +:+ path +:+
                            ": no such file or directory")) |}
  | Some Directory => st
  | Some (Regular content) =>
      {| dc_fs := dc_fs st;
         dc_ids := (dc_ids st ++ flat_map scanLine (Bufio.ScanLines content))%list;
         dc_err := dc_err st |}
  end.

(** [os.Lstat(root)] finds the root of a walk: it is an entry of the file
    system, or a directory that is there through what it holds. *)
Definition Lstat (fs : FS) (root : string) : bool :=
  match fs !! root, Walk fs root with
  | None, [] => false
  | _, _ => true
  end.

(** [filepath.Walk] hands the callback the error of [os.Lstat] when the
    root is missing, and the callback returns it: nothing is scanned.
    [Lint] passes a results directory that is missing when nothing was
    rendered. A root that is a file is not scanned; [Lint] passes a
    directory. *)
Definition discoverComments (dir : string) (fs : FS) : discovered :=
  if Lstat fs dir then
    foldl (fun st e => if notYaml e then st else discoverTask e.1 st)
          {| dc_fs := fs; dc_ids := []; dc_err := None |}
          (Walk fs dir)
  else
    {| dc_fs := fs; dc_ids := [];
       dc_err := Some ("lstat " +:+ dir +:+ ": no such file or directory") |}.

(** ** lint.go: the coverage reconciler *)

(** The message of [t.Errorf] in [verifyCoverage]. *)
Definition notFound (def : conditionalDeclRef) : string :=
  "Branch was not found in the rendered chart output:" +:+ nl +:+
  "  (" +:+ File def +:+ ":" +:+ fmt_d (Line def) +:+ "): " +:+ Expr def.

Definition verifyCoverage (range : RangeOrder) (t : T) (ids : Registry)
    (seenIDs : list string) : T :=
  foldl (fun t e => if slices_Contains seenIDs e.1 then t
                    else Errorf t (notFound e.2))
        t (range _ ids).

Definition ignoreLine (indentation : string) : string :=
  indentation +:+ "{{/* helmlint:ignore */}}".

(** [byFile[def.File] = append(byFile[def.File], def)] for the entries
    whose id was not seen. *)
Definition groupByFile (range : RangeOrder) (ids : Registry)
    (seenIDs : list string) : gmap string (list conditionalDeclRef) :=
  foldl (fun byFile e =>
           if slices_Contains seenIDs e.1 then byFile
           else <[File e.2 := (default [] (byFile !! File e.2) ++ [e.2])%list]>
                  byFile)
        ∅ (range _ ids).

(** One iteration of [for _, def := range defs]. *)
Definition annotate (def : conditionalDeclRef) (lines : list string)
    : option (list string) :=
  n ← findIndentation lines (Line def);
  cur ← lines !! Line def;
  Some (<[Line def := ignoreLine (Repeat " " n) +:+ nl +:+ cur]> lines).

Record excepted : Type := mkExcepted {
  ex_fs : FS;
  ex_t : T;
  ex_err : error;
}.

(** The files of [byFile] in turn; the first error returns. *)
Fixpoint exceptFiles (chartDir : string)
    (files : list (string * list conditionalDeclRef)) (fs : FS) (t : T)
    : option excepted :=
  match files with
  | [] => Some {| ex_fs := fs; ex_t := t; ex_err := None |}
  | (relPath, defs) :: rest =>
      let path := Filepath.Join2 chartDir relPath in
      match ReadFile fs path with
      | None => Some {| ex_fs := fs; ex_t := t;
                        ex_err := Some (ReadFileError fs path) |}
      | Some file =>
          lines ← forEach annotate defs (Split file LF);
          exceptFiles chartDir rest
            (WriteFile fs path (Join lines nl))
            (Logf t ("Injected exceptions into " +:+ relPath))
      end
  end.

(** [injectExceptions(t, opts, ids, seenIDs)], with [opts.ChartDir] for
    [opts]. *)
Definition injectExceptions (range : RangeOrder) (t : T) (chartDir : string)
    (ids : Registry) (seenIDs : list string) (fs : FS) : option excepted :=
  exceptFiles chartDir (range _ (groupByFile range ids seenIDs)) fs t.

(** ** options.go *)

(** What the run does outside the file system is recorded as a trace. *)
Inductive event : Type :=
| Helm (outputPath fixturePath chartDir : string)
| Conftest (policiesDir dir : string)
| Extract (rule : nat) (renderedDir outputDir : string)
| Visit (visitor : nat) (dir : string).

Record world : Type := mkWorld {
  w_fs : FS;
  w_t : T;
  w_trace : list event;
}.

(** [func(renderedDir, outputDir string) error] *)
Definition RecursionFn : Type := string -> string -> FS -> FS * error.

(** [func(t T, dir string)]: what the visitor logs, the failures it
    reports, and the file system it leaves. *)
Definition VisitorFn : Type := string -> FS -> (list string * list string) * FS.

(** The fields [Lint] reads. lint.go in its latest revision reads one
    fixtures directory ([FixturesDir]), recursion rules and visitors. *)
Inductive options : Type := mkOptions {
  Preserve : bool;
  WriteExceptions : bool;
  Concurrency : Z;
  ChartDir : string;
  FixturesDir : string;
  PoliciesDir : string;
  Recursions : list recursionRule;
  Visitors : list VisitorFn;
}
with recursionRule : Type := mkRule {
  Fn : RecursionFn;
  Opts : options;
}.

Definition Option : Type := options -> options.

(** [&options{}] *)
Definition zeroOptions : options :=
  {| Preserve := false; WriteExceptions := false; Concurrency := 0;
     ChartDir := ""; FixturesDir := ""; PoliciesDir := "";
     Recursions := []; Visitors := [] |}.

(** What the process finds around it. *)
Record Env : Type := mkEnv {
  cwd : string;                       (* os.Getwd() *)
  Getenv : string -> string;          (* os.Getenv *)
  NumCPU : Z;                         (* runtime.NumCPU() *)
  NewString : nat -> string;          (* the k-th result of uuid.NewString() *)
  MkdirTemp : FS -> string;           (* the directory os.MkdirTemp makes *)
  elapsed : string;                   (* time.Since(start), printed *)
  helm : FS -> string -> string -> string -> FS * (string * error);
  conftest : FS -> string -> string -> string * error;
  rangeOrder : RangeOrder;
}.

Definition chartRelPath (env : Env) (chartDir path defaultPath : string)
    : string :=
  let path := if String.eqb path "" then defaultPath else path in
  let path := if negb (Filepath.IsAbs path)
              then Filepath.Join2 chartDir path else path in
  Filepath.Abs (cwd env) path.

(** [Finalize] on [options]; [os.Getwd] is taken to succeed, so the error is
    always [nil]. *)
Definition Finalize (env : Env) (o : options) : options :=
  let concurrency :=
    if Z.eqb (Concurrency o) 0 then (NumCPU env * 2)%Z else Concurrency o in
  let writeExceptions :=
    if negb (WriteExceptions o)
    then String.eqb (Getenv env "HELMLINT_WRITE_EXCEPTIONS") "true"
    else WriteExceptions o in
  let chartDir := Filepath.Abs (cwd env) (ChartDir o) in
  {| Preserve := Preserve o;
     WriteExceptions := writeExceptions;
     Concurrency := concurrency;
     ChartDir := chartDir;
     FixturesDir := chartRelPath env chartDir (FixturesDir o) "fixtures";
     PoliciesDir := chartRelPath env chartDir (PoliciesDir o) "policies";
     Recursions := Recursions o;
     Visitors := Visitors o |}.

Definition applyOptions (args : list Option) (o : options) : options :=
  foldl (fun o opt => opt o) o args.

Definition WithWriteExceptions : Option := fun o =>
  {| Preserve := Preserve o; WriteExceptions := true;
     Concurrency := Concurrency o; ChartDir := ChartDir o;
     FixturesDir := FixturesDir o; PoliciesDir := PoliciesDir o;
     Recursions := Recursions o; Visitors := Visitors o |}.

Definition WithChartDir (dir : string) : Option := fun o =>
  {| Preserve := Preserve o; WriteExceptions := WriteExceptions o;
     Concurrency := Concurrency o; ChartDir := dir;
     FixturesDir := FixturesDir o; PoliciesDir := PoliciesDir o;
     Recursions := Recursions o; Visitors := Visitors o |}.

Definition WithPoliciesDir (dir : string) : Option := fun o =>
  {| Preserve := Preserve o; WriteExceptions := WriteExceptions o;
     Concurrency := Concurrency o; ChartDir := ChartDir o;
     FixturesDir := FixturesDir o; PoliciesDir := dir;
     Recursions := Recursions o; Visitors := Visitors o |}.

(** [WithRecursion(fn, opts...)]: the rule starts from the chart and
    policies directories the run has at this point, takes its own options
    and is finalized on its own. *)
Definition WithRecursion (env : Env) (fn : RecursionFn) (opts : list Option)
    : Option := fun o =>
  let ruleOpts :=
    applyOptions opts
      {| Preserve := false; WriteExceptions := false; Concurrency := 0;
         ChartDir := ChartDir o; FixturesDir := "";
         PoliciesDir := PoliciesDir o; Recursions := []; Visitors := [] |} in
  let ruleOpts := Finalize env ruleOpts in
  {| Preserve := Preserve o; WriteExceptions := WriteExceptions o;
     Concurrency := Concurrency o; ChartDir := ChartDir o;
     FixturesDir := FixturesDir o; PoliciesDir := PoliciesDir o;
     Recursions := (Recursions o ++ [{| Fn := fn; Opts := ruleOpts |}])%list;
     Visitors := Visitors o |}.

(** ** lint.go: policies, visitors and recursion *)

Definition w_Logf (w : world) (msg : string) : world :=
  {| w_fs := w_fs w; w_t := Logf (w_t w) msg; w_trace := w_trace w |}.

Definition w_Errorf (w : world) (msg : string) : world :=
  {| w_fs := w_fs w; w_t := Errorf (w_t w) msg; w_trace := w_trace w |}.

Definition w_event (w : world) (e : event) : world :=
  {| w_fs := w_fs w; w_t := w_t w; w_trace := (w_trace w ++ [e])%list |}.

Definition runConftest (env : Env) (policiesDir dir : string) (w : world)
    : world * error :=
  let '(out, err) := conftest env (w_fs w) policiesDir dir in
  let w := w_event w (Conftest policiesDir dir) in
  match err with
  | None =>
      (w_Logf w ("Conftest output (" +:+ Filepath.Base dir +:+ "):" +:+ nl
                 +:+ out), None)
  | Some e =>
      let out := if Nat.eqb (String.length out) 0 then e else out in
      (w_Errorf w ("Conftest failure (" +:+ Filepath.Base dir +:+ "):" +:+ nl
                   +:+ out), err)
  end.

(** The task [walkRenderedChart] spawns for one rule and one directory. *)
Definition recursionTask (env : Env) (i : nat) (rule : recursionRule)
    (dir target : string) (w : world) : world :=
  let '(fs, err) := Fn rule dir target (w_fs w) in
  let w := w_event {| w_fs := fs; w_t := w_t w; w_trace := w_trace w |}
                   (Extract i dir target) in
  match err with
  | Some e => w_Errorf w ("error in recursion function: " +:+ e)
  | None =>
      let files := default [] (ReadDir (w_fs w) target) in
      if Nat.eqb (length files) 0 then w (* nothing to do *)
      else (runConftest env (PoliciesDir (Opts rule)) target w).1
  end.

(** The body of [for i, rule := range opts.Recursions] at index [i]. *)
Definition recurse (env : Env) (recursionDir dir : string) (w : world)
    (ir : nat * recursionRule) : world :=
  let target :=
    Filepath.Join2 recursionDir
      (Filepath.Base dir +:+ "-recursion-" +:+ fmt_d ir.1) in
  match MkdirAll (w_fs w) target with
  | None =>
      w_Errorf w ("unable to create recursion directory: mkdir " +:+ target)
  | Some fs =>
      recursionTask env ir.1 ir.2 dir target
        {| w_fs := fs; w_t := w_t w; w_trace := w_trace w |}
  end.

Definition visit (dir : string) (w : world) (iv : nat * VisitorFn) : world :=
  let '((logs, errors), fs) := iv.2 dir (w_fs w) in
  w_event {| w_fs := fs;
             w_t := foldl Errorf (foldl Logf (w_t w) logs) errors;
             w_trace := w_trace w |}
          (Visit iv.1 dir).

(** The body of [for _, dir := range outputDirs]. *)
Definition walkDir (env : Env) (opts : options) (recursionDir : string)
    (w : world) (dir : string) : world :=
  let w := (runConftest env (PoliciesDir opts) dir w).1 in
  let w := foldl (visit dir) w (imap pair (Visitors opts)) in
  foldl (recurse env recursionDir dir) w (imap pair (Recursions opts)).

Definition walkRenderedChart (env : Env) (opts : options) (dir : string)
    (outputDirs : list string) (w : world) : world :=
  let recursionDir := Filepath.Join2 dir "recursions" in
  foldl (walkDir env opts recursionDir) w outputDirs.

(** ** lint.go: [Lint] *)

(** How a stage of [Lint] ends: it goes on, [t.Fatalf] stops the run with a
    message, or the run panics. *)
Inductive outcome (A : Type) : Type :=
| Continue (a : A)
| Fatal (w : world) (msg : string)
| Panic.

Arguments Continue {A} a.
Arguments Fatal {A} w msg.
Arguments Panic {A}.

Definition andThen {A B : Type} (o : outcome A) (k : A -> outcome B)
    : outcome B :=
  match o with
  | Continue a => k a
  | Fatal w msg => Fatal w msg
  | Panic => Panic
  end.

(** The local variables of [Lint], the world and the tokens drawn. *)
Record frame : Type := mkFrame {
  fr_world : world;
  fr_drawn : nat;
  fr_opts : options;
  fr_dir : string;
  fr_chartDir : string;
  fr_ids : Registry;
  fr_resultsDir : string;
  fr_outputDirs : list string;
  fr_seenIDs : list string;
}.

(** Options, [createTempDir] and [copyChart]. [Finalize] and
    [os.MkdirTemp] are taken to succeed, so the two [Fatalf] calls that
    report their errors have no counterpart. The cleanup [createTempDir]
    registers runs after [Lint] and is left out. *)
Definition setup (env : Env) (args : list Option) (w : world) (drawn : nat)
    : outcome frame :=
  let opts := Finalize env (applyOptions args zeroOptions) in
  let dir := MkdirTemp env (w_fs w) in
  let fs := <[dir := Directory]> (w_fs w) in
  let chartDir := Filepath.Join2 dir "chart" in
  match cp_r fs (ChartDir opts) chartDir with
  | None =>
      Fatal {| w_fs := fs; w_t := w_t w; w_trace := w_trace w |}
            "copying chart: exit status 1"
  | Some fs' =>
      Continue {| fr_world := {| w_fs := fs'; w_t := w_t w;
                                 w_trace := w_trace w |};
                  fr_drawn := drawn; fr_opts := opts; fr_dir := dir;
                  fr_chartDir := chartDir; fr_ids := ∅;
                  fr_resultsDir := ""; fr_outputDirs := [];
                  fr_seenIDs := [] |}
  end.

(** [ids, err := injectComments(chartDir, &grp)] *)
Definition instrument (env : Env) (f : frame) : outcome frame :=
  let w := fr_world f in
  match injectComments (NewString env) (fr_chartDir f) (w_fs w) (fr_drawn f) with
  | None => Panic
  | Some r =>
      let w' := {| w_fs := ic_fs r; w_t := w_t w; w_trace := w_trace w |} in
      match ic_err r with
      | Some e => Fatal w' ("injecting comments: " +:+ e)
      | None =>
          Continue {| fr_world := w'; fr_drawn := ic_drawn r;
                      fr_opts := fr_opts f; fr_dir := fr_dir f;
                      fr_chartDir := fr_chartDir f; fr_ids := ic_comments r;
                      fr_resultsDir := fr_resultsDir f;
                      fr_outputDirs := fr_outputDirs f;
                      fr_seenIDs := fr_seenIDs f |}
      end
  end.

(** [%q] for a name that needs no escape. *)
Definition fmt_q (s : string) : string :=
  String (ascii_of_nat 34) s +:+ String (ascii_of_nat 34) "".

(** The fixtures [renderChart] renders: the regular entries whose
    extension is [.yaml]. *)
Definition isFixture (e : string * node) : bool :=
  negb (isDir e.2) && String.eqb (Filepath.Ext e.1) ".yaml".

Definition outputPathOf (resultsDir name : string) : string :=
  Filepath.Join2 resultsDir
    (upto (String.length name - String.length ".yaml") name).

(** One [helm template] run. *)
Definition renderOne (env : Env) (fixturesDir chartDir resultsDir : string)
    (st : world * error) (fixture : string * node) : world * error :=
  let w := st.1 in
  let fixturePath := Filepath.Join2 fixturesDir fixture.1 in
  let outputPath := outputPathOf resultsDir fixture.1 in
  let '(fs, (out, err)) := helm env (w_fs w) outputPath fixturePath chartDir in
  let w := w_event {| w_fs := fs; w_t := w_t w; w_trace := w_trace w |}
                   (Helm outputPath fixturePath chartDir) in
  (w, firstError st.2
        (match err with
         | Some _ => Some ("rendering chart with fixture " +:+
                           fmt_q fixture.1 +:+ ": " +:+ out)
         | None => None
         end)).

(** [renderChart]; the deferred [Logf] runs on every way out. *)
Definition renderChart (env : Env) (opts : options)
    (chartDir resultsDir : string) (w : world)
    : outcome (world * list string) :=
  let done := "rendered the chart for every fixture in " +:+ elapsed env in
  match ReadDir (w_fs w) (FixturesDir opts) with
  | None =>
      Fatal (w_Logf w done)
            ("reading fixtures: " +:+
             ReadDirError (w_fs w) (FixturesDir opts))
  | Some entries =>
      let fixtures := filter (fun e => isFixture e = true) entries in
      let outputDirs := map (fun e => outputPathOf resultsDir e.1) fixtures in
      let '(w', err) :=
        foldl (renderOne env (FixturesDir opts) chartDir resultsDir)
              (w, None) fixtures in
      match err with
      | Some e => Fatal (w_Logf w' done) ("rendering chart: " +:+ e)
      | None => Continue (w_Logf w' done, outputDirs)
      end
  end.

Definition render (env : Env) (f : frame) : outcome frame :=
  let resultsDir := Filepath.Join2 (fr_dir f) "results" in
  andThen (renderChart env (fr_opts f) (fr_chartDir f) resultsDir (fr_world f))
    (fun r =>
       Continue {| fr_world := r.1; fr_drawn := fr_drawn f;
                   fr_opts := fr_opts f; fr_dir := fr_dir f;
                   fr_chartDir := fr_chartDir f; fr_ids := fr_ids f;
                   fr_resultsDir := resultsDir; fr_outputDirs := r.2;
                   fr_seenIDs := fr_seenIDs f |}).

(** [seenIDs, err := discoverComments(resultsDir, &grp)] *)
Definition scan (f : frame) : outcome frame :=
  let w := fr_world f in
  let r := discoverComments (fr_resultsDir f) (w_fs w) in
  let w := {| w_fs := dc_fs r; w_t := w_t w; w_trace := w_trace w |} in
  let w := match dc_err r with
           | Some e => w_Errorf w ("discovering comments: " +:+ e)
           | None => w
           end in
  Continue {| fr_world := w; fr_drawn := fr_drawn f; fr_opts := fr_opts f;
              fr_dir := fr_dir f; fr_chartDir := fr_chartDir f;
              fr_ids := fr_ids f; fr_resultsDir := fr_resultsDir f;
              fr_outputDirs := fr_outputDirs f;
              fr_seenIDs := dc_ids r |}.

(** [if opts.WriteExceptions { injectExceptions } else { verifyCoverage }] *)
Definition reconcile (env : Env) (f : frame) : outcome frame :=
  let w := fr_world f in
  let next w' :=
    Continue {| fr_world := w'; fr_drawn := fr_drawn f; fr_opts := fr_opts f;
                fr_dir := fr_dir f; fr_chartDir := fr_chartDir f;
                fr_ids := fr_ids f; fr_resultsDir := fr_resultsDir f;
                fr_outputDirs := fr_outputDirs f;
                fr_seenIDs := fr_seenIDs f |} in
  if WriteExceptions (fr_opts f) then
    match injectExceptions (rangeOrder env) (w_t w) (ChartDir (fr_opts f))
                           (fr_ids f) (fr_seenIDs f) (w_fs w) with
    | None => Panic
    | Some r =>
        let w' := {| w_fs := ex_fs r; w_t := ex_t r; w_trace := w_trace w |} in
        next (match ex_err r with
              | Some e => w_Errorf w' ("injecting exceptions: " +:+ e)
              | None => w'
              end)
    end
  else
    next {| w_fs := w_fs w;
            w_t := verifyCoverage (rangeOrder env) (w_t w) (fr_ids f)
                                  (fr_seenIDs f);
            w_trace := w_trace w |}.

(** [walkRenderedChart(t, opts, &grp, dir, outputDirs)] *)
Definition policies (env : Env) (f : frame) : outcome frame :=
  Continue {| fr_world := walkRenderedChart env (fr_opts f) (fr_dir f)
                            (fr_outputDirs f) (fr_world f);
              fr_drawn := fr_drawn f; fr_opts := fr_opts f;
              fr_dir := fr_dir f; fr_chartDir := fr_chartDir f;
              fr_ids := fr_ids f; fr_resultsDir := fr_resultsDir f;
              fr_outputDirs := fr_outputDirs f;
              fr_seenIDs := fr_seenIDs f |}.

(** The stages that follow the instrumentation. *)
Definition laterStages (env : Env) : list (frame -> outcome frame) :=
  [render env; scan; reconcile env; policies env].

Definition Lint (env : Env) (args : list Option) (w : world) (drawn : nat)
    : outcome frame :=
  foldl andThen (andThen (setup env args w drawn) (instrument env))
        (laterStages env).

(** The number of spaces a line starts with. *)
Fixpoint leadingSpaceCount (s : string) : nat :=
  match s with
  | String c s' => if Ascii.eqb c " " then S (leadingSpaceCount s') else 0
  | EmptyString => 0
  end.

(** The line classifier on the lines of a source file: line [i] is a
    declaration when it has an [if] tag and neither it nor the line above
    carries the suppression marker. *)
Definition isDeclaration (lines : list string) (i : nat) : Prop :=
  exists line, lines !! i = Some line /\
    conditionalRegex_MatchString line = true /\
    Contains line ignoreMarker = false /\
    (forall prev, 0 < i -> lines !! (i - 1) = Some prev ->
                  Contains prev ignoreMarker = false).

(** Character classes used to reason about tokens and markers. *)
Fixpoint allChars (P : ascii -> bool) (s : string) : bool :=
  match s with
  | EmptyString => true
  | String c s' => P c && allChars P s'
  end.

(** The bytes of a UUID's text. *)
Definition uuidChar (c : ascii) : bool := isHex c || Ascii.eqb c "-".

(** An ASCII byte that is not white space. *)
Definition plain (c : ascii) : bool :=
  Nat.ltb (nat_of_ascii c) 128 && negb (asciiSpace c).

(** The classifier as a test on the source lines. *)
Definition decl (lines : list string) (i : nat) : bool :=
  match lines !! i with
  | Some line =>
      conditionalRegex_MatchString line &&
      negb (Contains line ignoreMarker) &&
      match i with
      | O => true
      | S j => match lines !! j with
               | Some prev => negb (Contains prev ignoreMarker)
               | None => true
               end
      end
  | None => false
  end.

(** The declarations above line [i], in order, and their number. *)
Definition declsAbove (lines : list string) (i : nat) : list nat :=
  filter (fun k => decl lines k = true) (seq 0 i).

Definition rank (lines : list string) (i : nat) : nat :=
  length (declsAbove lines i).

(** The source lines in which the declarations above line [i] are blanked:
    once rewritten, such a line ends with its token and opens no block
    scalar. *)
Definition maskAbove (lines : list string) (i : nat) : list string :=
  imap (fun k l => if Nat.ltb k i && decl lines k then "" else l) lines.

(** The indentation the injector resolves for the marker of line [i]. *)
Definition markerIndent (lines : list string) (i : nat) : nat :=
  default 0 (findIndentation (maskAbove lines i) i).

(** The source lines with the markers of the declarations above line [i],
    when [drawn] tokens were drawn before the file. *)
Definition instrumented (uuid : nat -> string) (drawn : nat)
    (lines : list string) (i : nat) : list string :=
  imap (fun k l =>
          if Nat.ltb k i && decl lines k
          then markedLine l (Repeat " " (markerIndent lines k))
                          (uuid (drawn + rank lines k))
          else l)
       lines.

Definition declRef (file : string) (lines : list string) (k : nat)
    : conditionalDeclRef :=
  {| File := file; Line := k; Expr := TrimSpace (default "" (lines !! k)) |}.

(** [comments[id] = def] for the ids and declarations in turn. *)
Definition register (comments : Registry)
    (entries : list (string * conditionalDeclRef)) : Registry :=
  foldl (fun m e => <[e.1 := e.2]> m) comments entries.

(** The entries a file contributes: the [k]-th declaration under the
    [k]-th token drawn for the file. *)
Definition fileEntries (uuid : nat -> string) (drawn : nat) (file : string)
    (lines : list string) (i : nat) : list (string * conditionalDeclRef) :=
  imap (fun r k => (uuid (drawn + r), declRef file lines k))
       (declsAbove lines i).

(** [s] contains the text [sub]. *)
Definition mentions (s sub : string) : Prop :=
  exists a b, s = a +:+ sub +:+ b.

(** The marker line the injector writes below line [k] of a file, when
    [drawn] tokens were drawn before the file. *)
Definition markerLine (uuid : nat -> string) (drawn : nat)
    (lines : list string) (k : nat) : string :=
  Repeat " " (markerIndent lines k) +:+ markerPrefix +:+
  uuid (drawn + rank lines k).

(** Tokens for examples. *)
Definition sampleUUID (k : nat) : string :=
  nth k ["00000000-0000-4000-8000-000000000000";
         "11111111-1111-4111-8111-111111111111";
         "22222222-2222-4222-8222-222222222222"]
      "ffffffff-ffff-4fff-8fff-ffffffffffff".

(** The files a walk hands to its tasks, each with its content. *)
Definition yamlOf (entries : list (string * node)) : list (string * string) :=
  omap (fun e : string * node =>
          if notYaml e then None
          else match e.2 with
               | Regular content => Some (e.1, content)
               | Directory => None
               end)
       entries.

Definition yamlFiles (fs : FS) (dir : string) : list (string * string) :=
  yamlOf (Walk fs dir).

(** [path[len(dir)+1:]] *)
Definition relPath (dir path : string) : string :=
  from (String.length dir + 1) path.

(** The declarations of a file and of a tree, in order. *)
Definition fileDecls (file content : string) : list conditionalDeclRef :=
  let lines := Split content LF in
  declRef file lines <$> declsAbove lines (length lines).

Definition treeDecls (dir : string) (files : list (string * string))
    : list conditionalDeclRef :=
  flat_map (fun f => fileDecls (relPath dir f.1) f.2) files.

(** A chart for examples: one template with two branches, a helper
    template and a values file whose extension is not [.yaml]. *)
Definition sampleChart : FS :=
  list_to_map
    [("/c", Directory);
     ("/c/templates", Directory);
     ("/c/templates/a.yaml",
      Regular ("a: 1" +:+ nl +:+ "{{ if a }}" +:+ nl +:+ "b: 2" +:+ nl +:+
               "{{ end }}" +:+ nl +:+ "  {{- if c }}" +:+ nl +:+ "  c: 3"));
     ("/c/templates/_helpers.tpl", Regular "{{ if z }}");
     ("/c/values.yml", Regular "{{ if y }}")].

(** The entries of a registry whose token was not seen, in a given
    order of the entries. *)
Definition uncoveredOf (seenIDs : list string)
    (entries : list (string * conditionalDeclRef))
    : list (string * conditionalDeclRef) :=
  filter (fun e => slices_Contains seenIDs e.1 = false) entries.

(** The directory a rule extracts into for a rendered directory. *)
Definition targetOf (recursionDir dir : string) (i : nat) : string :=
  Filepath.Join2 recursionDir
    (Filepath.Base dir +:+ "-recursion-" +:+ fmt_d i).

(** The steps of [walkRenderedChart] for one rendered directory and for
    all of them, in the order in which they are spawned. *)
Definition stepsOf (env : Env) (opts : options) (recursionDir dir : string)
    : list (world -> world) :=
  ([fun w => (runConftest env (PoliciesDir opts) dir w).1] ++
   ((fun iv w => visit dir w iv) <$> imap pair (Visitors opts)) ++
   ((fun ir w => recurse env recursionDir dir w ir)
      <$> imap pair (Recursions opts)))%list.

(** An environment for examples: nothing to render, a policy engine that
    accepts everything. *)
Definition sampleEnv : Env :=
  {| cwd := "/"; Getenv := fun _ => ""; NumCPU := 4;
     NewString := sampleUUID; MkdirTemp := fun _ => "/tmp/1";
     elapsed := "1ms";
     helm := fun fs _ _ _ => (fs, ("", None));
     conftest := fun _ _ _ => ("ok", None);
     rangeOrder := fun V => map_to_list |}.

(** Extraction functions for examples: one writes a manifest, one writes
    nothing, one fails after writing. *)
Definition writesOne : RecursionFn :=
  fun _ target fs => (<[target +:+ "/k.yaml" := Regular "kind: Pod"]> fs, None).

Definition writesNothing : RecursionFn := fun _ _ fs => (fs, None).

Definition failsAfterWriting : RecursionFn :=
  fun _ target fs =>
    (<[target +:+ "/k.yaml" := Regular "kind: Pod"]> fs, Some "disk full").

(** Options for examples: a chart directory and one recursion rule that
    is given no option of its own. *)
Definition sampleOptions : options :=
  Finalize sampleEnv
    (applyOptions [WithChartDir "/c"; WithRecursion sampleEnv writesOne []]
                  zeroOptions).

Definition emptyWorld : world :=
  {| w_fs := ∅; w_t := mkT [] []; w_trace := [] |}.

(** The lines of a file in which the lines picked by [unc] are each
    preceded by a line [ann k], and the index at which source line [k]
    ends up. *)
Definition annotatedLines (unc : nat -> bool) (ann : nat -> string)
    (lines : list string) : list string :=
  concat (imap (fun k l => if unc k then [ann k; l] else [l]) lines).

Definition picked (unc : nat -> bool) (n : nat) : nat :=
  length (filter (fun i => unc i = true) (seq 0 n)).

Definition newIndex (unc : nat -> bool) (k : nat) : nat :=
  k + picked unc (S k).

(** The uncovered declarations of one file, in a given order of the
    entries of the registry. *)
Definition defsOf (seenIDs : list string)
    (entries : list (string * conditionalDeclRef)) (file : string)
    : list conditionalDeclRef :=
  filter (fun d => File d = file) (uncoveredOf seenIDs entries).*2.

(** The lines of a file once the declarations [defs] are annotated, the
    annotation of line [k] indented by [indent k]. An annotated element
    holds two lines of text. *)
Definition annotatedBy (defs : list conditionalDeclRef) (indent : nat -> nat)
    (lines : list string) : list string :=
  imap (fun k l => if bool_decide (k ∈ Line <$> defs)
                   then ignoreLine (Repeat " " (indent k)) +:+ nl +:+ l
                   else l)
       lines.

(** Line [k] of the file [file] holds an uncovered declaration. *)
Definition uncoveredLine (uncovered : list conditionalDeclRef)
    (file : string) (k : nat) : bool :=
  bool_decide ((file, k) ∈ (fun d => (File d, Line d)) <$> uncovered).

(** A registry for examples: the two branches of the sample chart. *)
Definition sampleRegistry : Registry :=
  <["00000000-0000-4000-8000-000000000000" :=
      {| File := "templates/a.yaml"; Line := 1; Expr := "{{ if a }}" |}]>
  (<["11111111-1111-4111-8111-111111111111" :=
       {| File := "templates/a.yaml"; Line := 4; Expr := "{{- if c }}" |}]>
   ∅).

(** The entry of a declaration once the annotations of its file are
    written: it sits further down, by the number of annotations above it. *)
Definition moved (uncovered : list conditionalDeclRef)
    (d : conditionalDeclRef) : conditionalDeclRef :=
  {| File := File d;
     Line := newIndex (uncoveredLine uncovered (File d)) (Line d);
     Expr := Expr d |}.

(** Options for examples: the top-level policies directory is set, then
    a recursion rule is registered without any option of its own. *)
Definition inheritingOptions : options :=
  Finalize sampleEnv
    (applyOptions [WithChartDir "/c"; WithPoliciesDir "/p";
                   WithRecursion sampleEnv writesOne []]
                  zeroOptions).

(** The [helm template] run [renderChart] starts for one fixture. *)
Definition helmEvent (fixturesDir chartDir resultsDir : string)
    (fixture : string * node) : event :=
  Helm (outputPathOf resultsDir fixture.1)
       (Filepath.Join2 fixturesDir fixture.1) chartDir.

(** A fixtures directory for examples: one fixture, one file with another
    extension and one sub-directory. *)
Definition sampleFixtures : FS :=
  list_to_map
    [("/c", Directory);
     ("/c/fixtures", Directory);
     ("/c/fixtures/a.yaml", Regular "on: true");
     ("/c/fixtures/notes.txt", Regular "x");
     ("/c/fixtures/sub", Directory)].

(** The events are all [helm template] runs. *)
Definition onlyHelm (events : list event) : Prop :=
  forall ev, ev ∈ events -> exists o f c, ev = Helm o f c.

(** A run only adds to what was traced and reported before it. *)
Definition extends (w w' : world) : Prop :=
  w_trace w `prefix_of` w_trace w' /\
  Errors (w_t w) `prefix_of` Errors (w_t w') /\
  Logs (w_t w) `prefix_of` Logs (w_t w').

(** A chart with its fixtures directory, for examples. *)
Definition sampleProject : FS :=
  <["/c/fixtures/a.yaml" := Regular "on: true"]>
    (<["/c/fixtures" := Directory]> sampleChart).

(** An element of a cleaned path: not empty, neither [.] nor [..], and
    without a separator; and a cleaned absolute path, the separator
    followed by such elements joined. *)
Definition ordinary (e : string) : Prop :=
  e <> "" /\ e <> "." /\ e <> ".." /\ byteIn "/" e = false.

Definition cleanAbs (p : string) : Prop :=
  exists es, Forall ordinary es /\ p = "/" +:+ Join es "/".

(** ** options.go: the other options *)

Definition WithPreserve : Option := fun o =>
  {| Preserve := true; WriteExceptions := WriteExceptions o;
     Concurrency := Concurrency o; ChartDir := ChartDir o;
     FixturesDir := FixturesDir o; PoliciesDir := PoliciesDir o;
     Recursions := Recursions o; Visitors := Visitors o |}.

Definition WithMaxConcurrency (n : Z) : Option := fun o =>
  {| Preserve := Preserve o; WriteExceptions := WriteExceptions o;
     Concurrency := n; ChartDir := ChartDir o;
     FixturesDir := FixturesDir o; PoliciesDir := PoliciesDir o;
     Recursions := Recursions o; Visitors := Visitors o |}.

Definition WithFixturesDir (dir : string) : Option := fun o =>
  {| Preserve := Preserve o; WriteExceptions := WriteExceptions o;
     Concurrency := Concurrency o; ChartDir := ChartDir o;
     FixturesDir := dir; PoliciesDir := PoliciesDir o;
     Recursions := Recursions o; Visitors := Visitors o |}.

(** [o.Visitors = append(o.Visitors, fn)] *)
Definition WithVisitor (fn : VisitorFn) : Option := fun o =>
  {| Preserve := Preserve o; WriteExceptions := WriteExceptions o;
     Concurrency := Concurrency o; ChartDir := ChartDir o;
     FixturesDir := FixturesDir o; PoliciesDir := PoliciesDir o;
     Recursions := Recursions o;
     Visitors := (Visitors o ++ [fn])%list |}.

(** The options the package exports. *)
Inductive exported (env : Env) : Option -> Prop :=
| exported_Preserve : exported env WithPreserve
| exported_WriteExceptions : exported env WithWriteExceptions
| exported_MaxConcurrency n : exported env (WithMaxConcurrency n)
| exported_ChartDir d : exported env (WithChartDir d)
| exported_FixturesDir d : exported env (WithFixturesDir d)
| exported_PoliciesDir d : exported env (WithPoliciesDir d)
| exported_Recursion fn opts : exported env (WithRecursion env fn opts)
| exported_Visitor fn : exported env (WithVisitor fn).

(** The options a rule starts from, [&options{ChartDir: o.ChartDir,
    PoliciesDir: o.PoliciesDir}]. *)
Definition ruleBase (o : options) : options :=
  {| Preserve := false; WriteExceptions := false; Concurrency := 0;
     ChartDir := ChartDir o; FixturesDir := "";
     PoliciesDir := PoliciesDir o; Recursions := []; Visitors := [] |}.

(** A registry for examples whose only entry names a file the chart does
    not have. *)
Definition staleRegistry : Registry :=
  {["00000000-0000-4000-8000-000000000000" :=
      {| File := "templates/gone.yaml"; Line := 0; Expr := "{{ if a }}" |}]}.

(** The absolute path with the elements [es]. *)
Definition absPath (es : list string) : string := "/" +:+ Join es "/".

(** [p] is neither [dir] nor a path below it. *)
Definition outside (dir p : string) : Prop :=
  p <> dir /\ below dir p = false.

(** The world a run of [Lint] leaves, unless it panics. *)
Definition finalWorld (o : outcome frame) : option world :=
  match o with
  | Continue f => Some (fr_world f)
  | Fatal w _ => Some w
  | Panic => None
  end.

(** A path at or below the directory [absPath es], by its elements. *)
Definition withinDir (es : list string) (p : string) : Prop :=
  exists es', Forall ordinary es' /\ es' <> [] /\ p = absPath es' /\
    (es' = es \/ exists more, more <> [] /\ es' = (es ++ more)%list).


(** A frame of a run whose temporary directory is [absPath es], whose
    options are [opts], and which has kept every entry of [fs] outside
    that directory; and the same of the way a stage ends. *)
Definition confined (es : list string) (opts : options) (fs : FS)
    (f : frame) : Prop :=
  fr_dir f = absPath es /\
  fr_chartDir f = Filepath.Join2 (absPath es) "chart" /\
  fr_opts f = opts /\
  Forall (withinDir es) (fr_outputDirs f) /\
  forall p, outside (absPath es) p -> w_fs (fr_world f) !! p = fs !! p.

Definition confinedRun (es : list string) (opts : options) (fs : FS)
    (o : outcome frame) : Prop :=
  match o with
  | Continue f => confined es opts fs f
  | Fatal w' _ => forall p, outside (absPath es) p -> w_fs w' !! p = fs !! p
  | Panic => True
  end.

(** ** lint.go: the clean-up [createTempDir] registers *)

(** [os.RemoveAll(path)]: the entry at [path] goes with everything below
    it; a path that does not exist is no error, and the file system of
    the model refuses no removal. *)
Definition RemoveAll (fs : FS) (path : string) : FS :=
  filter (fun e : string * node =>
            negb (String.eqb e.1 path) && negb (below path e.1) = true) fs.

(** The function handed to [t.Cleanup]; the testing package calls it when
    the test is over, whether [Lint] returned or stopped in [Fatalf]. *)
Definition cleanup (opts : options) (dir : string) (w : world) : world :=
  if Preserve opts then
    w_Logf w ("preserving temporary directory: " +:+ dir)
  else {| w_fs := RemoveAll (w_fs w) dir; w_t := w_t w;
          w_trace := w_trace w |}.

(** A test that calls [Lint] and nothing else: the run, then the
    clean-up for the directory the run made. *)
Definition LintTest (env : Env) (args : list Option) (w : world)
    (drawn : nat) : option world :=
  cleanup (Finalize env (applyOptions args zeroOptions))
          (MkdirTemp env (w_fs w))
    <$> finalWorld (Lint env args w drawn).

(** A visitor for examples: it logs the directory it is given and leaves
    a file in it. *)
Definition marksDir : VisitorFn :=
  fun dir fs => (["visited " +:+ dir], [], <[dir +:+ "/seen" := Regular ""]> fs).

(** A run for examples: the sample project, linted with one rule and one
    visitor. *)
Definition sampleArgs : list Option :=
  [WithChartDir "/c"; WithRecursion sampleEnv writesOne [];
   WithVisitor marksDir].

Definition sampleWorld : world :=
  {| w_fs := sampleProject; w_t := mkT [] []; w_trace := [] |}.

(** A cleaned absolute path other than the root; and a change of the
    file system that leaves alone every path that is neither [dir] nor
    below it. *)
Definition properDir (dir : string) : Prop := cleanAbs dir /\ dir <> "/".

Definition writesWithin (dir : string) (fs fs' : FS) : Prop :=
  forall p, outside dir p -> fs' !! p = fs !! p.

(** ** options.go: [RecurseConfigmap] *)

(** [yaml.Unmarshal(body, &confMap)] for the struct whose one field is
    [Data map[string]string]: the map the document gives, or the error
    of the parser. The parser is the library's and is left open. *)
Definition Unmarshal : Type := string -> gmap string string + string.

(** The directory a file is created in: the path without its last
    element, and the empty string for the root. *)
Definition parentDir (name : string) : string :=
  Join (removelast (Split name "/")) "/".

(** [os.WriteFile(name, data, 0644)] for a file that may be new:
    [OpenFile] with [O_CREATE|O_TRUNC] fails when [name] is a directory
    and when the directory it would create the file in is missing.
    [None] is the error result. *)
Definition createFile (fs : FS) (name data : string) : option FS :=
  match fs !! name with
  | Some Directory => None
  | _ =>
      if String.eqb (parentDir name) "" then Some (<[name := Regular data]> fs)
      else match fs !! parentDir name with
           | Some Directory => Some (<[name := Regular data]> fs)
           | _ => None
           end
  end.

(** The text of the error of a write that fails. *)
Definition createFileError (fs : FS) (name : string) : string :=
  match fs !! name, fs !! parentDir name with
  | Some Directory, _ => "open " +:+ name +:+ ": is a directory"
  | _, Some (Regular _) => "open " +:+ name +:+ ": not a directory"
  | _, _ => "open " +:+ name +:+ ": no such file or directory"
  end.

(** The body of [for key, value := range confMap.Data]; the loop is left
    at the first write that fails. *)
Definition writeKey (outputDir : string) (st : FS * error)
    (kv : string * string) : FS * error :=
  match st.2 with
  | Some _ => st
  | None =>
      let name := Filepath.Join2 outputDir (kv.1 +:+ ".yaml") in
      match createFile st.1 name kv.2 with
      | Some fs => (fs, None)
      | None => (st.1, Some (createFileError st.1 name))
      end
  end.

Definition RecurseConfigmap (unmarshal : Unmarshal) (range : RangeOrder)
    (manifestPath : string) : RecursionFn :=
  fun chartDir outputDir fs =>
    let manifest := Filepath.Join2 chartDir manifestPath in
    match ReadFile fs manifest with
    | None => (fs, Some (ReadFileError fs manifest))
    | Some body =>
        match unmarshal body with
        | inr e => (fs, Some e)
        | inl data => foldl (writeKey outputDir) (fs, None) (range _ data)
        end
    end.

(** The file [RecurseConfigmap] writes for a key whose name holds no
    separator. *)
Definition keyFile (outputDir key : string) : string :=
  outputDir +:+ "/" +:+ key +:+ ".yaml".

(** A parser for examples: it knows one document. *)
Definition sampleUnmarshal : Unmarshal := fun body =>
  if String.eqb body "data: {a: x, b: y}"
  then inl (<["a" := "x"]> (<["b" := "y"]> ∅))
  else inr "yaml: unmarshal errors".

(** A rendered directory for examples, with a manifest and the directory
    a rule extracts into. *)
Definition sampleRendered : FS :=
  list_to_map
    [("/r", Directory);
     ("/r/cm.yaml", Regular "data: {a: x, b: y}");
     ("/t", Directory)].

(* ===================================================================== *)
(** * Part II. Properties                                                 *)
(* ===================================================================== *)

(** ** Strings *)

#[local] Arguments String.append !_ _ : simpl nomatch.

Section StringFacts.

Lemma append_nil_r (s : string) : s +:+ "" = s.
Proof. induction s as [|c s IH]; simpl; [done | by rewrite IH]. Qed.

Lemma append_assoc (a b c : string) : (a +:+ b) +:+ c = a +:+ (b +:+ c).
Proof. induction a as [|x a IH]; simpl; [done | by rewrite IH]. Qed.

Lemma length_append (a b : string) :
  String.length (a +:+ b) = String.length a + String.length b.
Proof. induction a as [|x a IH]; simpl; [done | by rewrite IH]. Qed.

Lemma eqb_refl_ascii (c : ascii) : Ascii.eqb c c = true.
Proof. by apply Ascii.eqb_eq. Qed.

Lemma HasPrefix_app (p r : string) : HasPrefix (p +:+ r) p = true.
Proof.
  induction p as [|c p IH]; simpl; [done |].
  by rewrite eqb_refl_ascii, IH.
Qed.

Lemma HasPrefix_inv (s p : string) :
  HasPrefix s p = true -> exists r, s = p +:+ r.
Proof.
  revert s. induction p as [|c p IH]; intros s H.
  - by exists s.
  - destruct s as [|d s]; simpl in H; [done |].
    apply andb_true_iff in H as [Hc Hp].
    apply Ascii.eqb_eq in Hc as ->.
    destruct (IH _ Hp) as [r ->]. by exists r.
Qed.

Lemma HasPrefix_spec (s p : string) :
  HasPrefix s p = true <-> exists r, s = p +:+ r.
Proof.
  split; [apply HasPrefix_inv |]. intros [r ->]. apply HasPrefix_app.
Qed.

Lemma from_app (p r : string) : from (String.length p) (p +:+ r) = r.
Proof. induction p as [|c p IH]; simpl; [by destruct r | done]. Qed.

Lemma from_split (n : nat) (s : string) :
  n <= String.length s -> exists p, s = p +:+ from n s /\ String.length p = n.
Proof.
  revert s. induction n as [|n IH]; intros s Hn.
  - exists "". by destruct s.
  - destruct s as [|c s]; simpl in *; [lia |].
    destruct (IH s) as (p & Hp & Hl); [lia |].
    exists (String c p). simpl. split; [by rewrite <- Hp | by rewrite Hl].
Qed.

Lemma TrimPrefix_app (p r : string) : TrimPrefix (p +:+ r) p = r.
Proof. unfold TrimPrefix. by rewrite HasPrefix_app, from_app. Qed.

Lemma HasSuffix_spec (s suf : string) :
  HasSuffix s suf = true <-> exists pre, s = pre +:+ suf.
Proof.
  unfold HasSuffix. rewrite andb_true_iff, Nat.leb_le, String.eqb_eq. split.
  - intros [Hle Heq].
    destruct (from_split (String.length s - String.length suf) s)
      as (p & Hp & _); [lia |].
    exists p. by rewrite <- Heq.
  - intros [pre ->]. rewrite length_append. split; [lia |].
    replace (String.length pre + String.length suf - String.length suf)
      with (String.length pre) by lia.
    apply from_app.
Qed.

Lemma Contains_spec (s sub : string) :
  Contains s sub = true <-> exists a b, s = a +:+ sub +:+ b.
Proof.
  split.
  - induction s as [|c s IH]; simpl; rewrite orb_true_iff.
    + intros [H | H]; [| done].
      apply HasPrefix_inv in H as [r ->]. by exists "", r.
    + intros [H | H].
      * apply HasPrefix_inv in H as [r Hr]. exists "", r. by rewrite Hr.
      * destruct (IH H) as (a & b & ->). by exists (String c a), b.
  - intros (a & b & ->). induction a as [|c a IH]; simpl.
    + destruct (sub +:+ b) eqn:E; simpl;
        rewrite <- E, HasPrefix_app; done.
    + by rewrite IH, orb_true_r.
Qed.

Lemma leadingSpaces_count (s : string) : leadingSpaces s = leadingSpaceCount s.
Proof.
  unfold leadingSpaces. induction s as [|c s IH]; simpl; [done |].
  rewrite orb_false_r. destruct (Ascii.eqb c " "); simpl; [| lia].
  rewrite <- IH.
  assert (String.length (TrimLeft s " ") <= String.length s); [| lia].
  clear. induction s as [|c s IH]; simpl; [done |].
  destruct (_ || _); simpl; lia.
Qed.

End StringFacts.

(** ** The line classifier: indentation *)

Section Indentation.

Implicit Types (lines : list string) (line : string) (i j k start : nat).

Lemma findIndentation_loop_total lines start i :
  start < length lines -> i < length lines ->
  is_Some (findIndentation_loop lines start i).
Proof.
  intros Hs. induction i as [|i IH]; intros Hi.
  - destruct (lookup_lt_is_Some_2 lines 0 Hi) as [l Hl].
    destruct (lookup_lt_is_Some_2 lines start Hs) as [l0 Hl0].
    simpl. rewrite Hl. simpl. destruct (opensBlockScalar l); [done |].
    rewrite Hl0. done.
  - destruct (lookup_lt_is_Some_2 lines (S i) Hi) as [l Hl].
    simpl. rewrite Hl. simpl. destruct (opensBlockScalar l); [done |].
    apply IH. lia.
Qed.

Lemma findIndentation_loop_nearest lines start i j lj :
  j <= i -> lines !! j = Some lj -> opensBlockScalar lj = true ->
  (forall k lk, j < k <= i -> lines !! k = Some lk ->
                opensBlockScalar lk = false) ->
  i < length lines ->
  findIndentation_loop lines start i = Some (leadingSpaces lj + 2).
Proof.
  induction i as [|i IH]; intros Hj Hlj Hop Hno Hi.
  - assert (j = 0) as -> by lia. simpl. rewrite Hlj. simpl. by rewrite Hop.
  - destruct (decide (j = S i)) as [-> | Hne].
    + simpl. rewrite Hlj. simpl. by rewrite Hop.
    + destruct (lookup_lt_is_Some_2 lines (S i) Hi) as [l Hl].
      simpl. rewrite Hl. simpl.
      rewrite (Hno (S i) l); [| lia | done].
      apply IH; [lia | done | done | | lia].
      intros k lk Hk. apply Hno. lia.
Qed.

Lemma findIndentation_loop_none lines start i line :
  lines !! start = Some line ->
  (forall k lk, k <= i -> lines !! k = Some lk ->
                opensBlockScalar lk = false) ->
  i < length lines ->
  findIndentation_loop lines start i = Some (leadingSpaces line).
Proof.
  intros Hs. induction i as [|i IH]; intros Hno Hi.
  - destruct (lookup_lt_is_Some_2 lines 0 Hi) as [l Hl].
    simpl. rewrite Hl. simpl. rewrite (Hno 0 l); [| lia | done].
    by rewrite Hs.
  - destruct (lookup_lt_is_Some_2 lines (S i) Hi) as [l Hl].
    simpl. rewrite Hl. simpl. rewrite (Hno (S i) l); [| lia | done].
    apply IH; [| lia]. intros k lk Hk. apply Hno. lia.
Qed.

(** The indentation depends on the lines up to [start] only through
    whether they open a block scalar and how many spaces they start with. *)
Lemma findIndentation_loop_ext lines lines' start i :
  i <= start ->
  (forall k, k <= start ->
     match lines !! k, lines' !! k with
     | Some l, Some l' =>
         opensBlockScalar l = opensBlockScalar l' /\
         (opensBlockScalar l = true \/ k = start ->
          leadingSpaces l = leadingSpaces l')
     | None, None => True
     | _, _ => False
     end) ->
  findIndentation_loop lines start i = findIndentation_loop lines' start i.
Proof.
  intros Hi Hext. induction i as [|i IH].
  - simpl. pose proof (Hext 0 ltac:(lia)) as H0.
    destruct (lines !! 0) as [l|], (lines' !! 0) as [l'|]; try done. simpl.
    destruct H0 as [H0 H0']. rewrite <- H0.
    destruct (opensBlockScalar l) eqn:E.
    + rewrite H0'; auto.
    + pose proof (Hext start ltac:(lia)) as Hs.
      destruct (lines !! start) as [ls|], (lines' !! start) as [ls'|];
        try done. simpl. destruct Hs as [_ Hs]. rewrite Hs; auto.
  - simpl. pose proof (Hext (S i) ltac:(lia)) as H0.
    destruct (lines !! S i) as [l|], (lines' !! S i) as [l'|]; try done.
    simpl. destruct H0 as [H0 H0']. rewrite <- H0.
    destruct (opensBlockScalar l) eqn:E.
    + rewrite H0'; auto.
    + apply IH. lia.
Qed.

(** C1 (amended). For every list of source lines and every valid index
    [i], [findIndentation] scans backward from line [i] inclusive for the
    nearest line whose trimmed content ends with the block-scalar indicator:
    if there is one it returns that line's leading-space count plus 2,
    otherwise line [i]'s own leading-space count. No read leaves the list
    (the result is never the out-of-range panic). A line at index 0
    resolves to its own leading-space count when its trimmed content does
    not end with the indicator, and to that count plus 2 when it does. For
    the three lines of the example, index 2 resolves to 5. *)
Theorem findIndentation_resolves lines i line :
  lines !! i = Some line ->
  (forall j lj, j <= i -> lines !! j = Some lj ->
     opensBlockScalar lj = true ->
     (forall k lk, j < k <= i -> lines !! k = Some lk ->
                   opensBlockScalar lk = false) ->
     findIndentation lines i = Some (leadingSpaceCount lj + 2)) /\
  ((forall k lk, k <= i -> lines !! k = Some lk ->
                 opensBlockScalar lk = false) ->
   findIndentation lines i = Some (leadingSpaceCount line)) /\
  is_Some (findIndentation lines i) /\
  (i = 0 -> opensBlockScalar line = false ->
   findIndentation lines i = Some (leadingSpaceCount line)) /\
  (i = 0 -> opensBlockScalar line = true ->
   findIndentation lines i = Some (leadingSpaceCount line + 2)) /\
  findIndentation ["   foo: |"; "# foobar"; "  {{ if foo }}"] 2 = Some 5.
Proof.
  intros Hi. pose proof (lookup_lt_Some _ _ _ Hi) as Hlt.
  unfold findIndentation. repeat split.
  - intros j lj Hj Hlj Hop Hno. rewrite <- leadingSpaces_count.
    by eapply findIndentation_loop_nearest.
  - intros Hno. rewrite <- leadingSpaces_count.
    by apply findIndentation_loop_none.
  - by apply findIndentation_loop_total.
  - intros -> Hno. simpl. rewrite Hi. simpl. rewrite Hno.
    by rewrite leadingSpaces_count.
  - intros -> Hop. simpl. rewrite Hi. simpl. rewrite Hop.
    by rewrite leadingSpaces_count.
Qed.

Lemma findIndentation_resolves_witness :
  findIndentation ["  key: |"; "    {{- if .Values.on }}"] 1 = Some 4.
Proof.
  destruct (findIndentation_resolves
              ["  key: |"; "    {{- if .Values.on }}"] 1
              "    {{- if .Values.on }}" eq_refl) as [H _].
  apply (H 0 "  key: |"); [lia | reflexivity | reflexivity |].
  intros k lk Hk Hlk. assert (k = 1) as -> by lia.
  injection Hlk as <-. reflexivity.
Defined.

(** C1, as stated, fails on a declaration at line 0 whose own trimmed
    content ends with the block-scalar indicator: the scan is inclusive, so
    the line resolves to its leading-space count plus 2. *)
Lemma findIndentation_line0_block_scalar :
  isDeclaration ["{{ if foo }} |"] 0 /\
  leadingSpaceCount "{{ if foo }} |" = 0 /\
  findIndentation ["{{ if foo }} |"] 0 = Some 2 /\
  findIndentation ["{{ if foo }} |"] 0
    <> Some (leadingSpaceCount "{{ if foo }} |").
Proof.
  split; [| by vm_compute].
  exists "{{ if foo }} |". repeat split; try reflexivity. intros; lia.
Qed.

End Indentation.

(** ** The pattern of a conditional branch *)

Section RegexpFacts.

Import Regexp.

Lemma allSpace_nil : allSpace "".
Proof. intros c []. Qed.

Lemma allSpace_cons c w : perlSpace c = true -> allSpace w -> allSpace (String c w).
Proof. intros Hc Hw d [<- | Hd]; auto. Qed.

Lemma allSpace_inv c w : allSpace (String c w) -> perlSpace c = true /\ allSpace w.
Proof.
  intros H. split; [apply H; by left |]. intros d Hd. apply H. by right.
Qed.

Lemma skipSpace_split (s : string) :
  exists w, allSpace w /\ s = w +:+ skipSpace s.
Proof.
  induction s as [|c s (w & Hw & IH)]; simpl.
  - exists "". split; [apply allSpace_nil | done].
  - destruct (perlSpace c) eqn:E.
    + exists (String c w). split; [by apply allSpace_cons |].
      simpl. by rewrite <- IH.
    + exists "". split; [apply allSpace_nil | done].
Qed.

Lemma skipSpace_app (w t : string) :
  allSpace w -> skipSpace (w +:+ t) = skipSpace t.
Proof.
  induction w as [|c w IH]; intros Hw; simpl; [done |].
  apply allSpace_inv in Hw as [Hc Hw]. rewrite Hc. auto.
Qed.

Lemma matchHere_spec (s : string) :
  matchHere s = true <-> exists m post, conditionalLang m /\ s = m +:+ post.
Proof.
  split.
  - destruct s as [|c1 [|c2 r]]; unfold matchHere; try done.
    rewrite !andb_true_iff. intros [[H1 H2] H].
    apply Ascii.eqb_eq in H1 as ->. apply Ascii.eqb_eq in H2 as ->.
    assert (exists dash r', (dash = "" \/ dash = "-") /\ r = dash +:+ r' /\
              skipDash r = r') as (dash & r' & Hd & -> & Hr).
    { destruct r as [|c3 r3]; [by exists "", "" |]. simpl.
      destruct (Ascii.eqb_spec c3 "-") as [-> | Hn3].
      - exists "-", r3. auto.
      - exists "", (String c3 r3). auto. }
    rewrite Hr in H. apply HasPrefix_inv in H as [post Hpost].
    destruct (skipSpace_split r') as (w & Hw & Hr'). rewrite Hpost in Hr'.
    exists ("{{" +:+ dash +:+ w +:+ "if"), post. split.
    + exists dash, w. auto.
    + rewrite Hr'. rewrite !append_assoc. simpl. do 2 f_equal.
  - intros (m & post & (dash & w & Hd & Hw & ->) & ->).
    rewrite !append_assoc.
    assert (HasPrefix (skipSpace (w +:+ "if" +:+ post)) "if" = true) as Hif.
    { rewrite skipSpace_app by done. reflexivity. }
    destruct Hd as [-> | ->]; [| exact Hif].
    change (HasPrefix (skipSpace (skipDash (w +:+ "if" +:+ post))) "if" = true).
    destruct w as [|c w]; [done |].
    apply allSpace_inv in Hw as [Hc Hw].
    change (skipDash (String c w +:+ "if" +:+ post))
      with (if Ascii.eqb c "-" then w +:+ "if" +:+ post
            else String c w +:+ "if" +:+ post).
    destruct (Ascii.eqb_spec c "-") as [-> | Hn]; [done | exact Hif].
Qed.

(** The matcher decides the language of the pattern. *)
Lemma MatchString_spec (s : string) : MatchString s = true <-> hasMatch s.
Proof.
  split.
  - induction s as [|c s IH]; [done |].
    cbn [MatchString]. rewrite orb_true_iff. intros [H | H].
    + apply matchHere_spec in H as (m & post & Hm & ->). by exists "", m, post.
    + destruct (IH H) as (pre & m & post & Hm & ->).
      by exists (String c pre), m, post.
  - intros (pre & m & post & Hm & ->). induction pre as [|c pre IH].
    + assert (matchHere (m +:+ post) = true) as H
        by (apply matchHere_spec; eauto).
      change ("" +:+ m +:+ post) with (m +:+ post).
      destruct (m +:+ post); cbn [MatchString]; by rewrite H.
    + change (String c pre +:+ m +:+ post)
        with (String c (pre +:+ m +:+ post)).
      cbn [MatchString]. by rewrite IH, orb_true_r.
Qed.

End RegexpFacts.

(** ** Tokens, markers and white space *)

Section MarkerFacts.

Lemma allChars_app P (a b : string) :
  allChars P (a +:+ b) = allChars P a && allChars P b.
Proof.
  induction a as [|c a IH]; simpl; [done |]. by rewrite IH, andb_assoc.
Qed.

Lemma hexRun_inv n s r :
  hexRun n s = Some r ->
  exists p, s = p +:+ r /\ allChars uuidChar p = true /\ String.length p = n.
Proof.
  revert s. induction n as [|n IH]; intros s H; simpl in H.
  - exists "". by injection H as ->.
  - destruct s as [|c s]; [done |]. destruct (isHex c) eqn:Hc; [| done].
    destruct (IH _ H) as (p & -> & Hp & Hl).
    exists (String c p). simpl. unfold uuidChar at 1. rewrite Hc. simpl. auto.
Qed.

Lemma dashThen_inv n s r :
  dashThen n s = Some r ->
  exists p, s = p +:+ r /\ allChars uuidChar p = true.
Proof.
  destruct s as [|c s]; simpl; [done |].
  destruct (Ascii.eqb_spec c "-") as [-> | Hn]; [| done].
  intros H. destruct (hexRun_inv _ _ _ H) as (p & -> & Hp & _).
  exists (String "-" p). simpl. auto.
Qed.

Lemma isUUID_chars id :
  isUUID id = true -> allChars uuidChar id = true /\ id <> "".
Proof.
  unfold isUUID, uuidRest.
  destruct (hexRun 8 id) as [s1|] eqn:E1; simpl; [| done].
  destruct (dashThen 4 s1) as [s2|] eqn:E2; simpl; [| done].
  destruct (dashThen 4 s2) as [s3|] eqn:E3; simpl; [| done].
  destruct (dashThen 4 s3) as [s4|] eqn:E4; simpl; [| done].
  destruct (dashThen 12 s4) as [[|]|] eqn:E5; simpl; try done. intros _.
  destruct (hexRun_inv _ _ _ E1) as (p1 & -> & H1 & L1).
  destruct (dashThen_inv _ _ _ E2) as (p2 & -> & H2).
  destruct (dashThen_inv _ _ _ E3) as (p3 & -> & H3).
  destruct (dashThen_inv _ _ _ E4) as (p4 & -> & H4).
  destruct (dashThen_inv _ _ _ E5) as (p5 & -> & H5).
  split.
  - rewrite !allChars_app, H1, H2, H3, H4, H5. done.
  - destruct p1; [done | done].
Qed.

Lemma uuidChar_cases c :
  uuidChar c = true ->
  plain c = true /\ c <> "|"%char /\ c <> "h"%char /\ c <> LF /\ c <> " "%char.
Proof.
  destruct c as [[] [] [] [] [] [] [] []]; vm_compute; intros H;
    try discriminate H; repeat split; discriminate.
Qed.

Lemma plain_not_token c d e :
  plain c = true ->
  space2 c d = false /\ space2 d c = false /\
  space3 c d e = false /\ space3 d c e = false /\ space3 d e c = false.
Proof.
  unfold plain, space2, space3. rewrite andb_true_iff, Nat.ltb_lt.
  intros [Hlt _]. set (n := nat_of_ascii c) in *.
  assert (forall k, 128 <= k -> Nat.eqb n k = false) as Hne.
  { intros k Hk. apply Nat.eqb_neq. lia. }
  assert (Nat.leb 128 n = false) as Hle by (apply Nat.leb_gt; lia).
  rewrite !Hne by lia. rewrite Hle.
  repeat split; rewrite ?andb_false_r, ?andb_false_l, ?orb_false_r; auto.
Qed.

(** [dropSpaces] stops at a plain byte. *)
Lemma dropSpaces_plain p2 p3 c t :
  asciiSpace c = false ->
  (forall d, p2 c d = false) -> (forall d e, p3 c d e = false) ->
  dropSpaces p2 p3 (String c t) = String c t.
Proof.
  intros Hc H2 H3. simpl. rewrite Hc.
  destruct t as [|d [|e t]]; auto; rewrite H2; auto. by rewrite H3.
Qed.

(** Whatever precedes it, a plain byte and what follows it survive. *)
Lemma dropSpaces_keeps p2 p3 c t :
  asciiSpace c = false ->
  (forall d, p2 c d = false) -> (forall d e, p3 c d e = false) ->
  (forall a, p2 a c = false) ->
  (forall a b, p3 a c b = false) -> (forall a b, p3 a b c = false) ->
  forall n x, String.length x <= n ->
    exists y, dropSpaces p2 p3 (x +:+ String c t) = y +:+ String c t.
Proof.
  intros Hc H2 H3 H2' H3' H3'' n.
  induction n as [|n IH]; intros x Hx.
  - destruct x; simpl in Hx; [| lia]. exists "".
    cbn [String.append]. by rewrite dropSpaces_plain.
  - destruct x as [|c1 x1];
      [exists ""; cbn [String.append]; by rewrite dropSpaces_plain |].
    simpl in Hx.
    change (dropSpaces p2 p3 (String c1 x1 +:+ String c t)) with
      (if asciiSpace c1 then dropSpaces p2 p3 (x1 +:+ String c t)
       else match x1 +:+ String c t with
            | EmptyString => String c1 (x1 +:+ String c t)
            | String d s2 =>
                if p2 c1 d then dropSpaces p2 p3 s2
                else match s2 with
                     | EmptyString => String c1 (x1 +:+ String c t)
                     | String e s3 =>
                         if p3 c1 d e then dropSpaces p2 p3 s3
                         else String c1 (x1 +:+ String c t)
                     end
            end).
    destruct (asciiSpace c1); [apply IH; lia |].
    destruct x1 as [|d x2]; simpl.
    { rewrite H2'. destruct t; [by exists (String c1 "") |].
      rewrite H3'. by exists (String c1 ""). }
    destruct (p2 c1 d); [apply IH; simpl in Hx; lia |].
    destruct x2 as [|e x3]; simpl.
    { rewrite H3''. by exists (String c1 (String d "")). }
    destruct (p3 c1 d e); [apply IH; simpl in Hx; lia |].
    by exists (String c1 (String d (String e x3))).
Qed.

Lemma rev_app_spec (s acc : string) :
  String.rev_app s acc = String.rev s +:+ acc.
Proof.
  unfold String.rev. revert acc.
  induction s as [|c s IH]; intros acc; simpl; [done |].
  rewrite IH, (IH (String c "")), append_assoc. done.
Qed.

Lemma rev_cons c (s : string) : String.rev (String c s) = String.rev s +:+ String c "".
Proof. unfold String.rev at 1. simpl. by rewrite rev_app_spec. Qed.

Lemma rev_append (a b : string) :
  String.rev (a +:+ b) = String.rev b +:+ String.rev a.
Proof.
  induction a as [|c a IH]; simpl.
  - by rewrite append_nil_r.
  - by rewrite !rev_cons, IH, append_assoc.
Qed.

Lemma rev_involutive (s : string) : String.rev (String.rev s) = s.
Proof.
  induction s as [|c s IH]; [done |].
  by rewrite rev_cons, rev_append, IH.
Qed.

(** A non-empty tail of plain bytes survives [TrimSpace]. *)
Lemma TrimSpace_keeps_tail x t :
  t <> "" -> allChars plain t = true ->
  exists y, TrimSpace (x +:+ t) = y +:+ t.
Proof.
  intros Ht Hp. unfold TrimSpace, trimRightSpace, trimLeftSpace.
  destruct t as [|c t]; [done |]. simpl in Hp.
  apply andb_true_iff in Hp as [Hc Hp].
  assert (asciiSpace c = false) as Hs.
  { unfold plain in Hc. apply andb_true_iff in Hc as [_ Hc].
    by apply negb_true_iff. }
  assert (forall d, space2 c d = false) as H2
    by (intros d; by apply (plain_not_token c d d)).
  assert (forall d e, space3 c d e = false) as H3
    by (intros d e; by apply (plain_not_token c d e)).
  assert (forall a, space2 a c = false) as H2'
    by (intros a; by apply (plain_not_token c a a)).
  assert (forall a b, space3 a c b = false) as H3'
    by (intros a b; by apply (plain_not_token c a b)).
  assert (forall a b, space3 a b c = false) as H3''
    by (intros a b; by apply (plain_not_token c a b)).
  destruct (dropSpaces_keeps space2 space3 c t Hs H2 H3 H2' H3' H3''
              (String.length x) x) as [y Hy]; [done |].
  exists y. rewrite Hy.
  (* the last byte of the tail is plain as well *)
  assert (exists t' l, String c t = t' +:+ String l "" /\ plain l = true)
    as (t' & l & Ht' & Hl).
  { clear -Hc Hp. revert c Hc. induction t as [|d t IH]; intros c Hc.
    - by exists "", c.
    - simpl in Hp. apply andb_true_iff in Hp as [Hd Hp].
      destruct (IH Hp d Hd) as (t' & l & E & Hl).
      exists (String c t'), l. simpl. by rewrite E. }
  rewrite Ht', <- append_assoc, rev_append.
  change (String.rev (String l "")) with (String l "").
  cbn [String.append]. rewrite dropSpaces_plain.
  - by rewrite rev_cons, rev_involutive.
  - unfold plain in Hl. apply andb_true_iff in Hl as [_ Hl].
    by apply negb_true_iff.
  - intros d. by apply (plain_not_token l d d).
  - intros d e. by apply (plain_not_token l e d).
Qed.

End MarkerFacts.

(** ** Separators, markers and lines *)

Section LineFacts.

Lemma HasPrefix_app_sep c (x y sub : string) :
  byteIn c sub = false ->
  HasPrefix (x +:+ String c y) sub = HasPrefix x sub.
Proof.
  revert x. induction sub as [|d sub IH]; intros x Hc; [done |].
  simpl in Hc. apply orb_false_iff in Hc as [Hd Hc].
  destruct x as [|e x]; simpl.
  - by rewrite Hd.
  - by rewrite IH.
Qed.

(** An occurrence of [sub] cannot straddle a byte [sub] does not have. *)
Lemma Contains_app_sep c (x y sub : string) :
  byteIn c sub = false -> sub <> "" ->
  Contains (x +:+ String c y) sub = Contains x sub || Contains y sub.
Proof.
  intros Hc Hne. induction x as [|e x IH].
  - pose proof (HasPrefix_app_sep c "" y sub Hc) as H.
    cbn [String.append Contains] in *. rewrite H.
    by rewrite orb_false_r.
  - change (String e x +:+ String c y) with (String e (x +:+ String c y)).
    pose proof (HasPrefix_app_sep c (String e x) y sub Hc) as H.
    cbn [String.append] in H.
    cbn [Contains]. rewrite IH, H.
    by rewrite orb_assoc.
Qed.

Lemma Contains_Repeat_space n (t sub : string) :
  byteIn " " sub = false -> sub <> "" ->
  Contains (Repeat " " n +:+ t) sub = Contains t sub.
Proof.
  intros Hc Hne. induction n as [|n IH]; [done |].
  pose proof (Contains_app_sep " " "" (Repeat " " n +:+ t) sub Hc Hne) as H.
  cbn [Repeat]. rewrite append_assoc. cbn [String.append] in *.
  rewrite H, IH. by destruct sub.
Qed.

Lemma Contains_head_mismatch (s : string) h sub :
  allChars (fun c => negb (Ascii.eqb c h)) s = true ->
  Contains s (String h sub) = false.
Proof.
  induction s as [|c s IH]; intros Hs; [done |].
  simpl in Hs. apply andb_true_iff in Hs as [Hc Hs].
  cbn [Contains HasPrefix]. apply negb_true_iff in Hc. rewrite Hc. simpl.
  auto.
Qed.

Lemma allChars_impl (P Q : ascii -> bool) s :
  (forall c, P c = true -> Q c = true) ->
  allChars P s = true -> allChars Q s = true.
Proof.
  intros HPQ. induction s as [|c s IH]; simpl; [done |].
  rewrite !andb_true_iff. intros [Hc Hs]. auto.
Qed.

(** A marked line carries the suppression marker only if the line it was
    made from does. *)
Lemma Contains_markedLine line n id :
  isUUID id = true ->
  Contains (markedLine line (Repeat " " n) id) ignoreMarker
  = Contains line ignoreMarker.
Proof.
  intros Hid. unfold markedLine, nl, ignoreMarker.
  change (String LF "" +:+ ?x) with (String LF x).
  rewrite (Contains_app_sep LF) by done.
  rewrite Contains_Repeat_space by done.
  change (markerPrefix +:+ id)
    with ("#" +:+ String " " ("helmlint:" +:+ String " " id)).
  rewrite (Contains_app_sep " ") by done.
  rewrite (Contains_app_sep " ") by done.
  rewrite (Contains_head_mismatch id).
  - by rewrite !orb_false_r.
  - apply isUUID_chars in Hid as [Hid _].
    revert Hid. apply allChars_impl. intros c Hc.
    apply uuidChar_cases in Hc as (_ & _ & Hh & _).
    apply negb_true_iff. by apply Ascii.eqb_neq.
Qed.

Lemma HasSuffix_bar_tail (y t : string) :
  t <> "" -> HasSuffix (y +:+ t) "|" = HasSuffix t "|".
Proof.
  intros Ht. apply eq_true_iff_eq. rewrite !HasSuffix_spec. split.
  - induction y as [|e y IH]; [done |]. intros [pre Hpre].
    destruct pre as [|e' pre].
    + simpl in Hpre. injection Hpre as _ Hpre.
      destruct y, t; done.
    + simpl in Hpre. injection Hpre as _ Hpre. apply IH. by exists pre.
  - intros [pre ->]. exists (y +:+ pre). by rewrite append_assoc.
Qed.

Lemma allChars_no_suffix (P : ascii -> bool) c (t : string) :
  P c = false -> allChars P t = true -> HasSuffix t (String c "") = false.
Proof.
  intros Hc Ht. apply not_true_is_false. rewrite HasSuffix_spec.
  intros [pre ->]. rewrite allChars_app in Ht. simpl in Ht.
  rewrite Hc in Ht. by rewrite andb_false_r in Ht.
Qed.

(** A marked line ends with its token: it opens no block scalar. *)
Lemma opensBlockScalar_markedLine line ind id :
  isUUID id = true -> opensBlockScalar (markedLine line ind id) = false.
Proof.
  intros Hid. apply isUUID_chars in Hid as [Hid Hne].
  unfold opensBlockScalar, markedLine.
  rewrite <- !append_assoc.
  destruct (TrimSpace_keeps_tail (((line +:+ nl) +:+ ind) +:+ markerPrefix) id)
    as [y Hy]; [done | |].
  - revert Hid. apply allChars_impl. intros c Hc.
    by apply uuidChar_cases in Hc as [? _].
  - rewrite Hy, HasSuffix_bar_tail by done.
    apply (allChars_no_suffix uuidChar); [done | done].
Qed.

Lemma opensBlockScalar_empty : opensBlockScalar "" = false.
Proof. reflexivity. Qed.

(** [Split] and [Join] *)

Lemma Split_nonempty s c : Split s c <> [].
Proof. destruct s as [|d s]; simpl; [done |]. by destruct (_ =? _)%char, (Split s c). Qed.

Lemma Join_cons l ls sep :
  ls <> [] -> Join (l :: ls) sep = l +:+ sep +:+ Join ls sep.
Proof. by destruct ls. Qed.

Lemma Split_app_sep (a b : string) c :
  Split (a +:+ String c b) c = (Split a c ++ Split b c)%list.
Proof.
  induction a as [|d a IH]; simpl.
  - rewrite eqb_refl_ascii. done.
  - destruct (Ascii.eqb_spec d c) as [-> | Hn].
    + by rewrite IH.
    + rewrite IH. pose proof (Split_nonempty a c).
      by destruct (Split a c).
Qed.

Lemma Split_no_sep s c : byteIn c s = false -> Split s c = [s].
Proof.
  induction s as [|d s IH]; simpl; [done |].
  rewrite orb_false_iff. intros [Hd Hs].
  rewrite Ascii.eqb_sym, Hd, IH by done. done.
Qed.

Lemma Split_elem_no_sep s c l :
  In l (Split s c) -> byteIn c l = false.
Proof.
  revert l. induction s as [|d s IH]; intros l; simpl.
  - by intros [<- | []].
  - destruct (Ascii.eqb_spec d c) as [-> | Hn].
    + intros [<- | H]; [done | auto].
    + pose proof (Split_nonempty s c).
      destruct (Split s c) as [|x xs]; [done |].
      intros [<- | H'].
      * simpl. rewrite (IH x) by (by left).
        rewrite orb_false_r. apply Ascii.eqb_neq. congruence.
      * apply IH. by right.
Qed.

Lemma Split_Join (ls : list string) c :
  ls <> [] ->
  Split (Join ls (String c "")) c = flat_map (fun l => Split l c) ls.
Proof.
  induction ls as [|l ls IH]; [done |]. intros _.
  destruct ls as [|l' ls].
  - simpl. by rewrite app_nil_r.
  - rewrite Join_cons by done.
    change (String c "" +:+ ?x) with (String c x).
    rewrite Split_app_sep, IH by done. done.
Qed.

End LineFacts.

(** ** The marker injector on one file *)

Section Injection.

Variable uuid : nat -> string.
Hypothesis uuid_text : forall k, isUUID (uuid k) = true.

Implicit Types (lines : list string) (i k : nat) (file : string).

Lemma rangeLoop_S {St : Type} (body : nat -> St -> option St)
    first count (st : St) :
  rangeLoop body first (S count) st
  = body first st ≫= rangeLoop body (S first) count.
Proof. reflexivity. Qed.

Lemma rangeLoop_snoc {St : Type} (body : nat -> St -> option St)
    first count (st : St) :
  rangeLoop body first (S count) st
  = rangeLoop body first count st ≫= body (first + count).
Proof.
  revert first st. induction count as [|c IH]; intros first st.
  - simpl. rewrite Nat.add_0_r. by destruct (body first st).
  - rewrite (rangeLoop_S body first (S c)), (rangeLoop_S body first c).
    destruct (body first st) as [st'|]; [| done].
    cbn [mbind option_bind]. rewrite IH.
    by replace (S first + c) with (first + S c) by lia.
Qed.

Lemma decl_spec lines i : decl lines i = true <-> isDeclaration lines i.
Proof.
  unfold decl, isDeclaration. split.
  - destruct (lines !! i) as [line|] eqn:E; [| done].
    rewrite !andb_true_iff, negb_true_iff. intros [[Hm Hc] Hp].
    exists line. repeat split; auto. intros prev Hi Hprev.
    destruct i as [|j]; [lia |]. simpl in Hprev. rewrite Nat.sub_0_r in Hprev.
    rewrite Hprev in Hp. by apply negb_true_iff.
  - intros (line & -> & Hm & Hc & Hp). rewrite Hm, Hc. simpl.
    destruct i as [|j]; [done |].
    destruct (lines !! j) as [prev|] eqn:E; [| done].
    apply negb_true_iff, Hp; [lia |]. simpl. by rewrite Nat.sub_0_r.
Qed.

Lemma lookup_instrumented drawn lines i k :
  instrumented uuid drawn lines i !! k
  = (fun l => if Nat.ltb k i && decl lines k
              then markedLine l (Repeat " " (markerIndent lines k))
                              (uuid (drawn + rank lines k))
              else l) <$> lines !! k.
Proof. unfold instrumented. by rewrite list_lookup_imap. Qed.

Lemma lookup_maskAbove lines i k :
  maskAbove lines i !! k
  = (fun l => if Nat.ltb k i && decl lines k then "" else l) <$> lines !! k.
Proof. unfold maskAbove. by rewrite list_lookup_imap. Qed.

Lemma length_instrumented drawn lines i :
  length (instrumented uuid drawn lines i) = length lines.
Proof. unfold instrumented. by rewrite length_imap. Qed.

Lemma skipped_instrumented drawn lines i line :
  lines !! i = Some line ->
  skipped (instrumented uuid drawn lines i) i line
  = Some (negb (decl lines i)).
Proof.
  intros Hi. unfold skipped, decl. rewrite Hi.
  destruct (conditionalRegex_MatchString line); [| done]. simpl.
  rewrite lookup_instrumented, Hi. simpl.
  rewrite Nat.ltb_irrefl. simpl.
  destruct (Contains line ignoreMarker); [done |]. simpl.
  destruct i as [|j]; [done |].
  rewrite lookup_instrumented.
  assert (j < length lines) as Hj by (apply lookup_lt_Some in Hi; lia).
  destruct (lookup_lt_is_Some_2 lines j Hj) as [prev Hprev].
  rewrite Hprev. simpl.
  destruct (_ && _); [| by rewrite negb_involutive].
  by rewrite Contains_markedLine, negb_involutive.
Qed.

Lemma findIndentation_instrumented drawn lines i :
  i < length lines ->
  findIndentation (instrumented uuid drawn lines i) i
  = Some (markerIndent lines i).
Proof.
  intros Hi. unfold markerIndent.
  assert (findIndentation (instrumented uuid drawn lines i) i
          = findIndentation (maskAbove lines i) i) as ->.
  { unfold findIndentation. apply findIndentation_loop_ext; [done |].
    intros k Hk. rewrite lookup_instrumented, lookup_maskAbove.
    destruct (lines !! k) as [l|]; [| done]. simpl.
    destruct (Nat.ltb k i && decl lines k) eqn:E.
    - rewrite opensBlockScalar_markedLine, opensBlockScalar_empty by done.
      split; [done |]. intros [? | ->]; [done |].
      apply andb_true_iff in E as [E _]. apply Nat.ltb_lt in E. lia.
    - done. }
  destruct (findIndentation_loop_total (maskAbove lines i) i i) as [n Hn].
  - unfold maskAbove. by rewrite length_imap.
  - unfold maskAbove. by rewrite length_imap.
  - unfold findIndentation. by rewrite Hn.
Qed.

Lemma declsAbove_S lines i :
  declsAbove lines (S i)
  = (declsAbove lines i ++ if decl lines i then [i] else [])%list.
Proof.
  unfold declsAbove. rewrite seq_S, filter_app. simpl. f_equal.
  rewrite filter_cons, filter_nil.
  destruct (decl lines i) eqn:E.
  - by rewrite decide_True.
  - by rewrite decide_False.
Qed.

Lemma rank_S lines i :
  rank lines (S i) = rank lines i + if decl lines i then 1 else 0.
Proof.
  unfold rank. rewrite declsAbove_S, length_app. by destruct (decl lines i).
Qed.

Lemma instrumented_skip drawn lines i :
  decl lines i = false ->
  instrumented uuid drawn lines (S i) = instrumented uuid drawn lines i.
Proof.
  intros Hd. apply list_eq. intros k. rewrite !lookup_instrumented.
  destruct (lines !! k) as [l|]; [| done]. simpl. f_equal.
  destruct (decide (k = i)) as [-> | Hne].
  - by rewrite Hd, !andb_false_r.
  - replace (Nat.ltb k (S i)) with (Nat.ltb k i); [done |].
    apply eq_true_iff_eq. rewrite !Nat.ltb_lt. lia.
Qed.

Lemma instrumented_mark drawn lines i line :
  lines !! i = Some line -> decl lines i = true ->
  <[i := markedLine line (Repeat " " (markerIndent lines i))
                    (uuid (drawn + rank lines i))]>
    (instrumented uuid drawn lines i)
  = instrumented uuid drawn lines (S i).
Proof.
  intros Hi Hd. apply list_eq. intros k.
  destruct (decide (k = i)) as [-> | Hne].
  - rewrite list_lookup_insert_eq
      by (rewrite length_instrumented; by eapply lookup_lt_Some).
    rewrite lookup_instrumented, Hi. simpl.
    assert (Nat.ltb i (S i) = true) as -> by (apply Nat.ltb_lt; lia).
    by rewrite Hd.
  - rewrite list_lookup_insert_ne by done. rewrite !lookup_instrumented.
    destruct (lines !! k) as [l|]; [| done]. simpl. f_equal.
    replace (Nat.ltb k (S i)) with (Nat.ltb k i); [done |].
    apply eq_true_iff_eq. rewrite !Nat.ltb_lt. lia.
Qed.

Lemma fileEntries_S drawn file lines i :
  fileEntries uuid drawn file lines (S i)
  = (fileEntries uuid drawn file lines i ++
     if decl lines i
     then [(uuid (drawn + rank lines i), declRef file lines i)]
     else [])%list.
Proof.
  unfold fileEntries. rewrite declsAbove_S, imap_app.
  destruct (decl lines i); simpl; [| done].
  by rewrite Nat.add_0_r.
Qed.

Lemma register_app comments (e1 e2 : list (string * conditionalDeclRef)) :
  register comments (e1 ++ e2) = register (register comments e1) e2.
Proof. unfold register. by rewrite foldl_app. Qed.

(** The state of the loop of a file task when it reaches line [i]. *)
Lemma injectLine_step drawn comments file lines i :
  i < length lines ->
  injectLine uuid file i
    {| inj_lines := instrumented uuid drawn lines i;
       inj_comments :=
         register comments (fileEntries uuid drawn file lines i);
       inj_drawn := drawn + rank lines i |}
  = Some {| inj_lines := instrumented uuid drawn lines (S i);
            inj_comments :=
              register comments (fileEntries uuid drawn file lines (S i));
            inj_drawn := drawn + rank lines (S i) |}.
Proof.
  intros Hi. destruct (lookup_lt_is_Some_2 lines i Hi) as [line Hline].
  unfold injectLine. cbn [inj_lines inj_comments inj_drawn].
  rewrite lookup_instrumented, Hline. simpl.
  rewrite Nat.ltb_irrefl. simpl.
  rewrite skipped_instrumented by done. simpl.
  rewrite fileEntries_S, rank_S.
  destruct (decl lines i) eqn:Hd; simpl.
  - rewrite findIndentation_instrumented by done. simpl.
    rewrite instrumented_mark by done.
    rewrite register_app. simpl.
    unfold declRef. rewrite Hline. simpl.
    do 2 f_equal. lia.
  - rewrite instrumented_skip by done.
    by rewrite app_nil_r, Nat.add_0_r.
Qed.

Lemma instrumented_0 drawn lines : instrumented uuid drawn lines 0 = lines.
Proof.
  apply list_eq. intros k. rewrite lookup_instrumented.
  by destruct (lines !! k).
Qed.

Lemma rangeLoop_injectLine drawn comments file lines i :
  i <= length lines ->
  rangeLoop (injectLine uuid file) 0 i
    {| inj_lines := lines; inj_comments := comments; inj_drawn := drawn |}
  = Some {| inj_lines := instrumented uuid drawn lines i;
            inj_comments :=
              register comments (fileEntries uuid drawn file lines i);
            inj_drawn := drawn + rank lines i |}.
Proof.
  induction i as [|i IH]; intros Hi.
  - simpl. rewrite instrumented_0. unfold rank, declsAbove. simpl.
    by rewrite Nat.add_0_r.
  - rewrite rangeLoop_snoc, IH by lia. simpl.
    apply injectLine_step. lia.
Qed.

End Injection.

(** C2. For every list of source lines and every index [i], the loop of
    the injector reaches line [i] without a panic, finds the source line
    there, and its guard lets the line through (the line is detected as a
    declaration, and registered under a fresh token with its line number
    and trimmed text) if and only if the line has a match of the if-opening
    tag pattern ("{{", an optional "-", optional white space, "if"), does
    not contain the text "helmlint:ignore", and, when [i > 0], line [i-1]
    of the source does not contain it either. *)
Theorem declaration_detection (uuid : nat -> string) (file : string)
    (lines : list string) (comments : Registry) (drawn i : nat)
    (line : string) :
  (forall k, isUUID (uuid k) = true) ->
  lines !! i = Some line ->
  exists st skip st',
    rangeLoop (injectLine uuid file) 0 i
      {| inj_lines := lines; inj_comments := comments; inj_drawn := drawn |}
    = Some st /\
    inj_lines st !! i = Some line /\
    skipped (inj_lines st) i line = Some skip /\
    (skip = false <->
       Regexp.hasMatch line /\
       ~ mentions line "helmlint:ignore" /\
       (0 < i -> forall prev, lines !! (i - 1) = Some prev ->
                              ~ mentions prev "helmlint:ignore")) /\
    injectLine uuid file i st = Some st' /\
    (skip = true -> st' = st) /\
    (skip = false ->
       inj_comments st' !! uuid (inj_drawn st)
       = Some {| File := file; Line := i; Expr := TrimSpace line |}).
Proof.
  intros Huuid Hi. pose proof (lookup_lt_Some _ _ _ Hi) as Hlt.
  eexists _, (negb (decl lines i)), _.
  split; [apply rangeLoop_injectLine; [done | lia] |].
  cbn [inj_lines inj_comments inj_drawn].
  split; [rewrite lookup_instrumented, Hi; simpl;
          by rewrite Nat.ltb_irrefl |].
  split; [by apply skipped_instrumented |].
  split.
  { rewrite negb_false_iff, decl_spec. unfold isDeclaration, mentions.
    split.
    - intros (l & Hl & Hm & Hc & Hp). rewrite Hi in Hl. injection Hl as <-.
      split; [by apply MatchString_spec |]. split.
      + intros H. apply Contains_spec in H.
        unfold ignoreMarker in Hc. congruence.
      + intros H0 prev Hprev H. apply Contains_spec in H.
        specialize (Hp prev H0 Hprev). unfold ignoreMarker in Hp. congruence.
    - intros (Hm & Hc & Hp). exists line. split; [done |].
      split; [by apply MatchString_spec |]. split.
      + apply not_true_is_false. intros H. apply Hc.
        by apply Contains_spec.
      + intros prev H0 Hprev. apply not_true_is_false. intros H.
        apply (Hp H0 prev Hprev). by apply Contains_spec. }
  split; [by apply injectLine_step |].
  cbn [inj_lines inj_comments inj_drawn]. split.
  - rewrite negb_true_iff. intros Hd.
    rewrite instrumented_skip, fileEntries_S, rank_S, Hd by done.
    by rewrite app_nil_r, Nat.add_0_r.
  - rewrite negb_false_iff. intros Hd.
    rewrite fileEntries_S, Hd, register_app. simpl.
    rewrite lookup_insert_eq. unfold declRef. by rewrite Hi.
Qed.

Lemma declaration_detection_witness :
  exists st st',
    rangeLoop (injectLine (fun _ => "00000000-0000-4000-8000-000000000000")
                          "templates/a.yaml") 0 2
      {| inj_lines := ["{{/* helmlint:ignore */}}"; "{{ if a }}";
                       "  {{- if b }}"];
         inj_comments := ∅; inj_drawn := 0 |}
    = Some st /\
    skipped (inj_lines st) 2 "  {{- if b }}" = Some false /\
    injectLine (fun _ => "00000000-0000-4000-8000-000000000000")
               "templates/a.yaml" 2 st = Some st' /\
    inj_comments st' !! "00000000-0000-4000-8000-000000000000"
    = Some {| File := "templates/a.yaml"; Line := 2;
              Expr := "{{- if b }}" |}.
Proof.
  destruct (declaration_detection
              (fun _ => "00000000-0000-4000-8000-000000000000")
              "templates/a.yaml"
              ["{{/* helmlint:ignore */}}"; "{{ if a }}"; "  {{- if b }}"]
              ∅ 0 2 "  {{- if b }}" (fun _ => eq_refl) eq_refl)
    as (st & skip & st' & Hloop & _ & Hskip & _ & Hstep & _ & Hreg).
  exists st, st'.
  assert (skip = false) as ->.
  { injection Hloop as <-. vm_compute in Hskip. by injection Hskip as <-. }
  split; [exact Hloop |]. split; [exact Hskip |]. split; [exact Hstep |].
  exact (Hreg eq_refl).
Defined.

(** ** The rewritten file *)

Section Rewriting.

Variable uuid : nat -> string.
Hypothesis uuid_text : forall k, isUUID (uuid k) = true.

Lemma byteIn_app c (a b : string) :
  byteIn c (a +:+ b) = byteIn c a || byteIn c b.
Proof.
  induction a as [|d a IH]; simpl; [done |]. by rewrite IH, orb_assoc.
Qed.

Lemma byteIn_Repeat_space c n :
  c <> " "%char -> byteIn c (Repeat " " n) = false.
Proof.
  intros Hc. induction n as [|n IH]; simpl; [done |].
  rewrite IH, orb_false_r. by apply Ascii.eqb_neq.
Qed.

Lemma byteIn_allChars (P : ascii -> bool) c (s : string) :
  P c = false -> allChars P s = true -> byteIn c s = false.
Proof.
  intros Hc. induction s as [|d s IH]; simpl; [done |].
  rewrite andb_true_iff. intros [Hd Hs]. rewrite IH, orb_false_r by done.
  apply Ascii.eqb_neq. congruence.
Qed.

Lemma markerLine_one_line drawn lines k :
  byteIn LF (markerLine uuid drawn lines k) = false.
Proof.
  unfold markerLine. rewrite !byteIn_app.
  assert (byteIn LF (uuid (drawn + rank lines k)) = false) as ->.
  { apply (byteIn_allChars uuidChar); [reflexivity |].
    by apply isUUID_chars. }
  by rewrite byteIn_Repeat_space.
Qed.

Lemma instrumented_all drawn lines :
  instrumented uuid drawn lines (length lines)
  = imap (fun k l => if decl lines k
                     then l +:+ nl +:+ markerLine uuid drawn lines k
                     else l) lines.
Proof.
  apply list_eq. intros k. rewrite lookup_instrumented, list_lookup_imap.
  destruct (lines !! k) as [l|] eqn:E; [| done]. simpl.
  apply lookup_lt_Some in E. apply Nat.ltb_lt in E. by rewrite E.
Qed.

Lemma flat_map_imap {A B C : Type} (g : B -> list C) (f : nat -> A -> B)
    (l : list A) :
  flat_map g (imap f l) = concat (imap (fun k x => g (f k x)) l).
Proof.
  revert f. induction l as [|x l IH]; intros f; [done |].
  simpl. by rewrite IH.
Qed.

Lemma imap_ext_lookup {A B : Type} (f g : nat -> A -> B) (l : list A) :
  (forall k x, l !! k = Some x -> f k x = g k x) -> imap f l = imap g l.
Proof.
  intros H. apply list_eq. intros k. rewrite !list_lookup_imap.
  destruct (l !! k) as [x|] eqn:E; [| done]. simpl. by rewrite (H k x).
Qed.

(** The lines of the rewritten file: every source line in order, each
    declaration followed by its marker line. *)
Lemma Split_instrumented drawn content :
  let lines := Split content LF in
  Split (Join (instrumented uuid drawn lines (length lines)) nl) LF
  = concat (imap (fun k l => if decl lines k
                             then [l; markerLine uuid drawn lines k]
                             else [l]) lines).
Proof.
  intros lines. rewrite instrumented_all. unfold nl.
  rewrite Split_Join.
  - rewrite flat_map_imap. f_equal. apply imap_ext_lookup.
    intros k l Hl.
    assert (byteIn LF l = false) as Hno.
    { apply (Split_elem_no_sep content). apply list_elem_of_In.
      by eapply list_elem_of_lookup_2. }
    destruct (decl lines k).
    + change (String LF "" +:+ ?x) with (String LF x).
      rewrite Split_app_sep, !Split_no_sep; auto.
      apply markerLine_one_line.
    + by apply Split_no_sep.
  - pose proof (Split_nonempty content LF) as Hne. fold lines in Hne.
    by destruct lines.
Qed.

(** What a file task leaves behind. *)
Lemma injectTask_run dir path (st : injected) content :
  ReadFile (ic_fs st) path = Some content ->
  let lines := Split content LF in
  injectTask uuid dir path st
  = Some {| ic_fs :=
              WriteFile (ic_fs st) path
                (Join (instrumented uuid (ic_drawn st) lines (length lines)) nl);
            ic_comments :=
              register (ic_comments st)
                (fileEntries uuid (ic_drawn st)
                   (from (String.length dir + 1) path) lines (length lines));
            ic_drawn := ic_drawn st + rank lines (length lines);
            ic_err := ic_err st |}.
Proof.
  intros Hread lines. unfold injectTask. rewrite Hread. fold lines.
  by rewrite rangeLoop_injectLine.
Qed.

End Rewriting.

Lemma sampleUUID_text k : isUUID (sampleUUID k) = true.
Proof. destruct k as [|[|[|[|k]]]]; reflexivity. Qed.

(** C3. The marker of a declaration inside a block scalar misses the
    resolved indentation when the line that opens the scalar is itself a
    declaration. [injectComments] resolves the indentation on the list it
    is rewriting: the opener, once it carries its marker, no longer ends
    with the indicator. In this file the marker of line 1 is written at
    column 0, while [findIndentation] resolves line 1 of the file to 4;
    with an opener that is no declaration the marker of the same line is
    written at 4. *)
Lemma marker_indentation_after_rewritten_opener :
  (exists st',
     injectTask sampleUUID "/c" "/c/a.yaml"
       {| ic_fs := {[ "/c/a.yaml" :=
                        Regular ("  {{- if a }}script: |" +:+ nl +:+
                                 "{{- if b }}" +:+ nl +:+
                                 "    echo b") ]};
          ic_comments := ∅; ic_drawn := 0; ic_err := None |}
     = Some st' /\
     ReadFile (ic_fs st') "/c/a.yaml"
     = Some ("  {{- if a }}script: |" +:+ nl +:+
             "    # helmlint: 00000000-0000-4000-8000-000000000000" +:+ nl +:+
             "{{- if b }}" +:+ nl +:+
             "# helmlint: 11111111-1111-4111-8111-111111111111" +:+ nl +:+
             "    echo b")) /\
  decl ["  {{- if a }}script: |"; "{{- if b }}"; "    echo b"] 1 = true /\
  findIndentation ["  {{- if a }}script: |"; "{{- if b }}"; "    echo b"] 1
  = Some 4 /\
  (exists st',
     injectTask sampleUUID "/c" "/c/a.yaml"
       {| ic_fs := {[ "/c/a.yaml" :=
                        Regular ("  script: |" +:+ nl +:+
                                 "{{- if b }}" +:+ nl +:+
                                 "    echo b") ]};
          ic_comments := ∅; ic_drawn := 0; ic_err := None |}
     = Some st' /\
     ReadFile (ic_fs st') "/c/a.yaml"
     = Some ("  script: |" +:+ nl +:+
             "{{- if b }}" +:+ nl +:+
             "    # helmlint: 00000000-0000-4000-8000-000000000000" +:+ nl +:+
             "    echo b")).
Proof.
  split; [eexists; split; vm_compute; reflexivity |].
  split; [vm_compute; reflexivity |].
  split; [vm_compute; reflexivity |].
  eexists; split; vm_compute; reflexivity.
Qed.

(** ** The marker injector on a tree *)

Section TreeInjection.

Variable uuid : nat -> string.
Hypothesis uuid_text : forall k, isUUID (uuid k) = true.

Lemma fileEntries_zip drawn file lines i :
  fileEntries uuid drawn file lines i
  = zip (uuid <$> seq drawn (rank lines i))
        (declRef file lines <$> declsAbove lines i).
Proof.
  unfold fileEntries, rank. generalize (declsAbove lines i) as ks.
  intros ks. revert drawn. induction ks as [|k ks IH]; intros drawn; [done |].
  csimpl. rewrite Nat.add_0_r. f_equal.
  rewrite <- (IH (S drawn)). apply imap_ext. intros r x _. simpl.
  f_equal. f_equal. lia.
Qed.

Lemma zip_seq_app {A : Type} (f : nat -> string) drawn (d1 d2 : list A) :
  zip (f <$> seq drawn (length d1 + length d2)) (d1 ++ d2)
  = (zip (f <$> seq drawn (length d1)) d1 ++
     zip (f <$> seq (drawn + length d1) (length d2)) d2)%list.
Proof.
  rewrite seq_app, fmap_app. rewrite zip_with_app; [done |].
  by rewrite length_fmap, length_seq.
Qed.

Lemma length_fileDecls file content :
  length (fileDecls file content)
  = rank (Split content LF) (length (Split content LF)).
Proof. unfold fileDecls, rank. by rewrite length_fmap. Qed.

(** The tasks of a walk, run in turn on files that are all different. *)
Lemma forEach_injectTask dir (es : list (string * node)) (st : injected) :
  NoDup es.*1 ->
  (forall e, e ∈ es -> ic_fs st !! e.1 = Some e.2) ->
  let decls := treeDecls dir (yamlOf es) in
  exists r,
    forEach (fun e st => if notYaml e then Some st
                         else injectTask uuid dir e.1 st) es st = Some r /\
    ic_err r = ic_err st /\
    ic_comments r
    = register (ic_comments st)
               (zip (uuid <$> seq (ic_drawn st) (length decls)) decls) /\
    ic_drawn r = ic_drawn st + length decls /\
    (forall p, (forall c, (p, c) ∉ yamlOf es) ->
               ic_fs r !! p = ic_fs st !! p).
Proof.
  revert st. induction es as [|e es IH]; intros st Hnd Hfs decls.
  - exists st. simpl. repeat split; auto.
  - apply NoDup_cons in Hnd as [Hne Hnd]. cbn [forEach].
    destruct (notYaml e) eqn:Hy.
    + cbn [mbind option_bind].
      destruct (IH st Hnd) as (r & Hr & Herr & Hc & Hd & Hframe).
      { intros e' He'. apply Hfs. by right. }
      unfold decls, yamlOf in *. cbn [omap list_omap]. rewrite Hy.
      exists r. auto.
    + destruct e as [path n].
      assert (exists content, n = Regular content) as [content ->].
      { destruct n; [done | eauto]. }
      assert (yamlOf ((path, Regular content) :: es)
              = (path, content) :: yamlOf es) as Hyaml.
      { unfold yamlOf. cbn [omap list_omap fst snd]. by rewrite Hy. }
      assert (path ∉ es.*1) as Hne' by exact Hne.
      assert (ReadFile (ic_fs st) path = Some content) as Hread.
      { unfold ReadFile.
        pose proof (Hfs (path, Regular content) ltac:(by left)) as H.
        cbn [fst snd] in H. by rewrite H. }
      pose proof (injectTask_run uuid uuid_text dir path st content Hread)
        as Hrun. cbv zeta in Hrun.
      cbn [fst snd]. rewrite Hrun. cbn [mbind option_bind].
      match goal with |- context [forEach _ es ?s] => set (st1 := s) end.
      assert (forall p, p <> path -> ic_fs st1 !! p = ic_fs st !! p)
        as Hother.
      { intros p Hp. unfold st1. cbn [ic_fs]. unfold WriteFile.
        by rewrite lookup_insert_ne. }
      assert (Hst1 : st1 = st1) by done.
      destruct (IH st1 Hnd) as (r & Hr & Herr & Hc & Hd & Hframe).
      { intros e' He'. rewrite Hother.
        - apply Hfs. by right.
        - intros Heq. apply Hne'. apply list_elem_of_fmap. by exists e'. }
      exists r. split; [exact Hr |].
      unfold decls. rewrite Hyaml. cbn [treeDecls flat_map fst snd].
      fold (treeDecls dir (yamlOf es)).
      rewrite length_app, zip_seq_app, register_app.
      rewrite length_fileDecls.
      unfold st1 in Herr, Hc, Hd.
      cbn [ic_err ic_comments ic_drawn] in Herr, Hc, Hd.
      split; [done |]. split.
      { rewrite Hc. f_equal. rewrite fileEntries_zip. done. }
      split; [lia |].
      intros p Hp. rewrite Hframe.
      * apply Hother. intros ->. apply (Hp content). by left.
      * intros c Hc'. apply (Hp c). by right.
Qed.

Lemma Walk_NoDup (fs : FS) dir : NoDup (Walk fs dir).*1.
Proof.
  unfold Walk. apply (sublist_NoDup _ ((map_to_list fs).*1)).
  - apply NoDup_fst_map_to_list.
  - apply fmap_sublist, sublist_filter.
Qed.

Lemma Walk_lookup (fs : FS) dir e : e ∈ Walk fs dir -> fs !! e.1 = Some e.2.
Proof.
  unfold Walk. rewrite list_elem_of_filter. intros [_ He].
  destruct e. by apply elem_of_map_to_list.
Qed.

Lemma register_list_to_map (m : Registry) entries :
  NoDup entries.*1 -> register m entries = list_to_map entries ∪ m.
Proof.
  revert m. induction entries as [|[k v] entries IH]; intros m Hnd.
  - simpl. by rewrite (left_id_L ∅ (∪)).
  - apply NoDup_cons in Hnd as [Hk Hnd].
    change (register m ((k, v) :: entries))
      with (register (<[k := v]> m) entries).
    rewrite IH by done. simpl. rewrite <- insert_union_l.
    rewrite insert_union_r; [done |].
    by apply not_elem_of_list_to_map_1.
Qed.

End TreeInjection.

(** ** The registry *)

Section RegistryFacts.

Lemma elem_of_yamlOf es path content :
  (path, content) ∈ yamlOf es <->
  (path, Regular content) ∈ es /\ notYaml (path, Regular content) = false.
Proof.
  unfold yamlOf. rewrite list_elem_of_omap. split.
  - intros ([p n] & He & H). destruct (notYaml (p, n)) eqn:Hy; [done |].
    cbn [fst snd] in H. destruct n as [|c]; [done |].
    injection H as -> ->. done.
  - intros [He Hy]. exists (path, Regular content). by rewrite Hy.
Qed.

Lemma yamlOf_paths_sublist es : (yamlOf es).*1 `sublist_of` es.*1.
Proof.
  induction es as [|[p n] es IH]; [done |].
  unfold yamlOf. cbn [omap list_omap fst snd]. fold (yamlOf es).
  destruct (notYaml (p, n)); [by apply sublist_cons |].
  destruct n; [by apply sublist_cons |]. by apply sublist_skip.
Qed.

Lemma relPath_below dir rel : relPath dir (dir +:+ "/" +:+ rel) = rel.
Proof.
  unfold relPath. rewrite <- append_assoc.
  replace (String.length dir + 1) with (String.length (dir +:+ "/"))
    by (rewrite length_append; simpl; lia).
  apply from_app.
Qed.

Lemma below_inv dir path :
  below dir path = true -> path = dir +:+ "/" +:+ relPath dir path.
Proof.
  unfold below. intros H. apply HasPrefix_inv in H as [rel ->].
  rewrite append_assoc. by rewrite relPath_below.
Qed.

Lemma elem_of_fileDecls file content d :
  d ∈ fileDecls file content <->
  exists i line, Split content LF !! i = Some line /\
    isDeclaration (Split content LF) i /\
    d = {| File := file; Line := i; Expr := TrimSpace line |}.
Proof.
  unfold fileDecls, declsAbove. rewrite list_elem_of_fmap. split.
  - intros (i & -> & Hi). apply list_elem_of_filter in Hi as [Hd Hi].
    apply decl_spec in Hd. pose proof Hd as (line & Hl & _).
    exists i, line. unfold declRef. by rewrite Hl.
  - intros (i & line & Hl & Hd & ->). exists i. split.
    + unfold declRef. by rewrite Hl.
    + apply list_elem_of_filter. split; [by apply decl_spec |].
      apply elem_of_seq. apply lookup_lt_Some in Hl. lia.
Qed.

Lemma NoDup_fileDecls file content : NoDup (fileDecls file content).
Proof.
  unfold fileDecls, declsAbove. apply NoDup_fmap_2_strong.
  - intros x y _ _ H. by injection H.
  - apply NoDup_filter, NoDup_seq.
Qed.

Lemma elem_of_treeDecls dir files d :
  d ∈ treeDecls dir files <->
  exists f, f ∈ files /\ d ∈ fileDecls (relPath dir f.1) f.2.
Proof.
  unfold treeDecls. rewrite list_elem_of_In, in_flat_map.
  split; intros (f & Hf & Hd); exists f;
    by rewrite ?list_elem_of_In in *; rewrite <- ?list_elem_of_In in *.
Qed.

Lemma NoDup_treeDecls dir files :
  NoDup files.*1 -> (forall f, f ∈ files -> below dir f.1 = true) ->
  NoDup (treeDecls dir files).
Proof.
  induction files as [|[p c] files IH]; intros Hnd Hb; [constructor |].
  apply NoDup_cons in Hnd as [Hp Hnd].
  cbn [treeDecls flat_map fst snd]. fold (treeDecls dir files).
  apply NoDup_app. split; [apply NoDup_fileDecls |]. split.
  - intros d Hd1 Hd2.
    apply elem_of_fileDecls in Hd1 as (i & line & _ & _ & ->).
    apply elem_of_treeDecls in Hd2 as ([p' c'] & Hf & Hd2).
    apply elem_of_fileDecls in Hd2 as (i' & line' & _ & _ & Heq).
    injection Heq as Hrel _ _. cbn [fst snd] in Hrel.
    apply Hp. apply list_elem_of_fmap. exists (p', c'). split; [| done].
    cbn [fst].
    rewrite (below_inv dir p) by (apply (Hb (p, c)); by left).
    rewrite (below_inv dir p') by (apply (Hb (p', c')); by right).
    by rewrite Hrel.
  - apply IH; [done |]. intros f Hf. apply Hb. by right.
Qed.

(** After the instrumentation no stage of [Lint] writes the registry. *)
Lemma laterStages_keep_ids env stage f f' :
  stage ∈ laterStages env -> stage f = Continue f' -> fr_ids f' = fr_ids f.
Proof.
  unfold laterStages. rewrite !elem_of_cons, elem_of_nil.
  intros [-> | [-> | [-> | [-> | []]]]].
  - unfold render, andThen.
    destruct (renderChart _ _ _ _ _); [| done | done].
    by intros [= <-].
  - unfold scan. by intros [= <-].
  - unfold reconcile. destruct (WriteExceptions _).
    + destruct (injectExceptions _ _ _ _ _ _); [| done]. by intros [= <-].
    + by intros [= <-].
  - unfold policies. by intros [= <-].
Qed.

Lemma foldl_andThen_ids env stages (o : outcome frame) f :
  (forall stage, stage ∈ stages -> stage ∈ laterStages env) ->
  foldl andThen o stages = Continue f ->
  exists f1, o = Continue f1 /\ fr_ids f = fr_ids f1.
Proof.
  revert f. induction stages as [|stage stages IH] using rev_ind;
    intros f Hin H.
  - exists f. done.
  - rewrite foldl_app in H. cbn [foldl] in H.
    destruct (foldl andThen o stages) as [f2| |] eqn:E; [| done | done].
    cbn [andThen] in H.
    destruct (IH f2) as (f1 & -> & Hids); [| done |].
    { intros s Hs. apply Hin. apply elem_of_app. by left. }
    exists f1. split; [done |]. rewrite <- Hids.
    apply (laterStages_keep_ids env stage); [| done].
    apply Hin. apply elem_of_app. right. by apply list_elem_of_singleton.
Qed.

Lemma treeDecls_spec (fs : FS) dir d :
  d ∈ treeDecls dir (yamlFiles fs dir) <->
  exists path content i line,
    fs !! path = Some (Regular content) /\
    below dir path = true /\
    HasSuffix (Filepath.Base path) ".yaml" = true /\
    Split content LF !! i = Some line /\
    isDeclaration (Split content LF) i /\
    d = {| File := relPath dir path; Line := i; Expr := TrimSpace line |}.
Proof.
  unfold yamlFiles. rewrite elem_of_treeDecls. split.
  - intros ([p c] & Hf & Hd). cbn [fst snd] in Hd.
    apply elem_of_yamlOf in Hf as [Hf Hy].
    apply elem_of_fileDecls in Hd as (i & line & Hl & Hdecl & ->).
    exists p, c, i, line. pose proof (Walk_lookup _ _ _ Hf) as Hfs.
    unfold Walk in Hf. apply list_elem_of_filter in Hf as [Hb _].
    unfold notYaml in Hy. cbn [fst snd isDir] in Hy, Hfs, Hb.
    apply negb_false_iff in Hy. done.
  - intros (p & c & i & line & Hfs & Hb & Hy & Hl & Hdecl & ->).
    exists (p, c). split.
    + apply elem_of_yamlOf. split.
      * unfold Walk. apply list_elem_of_filter. split; [done |].
        by apply elem_of_map_to_list.
      * unfold notYaml. cbn [fst snd isDir]. by rewrite Hy.
    + apply elem_of_fileDecls. by exists i, line.
Qed.

End RegistryFacts.

(** C4. For every source tree the injector returns, without panic or
    error, a registry that holds exactly one entry per declaration the line
    classifier detects in the [.yaml] files of the tree: when the tokens
    drawn are pairwise different, the entries are the declarations, each
    under its own token, so the size of the registry is the number of
    declarations, none twice and none left out. An entry records the path
    of the file relative to the scanned root, the zero-based line number
    and the trimmed text of the line. The registry is frozen before
    rendering: no later stage of [Lint] (render, scan, reconcile, policies
    and recursion) changes it, and [Lint] ends with the registry the
    injector returned. *)
Theorem registry_matches_declarations (uuid : nat -> string) (dir : string)
    (fs : FS) (drawn : nat) :
  (forall k, isUUID (uuid k) = true) ->
  let decls := treeDecls dir (yamlFiles fs dir) in
  NoDup (uuid <$> seq drawn (length decls)) ->
  (exists r,
     injectComments uuid dir fs drawn = Some r /\ ic_err r = None /\
     map_to_list (ic_comments r)
       ≡ₚ zip (uuid <$> seq drawn (length decls)) decls /\
     size (ic_comments r) = length decls /\
     ic_drawn r = drawn + length decls) /\
  NoDup decls /\
  (forall d, d ∈ decls <->
     exists path content i line,
       fs !! path = Some (Regular content) /\
       below dir path = true /\
       HasSuffix (Filepath.Base path) ".yaml" = true /\
       Split content LF !! i = Some line /\
       isDeclaration (Split content LF) i /\
       d = {| File := relPath dir path; Line := i;
              Expr := TrimSpace line |}) /\
  (forall rel, relPath dir (dir +:+ "/" +:+ rel) = rel) /\
  (forall env stage f f',
     stage ∈ laterStages env -> stage f = Continue f' ->
     fr_ids f' = fr_ids f) /\
  (forall env args w n f,
     Lint env args w n = Continue f ->
     exists f0 r,
       setup env args w n = Continue f0 /\
       injectComments (NewString env) (fr_chartDir f0)
                      (w_fs (fr_world f0)) (fr_drawn f0) = Some r /\
       fr_ids f = ic_comments r).
Proof.
  intros Huuid decls Hnd.
  assert (length (uuid <$> seq drawn (length decls)) = length decls) as Hlen
    by (by rewrite length_fmap, length_seq).
  split; [| split; [| split; [| split; [| split]]]].
  - destruct (forEach_injectTask uuid Huuid dir (Walk fs dir)
                {| ic_fs := fs; ic_comments := ∅; ic_drawn := drawn;
                   ic_err := None |})
      as (r & Hr & Herr & Hc & Hd & _).
    { apply Walk_NoDup. }
    { intros e He. by apply (Walk_lookup fs dir). }
    exists r. fold (yamlFiles fs dir) in Hc, Hd. fold decls in Hc, Hd.
    cbn [ic_err ic_comments ic_drawn] in Herr, Hc, Hd.
    assert (NoDup (zip (uuid <$> seq drawn (length decls)) decls).*1) as Hk
      by (rewrite fst_zip by lia; done).
    rewrite register_list_to_map in Hc by done.
    rewrite (right_id_L ∅ (∪)) in Hc.
    split; [exact Hr |]. split; [done |]. split; [| split; [| done]].
    + rewrite Hc. by apply map_to_list_to_map.
    + rewrite Hc, map_size_list_to_map by done.
      rewrite length_zip. lia.
  - apply NoDup_treeDecls.
    + apply (sublist_NoDup _ ((Walk fs dir).*1));
        [apply Walk_NoDup | apply yamlOf_paths_sublist].
    + intros [p c] Hf. apply elem_of_yamlOf in Hf as [Hf _].
      unfold Walk in Hf. apply list_elem_of_filter in Hf as [Hb _]. done.
  - intros d. apply treeDecls_spec.
  - apply relPath_below.
  - apply laterStages_keep_ids.
  - intros env args w n f HL. unfold Lint in HL.
    destruct (foldl_andThen_ids env (laterStages env) _ f
                ltac:(done) HL) as (f1 & Hf1 & Hids).
    destruct (setup env args w n) as [f0| |] eqn:Hs; [| done | done].
    cbn [andThen] in Hf1. unfold instrument in Hf1.
    destruct (injectComments _ _ _ _) as [r|] eqn:Hr; [| done].
    destruct (ic_err r); [done |]. injection Hf1 as <-.
    exists f0, r. by rewrite Hids.
Qed.

Lemma registry_matches_declarations_witness :
  exists r,
    injectComments sampleUUID "/c" sampleChart 0 = Some r /\
    ic_err r = None /\
    size (ic_comments r) = 2 /\
    map_to_list (ic_comments r)
      ≡ₚ [("00000000-0000-4000-8000-000000000000",
            {| File := "templates/a.yaml"; Line := 1;
               Expr := "{{ if a }}" |});
           ("11111111-1111-4111-8111-111111111111",
            {| File := "templates/a.yaml"; Line := 4;
               Expr := "{{- if c }}" |})].
Proof.
  assert (NoDup (sampleUUID <$>
                 seq 0 (length (treeDecls "/c" (yamlFiles sampleChart "/c")))))
    as Hnd.
  { apply (bool_decide_unpack _). by vm_compute. }
  destruct (registry_matches_declarations sampleUUID "/c" sampleChart 0
              sampleUUID_text Hnd)
    as [(r & Hr & Herr & Hperm & Hsize & _) _].
  exists r. split; [exact Hr |]. split; [exact Herr |].
  split; [exact Hsize |]. exact Hperm.
Defined.

(** ** The coverage reconciler: verification *)

Section Verification.

Lemma slices_Contains_spec (s : list string) (v : string) :
  slices_Contains s v = true <-> v ∈ s.
Proof.
  unfold slices_Contains. rewrite existsb_exists, list_elem_of_In. split.
  - intros (x & Hx & Heq). apply String.eqb_eq in Heq. by subst.
  - intros H. exists v. by rewrite String.eqb_refl.
Qed.

Lemma slices_Contains_false (s : list string) (v : string) :
  slices_Contains s v = false <-> v ∉ s.
Proof.
  rewrite <- slices_Contains_spec. by destruct (slices_Contains s v).
Qed.

Lemma verifyCoverage_fold (t : T) seenIDs
    (entries : list (string * conditionalDeclRef)) :
  let t' := foldl (fun t e => if slices_Contains seenIDs e.1 then t
                              else Errorf t (notFound e.2)) t entries in
  Errors t' = (Errors t ++ (notFound ∘ snd <$> uncoveredOf seenIDs entries))%list
  /\ Logs t' = Logs t.
Proof.
  revert t. induction entries as [|e entries IH]; intros t; cbn zeta.
  - simpl. by rewrite app_nil_r.
  - cbn [foldl]. unfold uncoveredOf. rewrite filter_cons.
    destruct (slices_Contains seenIDs e.1) eqn:E.
    + rewrite decide_False by done. apply IH.
    + rewrite decide_True by done.
      destruct (IH (Errorf t (notFound e.2))) as [-> ->].
      split; [| done]. cbn [Errorf Errors]. rewrite <- app_assoc. done.
Qed.

End Verification.

(** C5. In verification mode, whatever order the registry is visited in,
    [verifyCoverage] adds to the failures of the run exactly one failure
    per registry entry whose token is not among the surviving tokens, and
    nothing else: every uncovered declaration is reported, none twice, and
    no entry whose token survives is. The failure says "Branch was not
    found in the rendered chart output" and names the entry's file, line
    and declaration text. *)
Theorem verifyCoverage_reports (range : RangeOrder) (t : T) (ids : Registry)
    (seenIDs : list string) :
  fairRange range ->
  exists reported : list conditionalDeclRef,
    Errors (verifyCoverage range t ids seenIDs)
    = (Errors t ++ (notFound <$> reported))%list /\
    Logs (verifyCoverage range t ids seenIDs) = Logs t /\
    reported ≡ₚ (snd <$> uncoveredOf seenIDs (map_to_list ids)) /\
    length reported
    = size (filter (fun e : string * conditionalDeclRef => e.1 ∉ seenIDs) ids) /\
    (forall id def, ids !! id = Some def -> id ∉ seenIDs -> def ∈ reported) /\
    (forall def, def ∈ reported ->
                 exists id, ids !! id = Some def /\ id ∉ seenIDs) /\
    (forall def,
       notFound def
       = "Branch was not found in the rendered chart output:" +:+ nl +:+
         "  (" +:+ File def +:+ ":" +:+ fmt_d (Line def) +:+ "): " +:+
         Expr def).
Proof.
  intros Hfair. unfold verifyCoverage.
  destruct (verifyCoverage_fold t seenIDs (range _ ids)) as [HE HL].
  cbn zeta in HE, HL.
  exists (snd <$> uncoveredOf seenIDs (range _ ids)).
  assert (snd <$> uncoveredOf seenIDs (range _ ids)
          ≡ₚ snd <$> uncoveredOf seenIDs (map_to_list ids)) as Hperm.
  { unfold uncoveredOf. by rewrite (Hfair _ ids). }
  split; [by rewrite HE, list_fmap_compose |]. split; [done |].
  split; [done |]. split; [| split; [| split]].
  - rewrite Hperm, length_fmap. unfold uncoveredOf.
    rewrite map_filter_alt, map_size_list_to_map.
    + f_equal. apply list_filter_iff. intros e.
      by rewrite slices_Contains_false.
    + apply (sublist_NoDup _ ((map_to_list ids).*1));
        [apply NoDup_fst_map_to_list |].
      apply fmap_sublist, sublist_filter.
  - intros id def Hid Hseen. rewrite Hperm.
    apply list_elem_of_fmap. exists (id, def). split; [done |].
    apply list_elem_of_filter. split.
    + by apply slices_Contains_false.
    + by apply elem_of_map_to_list.
  - intros def Hdef. rewrite Hperm in Hdef.
    apply list_elem_of_fmap in Hdef as ([id d] & -> & He).
    apply list_elem_of_filter in He as [Hs He].
    exists id. split; [by apply elem_of_map_to_list |].
    by apply slices_Contains_false.
  - done.
Qed.

Lemma verifyCoverage_reports_witness :
  exists reported,
    Errors (verifyCoverage (fun V => map_to_list) (mkT [] [])
              (<["00000000-0000-4000-8000-000000000000" :=
                   {| File := "templates/a.yaml"; Line := 1;
                      Expr := "{{ if a }}" |}]>
               (<["11111111-1111-4111-8111-111111111111" :=
                    {| File := "templates/a.yaml"; Line := 4;
                       Expr := "{{- if c }}" |}]> ∅))
              ["00000000-0000-4000-8000-000000000000"])
    = notFound <$> reported /\
    length reported = 1 /\
    {| File := "templates/a.yaml"; Line := 4; Expr := "{{- if c }}" |}
      ∈ reported.
Proof.
  destruct (verifyCoverage_reports (fun V => map_to_list) (mkT [] [])
              (<["00000000-0000-4000-8000-000000000000" :=
                   {| File := "templates/a.yaml"; Line := 1;
                      Expr := "{{ if a }}" |}]>
               (<["11111111-1111-4111-8111-111111111111" :=
                    {| File := "templates/a.yaml"; Line := 4;
                       Expr := "{{- if c }}" |}]> ∅))
              ["00000000-0000-4000-8000-000000000000"]
              (fun V m => reflexivity _))
    as (reported & HE & _ & _ & Hlen & Hall & _).
  exists reported. split; [exact HE |]. split.
  - rewrite Hlen. by vm_compute.
  - apply (Hall "11111111-1111-4111-8111-111111111111").
    + by vm_compute.
    + apply (bool_decide_unpack _). by vm_compute.
Defined.

(** ** The marker scanner *)

Section Scanning.

(** The lines the scanner hands out: every line up to the first one that
    does not fit its buffer, without its carriage return; an empty last
    segment is no line. *)
Lemma tokens_reach (segments : list string) i seg :
  segments !! i = Some seg ->
  (forall j l, j <= i -> segments !! j = Some l -> Bufio.tooLong l = false) ->
  seg <> "" \/ S i < length segments ->
  Bufio.dropCR seg ∈ Bufio.tokens segments.
Proof.
  revert i. induction segments as [|s0 segments IH]; intros i Hi Hshort Hlast;
    [done |].
  pose proof (Hshort 0 s0 ltac:(lia) eq_refl) as H0.
  destruct i as [|i].
  - injection Hi as ->. cbn [Bufio.tokens].
    destruct segments as [|s1 segments].
    + destruct Hlast as [Hne | Hlt]; [| simpl in Hlt; lia].
      rewrite H0, orb_false_r.
      destruct (String.eqb_spec seg ""); [done |]. by left.
    + rewrite H0. by left.
  - cbn [Bufio.tokens]. destruct segments as [|s1 segments]; [done |].
    rewrite H0. right. apply (IH i); [done | |].
    + intros j l Hj Hl. apply (Hshort (S j)); [lia | done].
    + destruct Hlast as [? | Hlt]; [by left | right]. simpl in *. lia.
Qed.

Lemma discoverComments_fold fs (es : list (string * node)) (st : discovered) :
  dc_fs st = fs ->
  (forall e, e ∈ es -> fs !! e.1 = Some e.2) ->
  let r := foldl (fun st e => if notYaml e then st else discoverTask e.1 st)
                 st es in
  dc_fs r = fs /\ dc_err r = dc_err st /\
  dc_ids r
  = (dc_ids st ++
     flat_map (fun f => flat_map scanLine (Bufio.ScanLines f.2))
              (yamlOf es))%list.
Proof.
  revert st. induction es as [|[p n] es IH]; intros st Hst Hfs; cbn zeta.
  - simpl. by rewrite app_nil_r.
  - cbn [foldl]. unfold yamlOf. cbn [omap list_omap fst snd].
    fold (yamlOf es).
    destruct (notYaml (p, n)) eqn:Hy.
    + apply IH; [done |]. intros e He. apply Hfs. by right.
    + destruct n as [|content]; [done |].
      pose proof (Hfs (p, Regular content) ltac:(by left)) as Hp.
      cbn [fst snd] in Hp.
      assert (discoverTask p st
              = {| dc_fs := fs;
                   dc_ids := (dc_ids st ++
                              flat_map scanLine (Bufio.ScanLines content))%list;
                   dc_err := dc_err st |}) as ->.
      { unfold discoverTask. by rewrite Hst, Hp. }
      match goal with |- context [foldl _ ?s es] => set (st1 := s) end.
      destruct (IH st1) as (H1 & H2 & H3); [done | |].
      { intros e He. apply Hfs. by right. }
      cbn zeta in H1, H2, H3. rewrite H1, H2, H3.
      unfold st1. cbn [dc_ids dc_err flat_map fst snd].
      by rewrite <- app_assoc.
Qed.

Lemma Lstat_false (fs : FS) dir : Lstat fs dir = false -> Walk fs dir = [].
Proof.
  unfold Lstat. destruct (fs !! dir); [done |]. by destruct (Walk fs dir).
Qed.

Lemma discoverComments_walk dir fs :
  let r := foldl (fun st e => if notYaml e then st else discoverTask e.1 st)
                 {| dc_fs := fs; dc_ids := []; dc_err := None |}
                 (Walk fs dir) in
  dc_fs (discoverComments dir fs) = dc_fs r /\
  dc_ids (discoverComments dir fs) = dc_ids r /\
  dc_err (discoverComments dir fs)
  = if Lstat fs dir then dc_err r
    else Some ("lstat " +:+ dir +:+ ": no such file or directory").
Proof.
  unfold discoverComments. destruct (Lstat fs dir) eqn:HL; [done |].
  by rewrite (Lstat_false _ _ HL).
Qed.

Lemma discoverComments_run dir fs :
  let r := discoverComments dir fs in
  dc_fs r = fs /\
  dc_err r = (if Lstat fs dir then None
              else Some ("lstat " +:+ dir +:+ ": no such file or directory")) /\
  forall id, id ∈ dc_ids r <->
     exists path content line,
       fs !! path = Some (Regular content) /\
       below dir path = true /\
       HasSuffix (Filepath.Base path) ".yaml" = true /\
       line ∈ Bufio.ScanLines content /\
       mentions line "# helmlint: " /\
       id = TrimPrefix (TrimSpace line) "# helmlint: ".
Proof.
  intros r.
  destruct (discoverComments_fold fs (Walk fs dir)
              {| dc_fs := fs; dc_ids := []; dc_err := None |} eq_refl)
    as (Hfs & Herr & Hids).
  { intros e He. by apply (Walk_lookup fs dir). }
  destruct (discoverComments_walk dir fs) as (Hfs' & Hids' & Herr').
  cbn zeta in Hfs, Herr, Hids, Hfs', Hids', Herr'.
  fold r in Hfs', Hids', Herr'. rewrite <- Hfs' in Hfs.
  rewrite <- Hids' in Hids. rewrite Herr in Herr'.
  cbn [dc_ids dc_err app] in Herr', Hids.
  split; [done |]. split; [done |].
  intros id. rewrite Hids, list_elem_of_In, in_flat_map. split.
  - intros ([p c] & Hf & Hid). cbn [snd] in Hid.
    apply in_flat_map in Hid as (line & Hline & Hid).
    apply list_elem_of_In, elem_of_yamlOf in Hf as [Hf Hy].
    pose proof (Walk_lookup _ _ _ Hf) as Hp.
    unfold Walk in Hf. apply list_elem_of_filter in Hf as [Hb _].
    unfold notYaml in Hy. cbn [fst snd isDir] in Hy, Hp, Hb.
    apply negb_false_iff in Hy.
    unfold scanLine in Hid.
    destruct (Contains line markerPrefix) eqn:Hc; [| done].
    destruct Hid as [<- | []].
    exists p, c, line. repeat split; auto.
    + by apply list_elem_of_In.
    + by apply Contains_spec.
  - intros (p & c & line & Hp & Hb & Hy & Hline & Hm & ->).
    exists (p, c). split.
    + apply list_elem_of_In, elem_of_yamlOf. split.
      * unfold Walk. apply list_elem_of_filter. split; [done |].
        by apply elem_of_map_to_list.
      * unfold notYaml. cbn [fst snd isDir]. by rewrite Hy.
    + cbn [snd]. apply in_flat_map. exists line.
      split; [by apply list_elem_of_In |].
      unfold scanLine. apply Contains_spec in Hm.
      unfold markerPrefix. rewrite Hm. by left.
Qed.

End Scanning.

(** C8. The scanner misses markers that the rendered output holds. A
    line that carries the marker text after other content matches, but
    what is recorded is the whole trimmed line, so the token is not in
    the result. And a line that does not fit the scanner's buffer ends
    the scan of its file without an error: the marker on the line after
    it is not read. *)
Lemma discoverComments_marker_after_content :
  let rendered : FS :=
    {[ "/r/out/a.yaml" :=
         Regular "key: v # helmlint: 00000000-0000-4000-8000-000000000000" ]} in
  let long : FS :=
    {[ "/r/out/a.yaml" :=
         Regular (Repeat "a" (300 * 300) +:+ nl +:+
                  "# helmlint: 00000000-0000-4000-8000-000000000000") ]} in
  mentions "key: v # helmlint: 00000000-0000-4000-8000-000000000000"
           ("# helmlint: " +:+ "00000000-0000-4000-8000-000000000000") /\
  dc_ids (discoverComments "/r" rendered)
  = ["key: v # helmlint: 00000000-0000-4000-8000-000000000000"] /\
  ("00000000-0000-4000-8000-000000000000"
     ∉ dc_ids (discoverComments "/r" rendered)) /\
  dc_ids (discoverComments "/r" long) = [] /\
  dc_err (discoverComments "/r" long) = None.
Proof.
  intros rendered long.
  split; [by exists "key: v ", "" |].
  split; [vm_compute; reflexivity |].
  split; [apply (bool_decide_unpack _); vm_compute; exact I |].
  split; vm_compute; reflexivity.
Qed.

(** ** Files the walks leave alone *)

Section Filtering.

Lemma register_lookup_inv (m : Registry) entries id d :
  register m entries !! id = Some d -> (id, d) ∈ entries \/ m !! id = Some d.
Proof.
  revert m. induction entries as [|[k v] entries IH]; intros m H; [by right |].
  change (register m ((k, v) :: entries))
    with (register (<[k := v]> m) entries) in H.
  destruct (IH _ H) as [Hin | Hm]; [left; by right |].
  destruct (decide (k = id)) as [-> | Hne].
  - rewrite lookup_insert_eq in Hm. injection Hm as ->. left. by left.
  - rewrite lookup_insert_ne in Hm by done. by right.
Qed.

Lemma relPath_inj dir p q :
  below dir p = true -> below dir q = true ->
  relPath dir p = relPath dir q -> p = q.
Proof.
  intros Hp Hq H. rewrite (below_inv dir p Hp), (below_inv dir q Hq).
  by rewrite H.
Qed.

End Filtering.

(** C10. Both walks hand only regular files whose name ends in ".yaml" to
    their tasks. The injector leaves every other path of the file system
    as it is (other extensions such as ".yml" or ".tpl", directories,
    anything outside the root); every registry entry is a declaration of a
    [.yaml] file below the root, so a file with another name contributes no
    entry even if it has an if-opening tag; and every token the scanner
    records comes from a line of a [.yaml] file below the root, so a file
    with another name contributes no token even if it has marker text. *)
Theorem only_yaml_files_are_visited (uuid : nat -> string) (dir : string)
    (fs : FS) (drawn : nat) :
  (forall k, isUUID (uuid k) = true) ->
  exists r,
    injectComments uuid dir fs drawn = Some r /\
    (forall path,
       HasSuffix (Filepath.Base path) ".yaml" = false \/
       below dir path = false \/
       (forall content, fs !! path <> Some (Regular content)) ->
       ic_fs r !! path = fs !! path) /\
    (forall id d,
       ic_comments r !! id = Some d ->
       exists path content,
         fs !! path = Some (Regular content) /\
         below dir path = true /\
         HasSuffix (Filepath.Base path) ".yaml" = true /\
         File d = relPath dir path) /\
    (forall path id d,
       below dir path = true ->
       HasSuffix (Filepath.Base path) ".yaml" = false ->
       ic_comments r !! id = Some d ->
       File d <> relPath dir path) /\
    (forall id,
       id ∈ dc_ids (discoverComments dir fs) ->
       exists path content line,
         fs !! path = Some (Regular content) /\
         below dir path = true /\
         HasSuffix (Filepath.Base path) ".yaml" = true /\
         line ∈ Bufio.ScanLines content /\
         id = TrimPrefix (TrimSpace line) "# helmlint: ") /\
    HasSuffix (Filepath.Base "/c/values.yml") ".yaml" = false /\
    HasSuffix (Filepath.Base "/c/templates/_helpers.tpl") ".yaml" = false.
Proof.
  intros Huuid.
  destruct (forEach_injectTask uuid Huuid dir (Walk fs dir)
              {| ic_fs := fs; ic_comments := ∅; ic_drawn := drawn;
                 ic_err := None |})
    as (r & Hr & _ & Hc & _ & Hframe).
  { apply Walk_NoDup. }
  { intros e He. by apply (Walk_lookup fs dir). }
  cbn [ic_fs ic_comments ic_drawn] in Hc, Hframe.
  assert (forall id d, ic_comments r !! id = Some d ->
            exists path content,
              fs !! path = Some (Regular content) /\
              below dir path = true /\
              HasSuffix (Filepath.Base path) ".yaml" = true /\
              File d = relPath dir path) as Hentries.
  { intros id d Hid. rewrite Hc in Hid.
    apply register_lookup_inv in Hid as [Hin | Hin]; [| done].
    apply elem_of_zip_r in Hin.
    apply treeDecls_spec in Hin as (p & c & i & line & Hp & Hb & Hy & _ & _ & ->).
    by exists p, c. }
  exists r. split; [exact Hr |]. split; [| split; [exact Hentries | split]].
  - intros path Hpath. apply Hframe. intros c Hin.
    apply elem_of_yamlOf in Hin as [Hin Hy].
    pose proof (Walk_lookup _ _ _ Hin) as Hp.
    unfold Walk in Hin. apply list_elem_of_filter in Hin as [Hb _].
    unfold notYaml in Hy. cbn [fst snd isDir] in Hy, Hp, Hb.
    apply negb_false_iff in Hy.
    destruct Hpath as [H | [H | H]]; [congruence | congruence |].
    by apply (H c).
  - intros path id d Hb Hy Hid Heq.
    destruct (Hentries id d Hid) as (p & c & _ & Hb' & Hy' & Hfile).
    rewrite Hfile in Heq. apply relPath_inj in Heq; [| done | done].
    congruence.
  - split; [| by split].
    intros id Hid.
    destruct (discoverComments_run dir fs) as (_ & _ & Hchar).
    apply Hchar in Hid as (p & c & line & ? & ? & ? & ? & _ & ?).
    by exists p, c, line.
Qed.

Lemma only_yaml_files_are_visited_witness :
  exists r,
    injectComments sampleUUID "/c" sampleChart 0 = Some r /\
    ic_fs r !! "/c/templates/_helpers.tpl" = Some (Regular "{{ if z }}") /\
    ic_fs r !! "/c/values.yml" = Some (Regular "{{ if y }}").
Proof.
  destruct (only_yaml_files_are_visited sampleUUID "/c" sampleChart 0
              sampleUUID_text)
    as (r & Hr & Hframe & _).
  exists r. split; [exact Hr |]. split.
  - rewrite Hframe; [by vm_compute | by left].
  - rewrite Hframe; [by vm_compute | by left].
Defined.

(** ** Policies and recursion *)

Section Recursion.

Variable env : Env.

Lemma foldl_steps {A : Type} (f : A -> world -> world) (l : list A) (w : world) :
  foldl (fun w step => step w) w (f <$> l) = foldl (fun w x => f x w) w l.
Proof. revert w. induction l as [|x l IH]; intros w; [done |]. apply IH. Qed.

Lemma walkDir_steps opts recursionDir w dir :
  walkDir env opts recursionDir w dir
  = foldl (fun w step => step w) w (stepsOf env opts recursionDir dir).
Proof.
  unfold walkDir, stepsOf. rewrite !foldl_app, !foldl_steps. done.
Qed.

Lemma walkRenderedChart_steps opts dir outputDirs w :
  walkRenderedChart env opts dir outputDirs w
  = foldl (fun w step => step w) w
      (flat_map (stepsOf env opts (Filepath.Join2 dir "recursions"))
                outputDirs).
Proof.
  unfold walkRenderedChart. revert w.
  induction outputDirs as [|d ds IH]; intros w; [done |].
  cbn [foldl flat_map]. rewrite foldl_app, <- walkDir_steps. apply IH.
Qed.

Lemma runConftest_trace policiesDir dir w :
  w_trace (runConftest env policiesDir dir w).1
  = (w_trace w ++ [Conftest policiesDir dir])%list /\
  w_fs (runConftest env policiesDir dir w).1 = w_fs w.
Proof.
  unfold runConftest. destruct (conftest env _ _ _) as [out [e|]]; done.
Qed.

End Recursion.

(** C9 (amended). The steps [walkRenderedChart] runs are fixed by the
    rendered directories and the options alone: for each directory the
    top-level policy pass, every visitor, and every recursion rule, each
    once and in turn, whatever the earlier steps reported; a failure
    cancels nothing. For a rule and a directory whose target directory
    could be made, the extraction function runs once; if it returns an
    error, the error is reported and no nested policy pass runs, whatever
    it wrote; if it returns no error and the target directory holds no
    entry, nothing more happens (a success without a nested pass); if it
    returns no error and the target holds an entry, exactly one nested
    policy pass runs against the target with the rule's own finalized
    policies directory. That directory starts from the policies directory
    the run has when the rule is registered and is replaced only by an
    option of the rule: a rule without options inherits the top-level
    one. *)
Theorem recursion_steps (env : Env) (opts : options) (dir : string)
    (outputDirs : list string) (w : world) :
  let recursionDir := Filepath.Join2 dir "recursions" in
  walkRenderedChart env opts dir outputDirs w
  = foldl (fun w step => step w) w
      (flat_map (stepsOf env opts recursionDir) outputDirs) /\
  (forall d, length (stepsOf env opts recursionDir d)
             = 1 + length (Visitors opts) + length (Recursions opts)) /\
  (forall d i rule w0,
     MkdirAll (w_fs w0) (targetOf recursionDir d i) = None ->
     recurse env recursionDir d w0 (i, rule)
     = w_Errorf w0 ("unable to create recursion directory: mkdir " +:+
                    targetOf recursionDir d i)) /\
  (forall d i rule w0 fs1 fs2 e,
     MkdirAll (w_fs w0) (targetOf recursionDir d i) = Some fs1 ->
     Fn rule d (targetOf recursionDir d i) fs1 = (fs2, Some e) ->
     let w1 := recurse env recursionDir d w0 (i, rule) in
     w_trace w1
     = (w_trace w0 ++ [Extract i d (targetOf recursionDir d i)])%list /\
     Errors (w_t w1)
     = (Errors (w_t w0) ++ ["error in recursion function: " +:+ e])%list /\
     Logs (w_t w1) = Logs (w_t w0) /\ w_fs w1 = fs2) /\
  (forall d i rule w0 fs1 fs2,
     MkdirAll (w_fs w0) (targetOf recursionDir d i) = Some fs1 ->
     Fn rule d (targetOf recursionDir d i) fs1 = (fs2, None) ->
     length (default [] (ReadDir fs2 (targetOf recursionDir d i))) = 0 ->
     let w1 := recurse env recursionDir d w0 (i, rule) in
     w_trace w1
     = (w_trace w0 ++ [Extract i d (targetOf recursionDir d i)])%list /\
     w_t w1 = w_t w0 /\ w_fs w1 = fs2) /\
  (forall d i rule w0 fs1 fs2,
     MkdirAll (w_fs w0) (targetOf recursionDir d i) = Some fs1 ->
     Fn rule d (targetOf recursionDir d i) fs1 = (fs2, None) ->
     0 < length (default [] (ReadDir fs2 (targetOf recursionDir d i))) ->
     let w1 := recurse env recursionDir d w0 (i, rule) in
     w_trace w1
     = (w_trace w0 ++
        [Extract i d (targetOf recursionDir d i);
         Conftest (PoliciesDir (Opts rule)) (targetOf recursionDir d i)])%list
     /\ w_fs w1 = fs2) /\
  (forall fn o,
     exists rule,
       Recursions (WithRecursion env fn [] o) = (Recursions o ++ [rule])%list /\
       Fn rule = fn /\
       PoliciesDir (Opts rule)
       = chartRelPath env (Filepath.Abs (cwd env) (ChartDir o))
                      (PoliciesDir o) "policies") /\
  (forall fn o p,
     exists rule,
       Recursions (WithRecursion env fn [WithPoliciesDir p] o)
       = (Recursions o ++ [rule])%list /\
       Fn rule = fn /\
       PoliciesDir (Opts rule)
       = chartRelPath env (Filepath.Abs (cwd env) (ChartDir o)) p "policies") /\
  (forall o,
     PoliciesDir (Finalize env o)
     = chartRelPath env (Filepath.Abs (cwd env) (ChartDir o))
                    (PoliciesDir o) "policies").
Proof.
  intros recursionDir.
  split; [apply walkRenderedChart_steps |].
  split.
  { intros d. unfold stepsOf.
    rewrite !length_app, !length_fmap, !length_imap. simpl. lia. }
  split.
  { intros d i rule w0 Hmk. unfold recurse. cbn [fst snd].
    fold (targetOf recursionDir d i). by rewrite Hmk. }
  split.
  { intros d i rule w0 fs1 fs2 e Hmk HFn. cbn zeta.
    unfold recurse. cbn [fst snd]. fold (targetOf recursionDir d i).
    rewrite Hmk. unfold recursionTask. cbn [w_fs]. rewrite HFn. done. }
  split.
  { intros d i rule w0 fs1 fs2 Hmk HFn Hempty. cbn zeta.
    unfold recurse. cbn [fst snd]. fold (targetOf recursionDir d i).
    rewrite Hmk. unfold recursionTask. cbn [w_fs]. rewrite HFn.
    cbn [w_event w_fs]. rewrite Hempty. done. }
  split.
  { intros d i rule w0 fs1 fs2 Hmk HFn Hfiles. cbn zeta.
    unfold recurse. cbn [fst snd]. fold (targetOf recursionDir d i).
    rewrite Hmk. unfold recursionTask. cbn [w_fs]. rewrite HFn.
    cbn [w_event w_fs w_t w_trace].
    destruct (length (default [] (ReadDir fs2 (targetOf recursionDir d i))))
      as [|n] eqn:E; [lia |]. cbn [Nat.eqb].
    match goal with
    | |- context [runConftest env ?p ?t ?W] =>
        destruct (runConftest_trace env p t W) as [Ht Hf]
    end.
    rewrite Ht, Hf. cbn [w_event w_trace w_fs w_t].
    by rewrite <- app_assoc. }
  split; [intros fn o; by eexists |].
  split; [intros fn o p; by eexists |].
  done.
Qed.

Lemma recursion_steps_witness :
  w_trace (recurse sampleEnv "/tmp/1/recursions" "/tmp/1/results/f1"
             emptyWorld (0, {| Fn := writesNothing; Opts := sampleOptions |}))
  = [Extract 0 "/tmp/1/results/f1" "/tmp/1/recursions/f1-recursion-0"].
Proof.
  destruct (recursion_steps sampleEnv sampleOptions "/tmp/1" [] emptyWorld)
    as (_ & _ & _ & _ & Hnone & _).
  destruct (Hnone "/tmp/1/results/f1" 0
              {| Fn := writesNothing; Opts := sampleOptions |} emptyWorld
              (<["/tmp/1/recursions/f1-recursion-0" := Directory]> ∅)
              (<["/tmp/1/recursions/f1-recursion-0" := Directory]> ∅))
    as (Ht & _).
  - vm_compute. reflexivity.
  - reflexivity.
  - vm_compute. reflexivity.
  - exact Ht.
Defined.

(** C9, as stated, fails on the policy directory of a rule: a rule
    registered without any option of its own runs its nested pass with the
    top-level policies directory, which it inherits. Here the run is
    configured with the policies directory "/p" and the rule with none;
    the nested invocation against the rule's target uses "/p". Without
    any policies option both directories are the default of the chart,
    "/c/policies". An extraction that fails after writing a file starts no
    nested pass. *)
Lemma nested_pass_inherits_policies :
  PoliciesDir inheritingOptions = "/p" /\
  (PoliciesDir ∘ Opts <$> Recursions inheritingOptions) = ["/p"] /\
  w_trace (walkRenderedChart sampleEnv inheritingOptions "/tmp/1"
             ["/tmp/1/results/f1"] emptyWorld)
  = [Conftest "/p" "/tmp/1/results/f1";
     Extract 0 "/tmp/1/results/f1" "/tmp/1/recursions/f1-recursion-0";
     Conftest "/p" "/tmp/1/recursions/f1-recursion-0"] /\
  PoliciesDir sampleOptions = "/c/policies" /\
  (PoliciesDir ∘ Opts <$> Recursions sampleOptions) = ["/c/policies"] /\
  w_trace (walkRenderedChart sampleEnv sampleOptions "/tmp/1"
             ["/tmp/1/results/f1"] emptyWorld)
  = [Conftest "/c/policies" "/tmp/1/results/f1";
     Extract 0 "/tmp/1/results/f1" "/tmp/1/recursions/f1-recursion-0";
     Conftest "/c/policies" "/tmp/1/recursions/f1-recursion-0"] /\
  w_trace (recurse sampleEnv "/tmp/1/recursions" "/tmp/1/results/f1"
             emptyWorld
             (0, {| Fn := failsAfterWriting; Opts := sampleOptions |}))
  = [Extract 0 "/tmp/1/results/f1" "/tmp/1/recursions/f1-recursion-0"].
Proof. repeat split; vm_compute; reflexivity. Qed.

(** ** Lines with suppression annotations *)

Section Annotated.

Variables (unc : nat -> bool) (ann : nat -> string).
Hypothesis ann_ignore : forall k, Contains (ann k) ignoreMarker = true.

Implicit Types (lines : list string) (k j : nat).

Lemma picked_S n : picked unc (S n) = picked unc n + if unc n then 1 else 0.
Proof.
  unfold picked. rewrite seq_S, filter_app, length_app. simpl. f_equal.
  rewrite filter_cons, filter_nil. destruct (unc n) eqn:E.
  - by rewrite decide_True.
  - by rewrite decide_False.
Qed.

Lemma annotatedLines_snoc lines l :
  annotatedLines unc ann (lines ++ [l])
  = (annotatedLines unc ann lines ++
     if unc (length lines) then [ann (length lines); l] else [l])%list.
Proof.
  unfold annotatedLines. rewrite imap_app, concat_app. simpl.
  rewrite Nat.add_0_r, app_nil_r. done.
Qed.

Lemma length_annotatedLines lines :
  length (annotatedLines unc ann lines)
  = length lines + picked unc (length lines).
Proof.
  induction lines as [|l lines IH] using rev_ind; [done |].
  rewrite annotatedLines_snoc, !length_app, IH. simpl.
  rewrite Nat.add_1_r, picked_S. destruct (unc (length lines)); simpl; lia.
Qed.

Lemma newIndex_S k :
  newIndex unc (S k) = newIndex unc k + 1 + if unc (S k) then 1 else 0.
Proof. unfold newIndex. rewrite (picked_S (S k)). lia. Qed.

Lemma newIndex_lt_length lines k :
  k < length lines -> newIndex unc k < length (annotatedLines unc ann lines).
Proof.
  rewrite length_annotatedLines. unfold newIndex. intros Hk.
  assert (picked unc (S k) <= picked unc (length lines)); [| lia].
  clear ann_ignore. induction (length lines) as [|n IH]; [lia |].
  destruct (decide (k = n)) as [-> | Hne]; [done |].
  rewrite (picked_S n). assert (k < n) by lia. specialize (IH H). lia.
Qed.

(** Source line [k] sits at its new index, and the annotation of a
    picked line right above it. *)
Lemma lookup_annotatedLines lines k :
  k < length lines ->
  annotatedLines unc ann lines !! newIndex unc k = lines !! k /\
  (unc k = true ->
   annotatedLines unc ann lines !! (newIndex unc k - 1) = Some (ann k)).
Proof.
  induction lines as [|l lines IH] using rev_ind; [simpl; lia |].
  rewrite length_app. simpl. intros Hk.
  rewrite annotatedLines_snoc.
  destruct (decide (k = length lines)) as [-> | Hne].
  - pose proof (length_annotatedLines lines) as Hlen.
    unfold newIndex. rewrite picked_S.
    rewrite (lookup_app_r lines) by lia. rewrite Nat.sub_diag. simpl.
    destruct (unc (length lines)) eqn:E.
    + split.
      * rewrite lookup_app_r by lia.
        by replace (length lines + (picked unc (length lines) + 1)
                    - length (annotatedLines unc ann lines)) with 1 by lia.
      * intros _. rewrite lookup_app_r by lia.
        by replace (length lines + (picked unc (length lines) + 1) - 1
                    - length (annotatedLines unc ann lines)) with 0 by lia.
    + split; [| done].
      rewrite lookup_app_r by lia.
      by replace (length lines + (picked unc (length lines) + 0)
                  - length (annotatedLines unc ann lines)) with 0 by lia.
  - assert (k < length lines) as Hk' by lia.
    destruct (IH Hk') as [H1 H2].
    pose proof (newIndex_lt_length lines k Hk') as Hlt.
    rewrite (lookup_app_l lines) by done.
    rewrite !lookup_app_l by lia. done.
Qed.

(** Every line of the annotated list is a source line or an annotation. *)
Lemma annotatedLines_index lines j :
  j < length (annotatedLines unc ann lines) ->
  exists k, k < length lines /\
    (j = newIndex unc k \/ (unc k = true /\ S j = newIndex unc k)).
Proof.
  induction lines as [|l lines IH] using rev_ind; [simpl; lia |].
  rewrite annotatedLines_snoc, !length_app. intros Hj.
  pose proof (length_annotatedLines lines) as Hlen.
  destruct (decide (j < length (annotatedLines unc ann lines))) as [Hlt | Hge].
  - destruct (IH Hlt) as (k & Hk & Hcase). exists k. simpl. split; [lia | done].
  - exists (length lines). simpl. split; [lia |].
    unfold newIndex. rewrite picked_S.
    destruct (unc (length lines)) eqn:E; simpl in Hj.
    + destruct (decide (j = length (annotatedLines unc ann lines))).
      * right. split; [done | lia].
      * left. lia.
    + left. lia.
Qed.

Lemma newIndex_inj k k' : newIndex unc k = newIndex unc k' -> k = k'.
Proof.
  assert (forall a b, a < b -> newIndex unc a < newIndex unc b) as Hmono.
  { intros a b Hab. induction b as [|b IH]; [lia |].
    rewrite newIndex_S. destruct (decide (a = b)) as [-> | Hne]; [lia |].
    assert (a < b) as H by lia. specialize (IH H). lia. }
  intros H. destruct (Nat.lt_trichotomy k k') as [Hlt | [-> | Hgt]]; [| done |].
  - specialize (Hmono _ _ Hlt). lia.
  - specialize (Hmono _ _ Hgt). lia.
Qed.

(** The declarations of the annotated list are the declarations of the
    source that were not picked, at their new indices. *)
Lemma decl_annotatedLines lines j :
  decl (annotatedLines unc ann lines) j = true <->
  exists k, k < length lines /\ j = newIndex unc k /\
            unc k = false /\ decl lines k = true.
Proof.
  split.
  - intros Hd.
    assert (j < length (annotatedLines unc ann lines)) as Hj.
    { unfold decl in Hd.
      destruct (annotatedLines unc ann lines !! j) eqn:E; [| done].
      by eapply lookup_lt_Some. }
    destruct (annotatedLines_index lines j Hj) as (k & Hk & [-> | [Hu Hj']]).
    + exists k. split; [done |]. split; [done |].
      destruct (lookup_annotatedLines lines k Hk) as [Hline Hann].
      unfold decl in Hd. rewrite Hline in Hd.
      destruct (lines !! k) as [line|] eqn:El; [| done].
      destruct (unc k) eqn:Eu.
      * (* the annotation right above silences the line *)
        exfalso. specialize (Hann eq_refl).
        assert (exists m, newIndex unc k = S m) as [m Hm].
        { unfold newIndex. rewrite picked_S, Eu. exists (k + picked unc k). lia. }
        rewrite Hm in Hd, Hann. simpl in Hann. rewrite Nat.sub_0_r in Hann.
        rewrite Hann, ann_ignore in Hd. simpl in Hd.
        by rewrite andb_false_r in Hd.
      * split; [done |]. unfold decl. rewrite El.
        destruct k as [|k'].
        -- unfold newIndex in Hd. rewrite picked_S, Eu in Hd. simpl in Hd.
           by rewrite andb_true_r in *.
        -- rewrite newIndex_S, Eu in Hd.
           replace (newIndex unc k' + 1 + 0) with (S (newIndex unc k')) in Hd
             by lia.
           destruct (lookup_annotatedLines lines k') as [Hprev _]; [lia |].
           by rewrite Hprev in Hd.
    + exfalso.
      destruct (lookup_annotatedLines lines k Hk) as [_ Hann].
      specialize (Hann Hu). replace (newIndex unc k - 1) with j in Hann by lia.
      unfold decl in Hd. rewrite Hann, ann_ignore in Hd. simpl in Hd.
      by rewrite andb_false_r in Hd.
  - intros (k & Hk & -> & Hu & Hd).
    destruct (lookup_annotatedLines lines k Hk) as [Hline _].
    unfold decl in *. rewrite Hline.
    destruct (lines !! k) as [line|] eqn:El; [| done].
    destruct k as [|k'].
    + unfold newIndex. rewrite picked_S, Hu. simpl.
      by rewrite andb_true_r in *.
    + rewrite newIndex_S, Hu.
      replace (newIndex unc k' + 1 + 0) with (S (newIndex unc k')) by lia.
      destruct (lookup_annotatedLines lines k') as [Hprev _]; [lia |].
      by rewrite Hprev.
Qed.

End Annotated.

(** ** The exception writer *)

Section Exceptions.

Implicit Types (lines : list string) (defs : list conditionalDeclRef).

Lemma forEach_snoc {A St : Type} (body : A -> St -> option St) (l : list A)
    (x : A) (st : St) :
  forEach body (l ++ [x]) st = forEach body l st ≫= body x.
Proof.
  revert st. induction l as [|y l IH]; intros st; simpl.
  - by destruct (body x st).
  - destruct (body y st) as [st'|]; simpl; [apply IH | done].
Qed.

Lemma length_annotatedBy defs indent lines :
  length (annotatedBy defs indent lines) = length lines.
Proof. unfold annotatedBy. by rewrite length_imap. Qed.

Lemma lookup_annotatedBy defs indent lines k :
  annotatedBy defs indent lines !! k
  = (fun l => if bool_decide (k ∈ Line <$> defs)
              then ignoreLine (Repeat " " (indent k)) +:+ nl +:+ l
              else l) <$> lines !! k.
Proof. unfold annotatedBy. by rewrite list_lookup_imap. Qed.

Lemma annotatedBy_ext defs indent indent' lines :
  (forall k, k ∈ Line <$> defs -> indent k = indent' k) ->
  annotatedBy defs indent lines = annotatedBy defs indent' lines.
Proof.
  intros H. apply imap_ext_lookup. intros k l _.
  destruct (bool_decide_reflect (k ∈ Line <$> defs)); [| done].
  by rewrite H.
Qed.

Lemma annotatedBy_nil indent lines : annotatedBy [] indent lines = lines.
Proof.
  apply list_eq. intros k. rewrite lookup_annotatedBy.
  by destruct (lines !! k).
Qed.

(** One more annotation, on a line that has none yet. *)
Lemma annotate_annotatedBy defs indent lines d :
  Line d < length lines -> Line d ∉ Line <$> defs ->
  exists n,
    findIndentation (annotatedBy defs indent lines) (Line d) = Some n /\
    annotate d (annotatedBy defs indent lines)
    = Some (annotatedBy (defs ++ [d])
              (fun k => if decide (k = Line d) then n else indent k) lines).
Proof.
  intros Hlt Hnew.
  destruct (findIndentation_loop_total (annotatedBy defs indent lines)
              (Line d) (Line d)) as [n Hn];
    [by rewrite length_annotatedBy | by rewrite length_annotatedBy |].
  exists n. split; [exact Hn |].
  destruct (lookup_lt_is_Some_2 lines (Line d) Hlt) as [l Hl].
  unfold annotate. unfold findIndentation at 1. rewrite Hn.
  cbn [mbind option_bind]. rewrite lookup_annotatedBy, Hl.
  cbn [fmap option_fmap option_map mbind option_bind].
  rewrite bool_decide_eq_false_2 by done. f_equal.
  apply list_eq. intros k. destruct (decide (k = Line d)) as [-> | Hne].
  - rewrite list_lookup_insert_eq by (by rewrite length_annotatedBy).
    rewrite lookup_annotatedBy, Hl. simpl.
    rewrite bool_decide_eq_true_2.
    + by rewrite decide_True.
    + rewrite fmap_app. apply elem_of_app. right. simpl.
      by apply list_elem_of_singleton.
  - rewrite list_lookup_insert_ne by done.
    rewrite !lookup_annotatedBy. destruct (lines !! k) as [lk|]; [| done].
    simpl. rewrite decide_False by done.
    assert (k ∈ Line <$> (defs ++ [d])%list <-> k ∈ Line <$> defs) as Hiff.
    { rewrite fmap_app, elem_of_app. simpl. rewrite list_elem_of_singleton.
      tauto. }
    by rewrite (bool_decide_ext _ _ Hiff).
Qed.

(** The loop over the uncovered declarations of a file: every one of
    them gets its annotation, at the indentation resolved on the lines as
    annotated by the declarations handled before it. *)
Lemma forEach_annotate defs lines :
  (forall d, d ∈ defs -> Line d < length lines) ->
  NoDup (Line <$> defs) ->
  exists indent,
    forEach annotate defs lines = Some (annotatedBy defs indent lines) /\
    (forall pre d post, defs = (pre ++ d :: post)%list ->
       findIndentation (annotatedBy pre indent lines) (Line d)
       = Some (indent (Line d))).
Proof.
  induction defs as [|d defs IH] using rev_ind; intros Hval Hnd.
  - exists (fun _ => 0). split.
    + simpl. by rewrite annotatedBy_nil.
    + intros pre d post H. by destruct pre.
  - rewrite fmap_app in Hnd. apply NoDup_app in Hnd as (Hnd & Hdis & _).
    destruct IH as (indent & Hrun & Hind); [| done |].
    { intros d' Hd'. apply Hval, elem_of_app. by left. }
    assert (Line d ∉ Line <$> defs) as Hnew.
    { intros Hin. apply (Hdis _ Hin). simpl. by apply list_elem_of_singleton. }
    destruct (annotate_annotatedBy defs indent lines d) as (n & Hn & Hstep);
      [| done |].
    { apply Hval, elem_of_app. right. by apply list_elem_of_singleton. }
    set (indent' := fun k => if decide (k = Line d) then n else indent k).
    assert (forall pre, pre `prefix_of` defs ->
              annotatedBy pre indent' lines = annotatedBy pre indent lines)
      as Hsame.
    { intros pre [rest ->]. apply annotatedBy_ext. intros k Hk.
      unfold indent'. rewrite decide_False; [done |]. intros ->.
      apply Hnew. rewrite fmap_app. apply elem_of_app. by left. }
    exists indent'. split.
    + rewrite forEach_snoc, Hrun. cbn [mbind option_bind]. exact Hstep.
    + intros pre d0 post Heq.
      destruct post as [|p post _] using rev_ind.
      * apply app_inj_tail in Heq as [-> ->].
        rewrite Hsame by done. rewrite Hn. unfold indent'.
        by rewrite decide_True.
      * rewrite app_comm_cons, app_assoc in Heq.
        apply app_inj_tail in Heq as [-> ->].
        rewrite Hsame by (by exists (d0 :: post)).
        rewrite (Hind pre d0 post eq_refl). unfold indent'.
        rewrite decide_False; [done |]. intros Heq. apply Hnew.
        rewrite <- Heq, fmap_app. apply elem_of_app. right. simpl.
        by left.
Qed.

(** The loop reads no line outside the file as long as the declarations
    name lines of the file. *)
Lemma forEach_annotate_total defs lines :
  (forall d, d ∈ defs -> Line d < length lines) ->
  exists lines', forEach annotate defs lines = Some lines' /\
                 length lines' = length lines.
Proof.
  revert lines. induction defs as [|d defs IH]; intros lines Hval.
  - by exists lines.
  - assert (Line d < length lines) as Hd by (apply Hval; by left).
    destruct (findIndentation_loop_total lines (Line d) (Line d) Hd Hd)
      as [n Hn].
    destruct (lookup_lt_is_Some_2 lines (Line d) Hd) as [l Hl].
    destruct (IH (<[Line d := ignoreLine (Repeat " " n) +:+ nl +:+ l]> lines))
      as (lines' & Hrun & Hlen).
    { intros d' Hd'. rewrite length_insert. apply Hval. by right. }
    exists lines'. split.
    + assert (annotate d lines
              = Some (<[Line d := ignoreLine (Repeat " " n) +:+ nl +:+ l]>
                        lines)) as Hstep.
      { unfold annotate, findIndentation. rewrite Hn.
        cbn [mbind option_bind]. by rewrite Hl. }
      cbn [forEach]. rewrite Hstep. exact Hrun.
    + by rewrite Hlen, length_insert.
Qed.

Lemma defsOf_cons seenIDs (e : string * conditionalDeclRef) es file :
  defsOf seenIDs (e :: es) file
  = ((if slices_Contains seenIDs e.1 then []
      else if decide (File e.2 = file) then [e.2] else [])
     ++ defsOf seenIDs es file)%list.
Proof.
  unfold defsOf, uncoveredOf. rewrite filter_cons.
  destruct (slices_Contains seenIDs e.1) eqn:E.
  - by rewrite decide_False.
  - rewrite decide_True by done. rewrite fmap_cons, filter_cons.
    by destruct (decide (File e.2 = file)).
Qed.

(** The grouping loop: the uncovered declarations of a file are appended
    in the order of the visit. *)
Lemma groupBy_fold seenIDs (entries : list (string * conditionalDeclRef))
    (m : gmap string (list conditionalDeclRef)) file :
  foldl (fun byFile e =>
           if slices_Contains seenIDs e.1 then byFile
           else <[File e.2 := (default [] (byFile !! File e.2) ++ [e.2])%list]>
                  byFile)
        m entries !! file
  = match defsOf seenIDs entries file with
    | [] => m !! file
    | ds => Some (default [] (m !! file) ++ ds)%list
    end.
Proof.
  revert m. induction entries as [|e es IH]; intros m; [done |].
  cbn [foldl]. rewrite IH, defsOf_cons.
  destruct (slices_Contains seenIDs e.1); [done |].
  destruct (decide (File e.2 = file)) as [<- | Hne].
  - rewrite lookup_insert_eq. simpl.
    destruct (defsOf seenIDs es (File e.2)); [done |].
    by rewrite <- app_assoc.
  - by rewrite lookup_insert_ne.
Qed.

Lemma groupByFile_spec range ids seenIDs file defs :
  fairRange range ->
  (file, defs) ∈ range _ (groupByFile range ids seenIDs) <->
  defs = defsOf seenIDs (range _ ids) file /\ defs <> [].
Proof.
  intros Hfair. rewrite (Hfair _ (groupByFile range ids seenIDs)).
  rewrite elem_of_map_to_list. unfold groupByFile. rewrite groupBy_fold.
  rewrite lookup_empty. simpl.
  destruct (defsOf seenIDs (range _ ids) file) as [|d ds].
  - split; [done | by intros [-> ?]].
  - split; [by intros [= <-] | by intros [-> _]].
Qed.

Lemma defsOf_Permutation range ids seenIDs file :
  fairRange range ->
  defsOf seenIDs (range _ ids) file
  ≡ₚ filter (fun d => File d = file) (uncoveredOf seenIDs (map_to_list ids)).*2.
Proof.
  intros Hfair. unfold defsOf, uncoveredOf. by rewrite (Hfair _ ids).
Qed.

(** The files of the grouping in turn, each read, annotated and written
    back; the paths are all different. *)
Lemma exceptFiles_run chartDir
    (files : list (string * list conditionalDeclRef)) (fs : FS) (t : T) :
  NoDup ((fun e => Filepath.Join2 chartDir e.1) <$> files) ->
  (forall file defs, (file, defs) ∈ files ->
     exists content,
       ReadFile fs (Filepath.Join2 chartDir file) = Some content /\
       forall d, d ∈ defs -> Line d < length (Split content LF)) ->
  exists r,
    exceptFiles chartDir files fs t = Some r /\ ex_err r = None /\
    Errors (ex_t r) = Errors t /\
    (forall path,
       path ∉ (fun e => Filepath.Join2 chartDir e.1) <$> files ->
       ex_fs r !! path = fs !! path) /\
    (forall file defs content, (file, defs) ∈ files ->
       ReadFile fs (Filepath.Join2 chartDir file) = Some content ->
       exists lines',
         forEach annotate defs (Split content LF) = Some lines' /\
         ex_fs r !! Filepath.Join2 chartDir file
         = Some (Regular (Join lines' nl))).
Proof.
  revert fs t. induction files as [|[file defs] files IH]; intros fs t Hnd Hval.
  - exists {| ex_fs := fs; ex_t := t; ex_err := None |}. simpl.
    repeat split; auto. intros ? ? ? H. by apply elem_of_nil in H.
  - rewrite fmap_cons in Hnd. apply NoDup_cons in Hnd as [Hnew Hnd].
    cbn [fst] in Hnew.
    destruct (Hval file defs) as (content & Hread & Hlines); [by left |].
    destruct (forEach_annotate_total defs (Split content LF) Hlines)
      as (lines' & Hrun & _).
    set (path := Filepath.Join2 chartDir file) in *.
    set (fs1 := WriteFile fs path (Join lines' nl)).
    assert (forall p, p <> path -> fs1 !! p = fs !! p) as Hother.
    { intros p Hp. unfold fs1, WriteFile. by rewrite lookup_insert_ne. }
    assert (forall file' defs', (file', defs') ∈ files ->
              Filepath.Join2 chartDir file' <> path) as Hapart.
    { intros file' defs' Hin Heq. apply Hnew. apply list_elem_of_fmap.
      by exists (file', defs'). }
    destruct (IH fs1 (Logf t ("Injected exceptions into " +:+ file)) Hnd)
      as (r & Hr & Herr & HE & Hframe & Hfiles).
    { intros file' defs' Hin.
      destruct (Hval file' defs') as (c & Hc & Hl); [by right |].
      exists c. split; [| done]. unfold ReadFile.
      rewrite Hother; [done |]. by eapply Hapart. }
    exists r. split.
    { cbn [exceptFiles]. fold path. rewrite Hread, Hrun.
      cbn [mbind option_bind]. exact Hr. }
    split; [done |]. split; [by rewrite HE |]. split.
    + intros p Hp. rewrite Hframe.
      * apply Hother. intros ->. apply Hp. rewrite fmap_cons. by left.
      * intros Hin. apply Hp. rewrite fmap_cons. by right.
    + intros file' defs' content' Hin Hread'.
      apply elem_of_cons in Hin as [Heq | Hin].
      * injection Heq as -> ->. fold path in Hread'.
        rewrite Hread in Hread'. injection Hread' as <-.
        exists lines'. split; [done |]. fold path. rewrite Hframe by done.
        unfold fs1, WriteFile. by rewrite lookup_insert_eq.
      * apply Hfiles; [done |]. unfold ReadFile.
        rewrite Hother; [done |]. by eapply Hapart.
Qed.

(** Whatever the registry and the files, the exception writer reports
    through [Logf] only. *)
Lemma exceptFiles_Errors chartDir
    (files : list (string * list conditionalDeclRef)) (fs : FS) (t : T) r :
  exceptFiles chartDir files fs t = Some r -> Errors (ex_t r) = Errors t.
Proof.
  revert fs t. induction files as [|[file defs] files IH]; intros fs t.
  - simpl. by intros [= <-].
  - cbn [exceptFiles].
    destruct (ReadFile fs (Filepath.Join2 chartDir file)) as [c|];
      [| by intros [= <-]].
    destruct (forEach annotate defs (Split c LF)) as [lines'|]; [| done].
    cbn [mbind option_bind]. intros H. by rewrite (IH _ _ H).
Qed.

Lemma ignoreLine_one_line n : byteIn LF (ignoreLine (Repeat " " n)) = false.
Proof. unfold ignoreLine. by rewrite byteIn_app, byteIn_Repeat_space. Qed.

Lemma Contains_ignoreLine n :
  Contains (ignoreLine (Repeat " " n)) ignoreMarker = true.
Proof. unfold ignoreLine. by rewrite Contains_Repeat_space. Qed.

Lemma annotatedLines_ext unc unc' ann ann' lines :
  (forall k, k < length lines -> unc k = unc' k /\ ann k = ann' k) ->
  annotatedLines unc ann lines = annotatedLines unc' ann' lines.
Proof.
  intros H. unfold annotatedLines. f_equal. apply imap_ext_lookup.
  intros k l Hl. destruct (H k) as [-> ->]; [| done].
  by eapply lookup_lt_Some.
Qed.

(** The lines of the text written back: an annotated element is two
    lines, the annotation and the declaration. *)
Lemma Split_annotatedBy defs indent content :
  let lines := Split content LF in
  Split (Join (annotatedBy defs indent lines) nl) LF
  = annotatedLines (fun k => bool_decide (k ∈ Line <$> defs))
                   (fun k => ignoreLine (Repeat " " (indent k))) lines.
Proof.
  intros lines. unfold nl. rewrite Split_Join.
  - unfold annotatedBy, annotatedLines. rewrite flat_map_imap. f_equal.
    apply imap_ext_lookup. intros k l Hl.
    assert (byteIn LF l = false) as Hno.
    { apply (Split_elem_no_sep content). apply list_elem_of_In.
      by eapply list_elem_of_lookup_2. }
    destruct (bool_decide (k ∈ Line <$> defs)).
    + change (nl +:+ l) with (String LF l).
      rewrite Split_app_sep, !Split_no_sep; auto.
      apply ignoreLine_one_line.
    + by apply Split_no_sep.
  - pose proof (Split_nonempty content LF) as Hne. fold lines in Hne.
    unfold annotatedBy. by destruct lines.
Qed.

(** The exception writer on a registry whose uncovered entries name
    lines of files of the chart, no two the same line, and files that
    have different paths. *)
Lemma injectExceptions_run range t chartDir (ids : Registry) seenIDs
    (fs : FS) :
  fairRange range ->
  let uncovered := (uncoveredOf seenIDs (map_to_list ids)).*2 in
  (forall d, d ∈ uncovered ->
     exists content,
       ReadFile fs (Filepath.Join2 chartDir (File d)) = Some content /\
       Line d < length (Split content LF)) ->
  NoDup ((fun d => (File d, Line d)) <$> uncovered) ->
  (forall d d', d ∈ uncovered -> d' ∈ uncovered ->
     Filepath.Join2 chartDir (File d) = Filepath.Join2 chartDir (File d') ->
     File d = File d') ->
  exists r,
    injectExceptions range t chartDir ids seenIDs fs = Some r /\
    ex_err r = None /\
    Errors (ex_t r) = Errors t /\
    (forall path,
       (forall d, d ∈ uncovered -> Filepath.Join2 chartDir (File d) <> path) ->
       ex_fs r !! path = fs !! path) /\
    (forall file content,
       (exists d, d ∈ uncovered /\ File d = file) ->
       ReadFile fs (Filepath.Join2 chartDir file) = Some content ->
       exists defs indent,
         defs ≡ₚ filter (fun d => File d = file) uncovered /\
         ex_fs r !! Filepath.Join2 chartDir file
         = Some (Regular (Join (annotatedBy defs indent (Split content LF))
                               nl)) /\
         (forall pre d post, defs = (pre ++ d :: post)%list ->
            findIndentation (annotatedBy pre indent (Split content LF))
                            (Line d)
            = Some (indent (Line d)))).
Proof.
  intros Hfair uncovered Hval Hnd Hinj. unfold injectExceptions.
  set (files := range _ (groupByFile range ids seenIDs)).
  assert (forall file defs, (file, defs) ∈ files ->
            defs ≡ₚ filter (fun d => File d = file) uncovered /\ defs <> [])
    as Hfiles.
  { intros file defs Hin. apply groupByFile_spec in Hin as [-> Hne]; [| done].
    split; [by apply defsOf_Permutation | done]. }
  assert (forall file defs d, (file, defs) ∈ files -> d ∈ defs ->
            d ∈ uncovered /\ File d = file) as Hmem.
  { intros file defs d Hin Hd. destruct (Hfiles _ _ Hin) as [Hp _].
    rewrite Hp in Hd. by apply list_elem_of_filter in Hd as [? ?]. }
  assert (forall file defs, (file, defs) ∈ files ->
            exists d, d ∈ uncovered /\ File d = file) as Hhead.
  { intros file defs Hin. destruct (Hfiles _ _ Hin) as [_ Hne].
    destruct defs as [|d defs]; [done |]. exists d.
    apply (Hmem file (d :: defs)); [done | by left]. }
  destruct (exceptFiles_run chartDir files fs t)
    as (r & Hr & Herr & HE & Hframe & Hout).
  { apply NoDup_fmap_2_strong.
    - intros [f1 d1] [f2 d2] H1 H2 Heq. cbn [fst] in Heq.
      destruct (Hhead _ _ H1) as (x1 & Hx1 & <-).
      destruct (Hhead _ _ H2) as (x2 & Hx2 & <-).
      pose proof (Hinj x1 x2 Hx1 Hx2 Heq) as Hf.
      apply groupByFile_spec in H1 as [-> _]; [| done].
      apply groupByFile_spec in H2 as [-> _]; [| done].
      by rewrite Hf.
    - apply (NoDup_fmap_1 fst). unfold files.
      rewrite (Hfair _ (groupByFile range ids seenIDs)).
      apply NoDup_fst_map_to_list. }
  { intros file defs Hin. destruct (Hhead _ _ Hin) as (x & Hx & Hfx).
    destruct (Hval x Hx) as (content & Hread & _). rewrite Hfx in Hread.
    exists content. split; [done |]. intros d Hd.
    destruct (Hmem _ _ _ Hin Hd) as [Hdu Hdf].
    destruct (Hval d Hdu) as (c' & Hread' & Hlt).
    rewrite Hdf, Hread in Hread'. by injection Hread' as <-. }
  exists r. split; [exact Hr |]. split; [done |]. split; [done |]. split.
  - intros path Hp. apply Hframe. intros Hin.
    apply list_elem_of_fmap in Hin as ([file defs] & -> & Hin).
    destruct (Hhead _ _ Hin) as (x & Hx & Hfx). cbn [fst].
    apply (Hp x Hx). by rewrite Hfx.
  - intros file content (x & Hx & Hfx) Hread.
    set (defs := defsOf seenIDs (range _ ids) file).
    assert (defs ≡ₚ filter (fun d => File d = file) uncovered) as Hperm
      by (by apply defsOf_Permutation).
    assert ((file, defs) ∈ files) as Hin.
    { apply groupByFile_spec; [done |]. split; [done |].
      intros Hnil. rewrite Hnil in Hperm.
      apply Permutation_nil in Hperm.
      assert (x ∈ filter (fun d => File d = file) uncovered) as Hxin
        by (by apply list_elem_of_filter).
      rewrite Hperm in Hxin. by apply elem_of_nil in Hxin. }
    destruct (Hout file defs content Hin Hread) as (lines' & Hrun & Hfs).
    destruct (forEach_annotate defs (Split content LF))
      as (indent & Hrun' & Hind).
    { intros d Hd. destruct (Hmem _ _ _ Hin Hd) as [Hdu Hdf].
      destruct (Hval d Hdu) as (c' & Hread' & Hlt).
      rewrite Hdf, Hread in Hread'. by injection Hread' as <-. }
    { rewrite Hperm.
      assert (Line <$> filter (fun d => File d = file) uncovered
              = snd <$> ((fun d => (File d, Line d)) <$>
                         filter (fun d => File d = file) uncovered)) as ->.
      { rewrite <- list_fmap_compose. done. }
      apply NoDup_fmap_2_strong.
      - intros [f1 k1] [f2 k2] H1 H2 Heq. cbn [snd] in Heq. subst k2.
        apply list_elem_of_fmap in H1 as (d1 & [= -> ->] & H1).
        apply list_elem_of_fmap in H2 as (d2 & [= -> Hk] & H2).
        apply list_elem_of_filter in H1 as [H1 _].
        apply list_elem_of_filter in H2 as [H2 _]. by rewrite H1, H2.
      - apply (sublist_NoDup _ ((fun d => (File d, Line d)) <$> uncovered));
          [done |]. apply fmap_sublist, sublist_filter. }
    exists defs, indent. rewrite Hrun in Hrun'. injection Hrun' as ->.
    done.
Qed.

Lemma uncoveredLine_defs (uncovered defs : list conditionalDeclRef) file k :
  defs ≡ₚ filter (fun d => File d = file) uncovered ->
  bool_decide (k ∈ Line <$> defs) = uncoveredLine uncovered file k.
Proof.
  intros Hperm. unfold uncoveredLine. apply bool_decide_ext.
  rewrite !list_elem_of_fmap. split.
  - intros (d & -> & Hd). rewrite Hperm in Hd.
    apply list_elem_of_filter in Hd as [<- Hd]. by exists d.
  - intros (d & [= -> ->] & Hd). exists d. split; [done |].
    rewrite Hperm. by apply list_elem_of_filter.
Qed.

End Exceptions.

(** C6. The annotation of an uncovered declaration is not indented as
    its marker is. In this chart line 0 is a declaration that opens a
    block scalar and line 1 a declaration inside it; [findIndentation]
    resolves both lines of the file to 4. The marker of line 1 is written
    at column 0 (the opener above already carries its marker); with no
    token seen, its annotation is written at 4 when the declaration of
    line 1 is annotated first and at 6 when that of line 0 is (the opener
    is then scanned with the leading spaces of its annotation), and both
    orders are orders a [range] over the registry may take. *)
Lemma annotation_indentation_differs_from_marker :
  let file := "  {{- if a }}script: |" +:+ nl +:+ "{{- if b }}" +:+ nl +:+
              "    echo b" in
  let chart : FS := {[ "/c/a.yaml" := Regular file ]} in
  let reversed : RangeOrder := fun V m => rev (map_to_list m) in
  findIndentation (Split file LF) 0 = Some 4 /\
  findIndentation (Split file LF) 1 = Some 4 /\
  fairRange (fun V => map_to_list) /\ fairRange reversed /\
  exists r ex ex',
    injectComments sampleUUID "/c" chart 0 = Some r /\
    ReadFile (ic_fs r) "/c/a.yaml"
    = Some ("  {{- if a }}script: |" +:+ nl +:+
            "    # helmlint: 00000000-0000-4000-8000-000000000000" +:+ nl +:+
            "{{- if b }}" +:+ nl +:+
            "# helmlint: 11111111-1111-4111-8111-111111111111" +:+ nl +:+
            "    echo b") /\
    injectExceptions (fun V => map_to_list) (mkT [] []) "/c" (ic_comments r)
                     [] chart
    = Some ex /\
    ReadFile (ex_fs ex) "/c/a.yaml"
    = Some ("    {{/* helmlint:ignore */}}" +:+ nl +:+
            "  {{- if a }}script: |" +:+ nl +:+
            "    {{/* helmlint:ignore */}}" +:+ nl +:+
            "{{- if b }}" +:+ nl +:+
            "    echo b") /\
    injectExceptions reversed (mkT [] []) "/c" (ic_comments r) [] chart
    = Some ex' /\
    ReadFile (ex_fs ex') "/c/a.yaml"
    = Some ("    {{/* helmlint:ignore */}}" +:+ nl +:+
            "  {{- if a }}script: |" +:+ nl +:+
            "      {{/* helmlint:ignore */}}" +:+ nl +:+
            "{{- if b }}" +:+ nl +:+
            "    echo b").
Proof.
  intros file chart reversed.
  split; [vm_compute; reflexivity |].
  split; [vm_compute; reflexivity |].
  split; [intros V m; reflexivity |].
  split; [intros V m; symmetry; apply Permutation_rev |].
  eexists _, _, _.
  split; [vm_compute; reflexivity |].
  split; [vm_compute; reflexivity |].
  split; [vm_compute; reflexivity |].
  split; [vm_compute; reflexivity |].
  split; vm_compute; reflexivity.
Qed.

(** ** Instrumenting a chart that carries suppression annotations *)

Section RoundTrip.

Lemma annotatedLines_none unc ann (lines : list string) :
  (forall k, k < length lines -> unc k = false) ->
  annotatedLines unc ann lines = lines.
Proof.
  induction lines as [|l lines IH] using rev_ind; intros H; [done |].
  rewrite annotatedLines_snoc, IH.
  - rewrite H; [done |]. rewrite length_app. simpl. lia.
  - intros k Hk. apply H. rewrite length_app. lia.
Qed.

Lemma NoDup_treeDecls_tree (fs : FS) dir :
  NoDup (treeDecls dir (yamlFiles fs dir)).
Proof.
  apply NoDup_treeDecls.
  - apply (sublist_NoDup _ ((Walk fs dir).*1));
      [apply Walk_NoDup | apply yamlOf_paths_sublist].
  - intros [p c] Hf. apply elem_of_yamlOf in Hf as [Hf _].
    unfold Walk in Hf. by apply list_elem_of_filter in Hf as [Hb _].
Qed.

(** A declaration of a tree is determined by its file and its line. *)
Lemma treeDecls_determined (fs : FS) dir d d' :
  d ∈ treeDecls dir (yamlFiles fs dir) ->
  d' ∈ treeDecls dir (yamlFiles fs dir) ->
  File d = File d' -> Line d = Line d' -> d = d'.
Proof.
  intros (p & c & i & l & Hp & Hb & _ & Hl & _ & ->)%treeDecls_spec.
  intros (p' & c' & i' & l' & Hp' & Hb' & _ & Hl' & _ & ->)%treeDecls_spec.
  cbn [File Line]. intros Hf ->.
  apply (relPath_inj dir p p' Hb Hb') in Hf. subst p'.
  rewrite Hp in Hp'. injection Hp' as <-.
  rewrite Hl in Hl'. by injection Hl' as <-.
Qed.

(** The registry of a run whose tokens are all different. *)
Lemma injectComments_registry (uuid : nat -> string) dir (fs : FS) drawn :
  (forall k, isUUID (uuid k) = true) ->
  let decls := treeDecls dir (yamlFiles fs dir) in
  NoDup (uuid <$> seq drawn (length decls)) ->
  exists r,
    injectComments uuid dir fs drawn = Some r /\ ic_err r = None /\
    (forall id d, ic_comments r !! id = Some d -> d ∈ decls) /\
    (forall d, d ∈ decls -> exists id, ic_comments r !! id = Some d).
Proof.
  intros Huuid decls Hnd.
  assert (length (uuid <$> seq drawn (length decls)) = length decls) as Hlen
    by (by rewrite length_fmap, length_seq).
  destruct (forEach_injectTask uuid Huuid dir (Walk fs dir)
              {| ic_fs := fs; ic_comments := ∅; ic_drawn := drawn;
                 ic_err := None |})
    as (r & Hr & Herr & Hc & _).
  { apply Walk_NoDup. }
  { intros e He. by apply (Walk_lookup fs dir). }
  fold (yamlFiles fs dir) in Hc. fold decls in Hc.
  cbn [ic_err ic_comments ic_drawn] in Herr, Hc.
  assert (NoDup (zip (uuid <$> seq drawn (length decls)) decls).*1) as Hk
    by (rewrite fst_zip by lia; done).
  rewrite register_list_to_map in Hc by done.
  rewrite (right_id_L ∅ (∪)) in Hc.
  exists r. split; [exact Hr |]. split; [done |]. split.
  - intros id d H. rewrite Hc in H.
    apply elem_of_list_to_map in H; [| done]. by apply elem_of_zip_r in H.
  - intros d Hd. apply list_elem_of_lookup in Hd as [i Hi].
    destruct (lookup_lt_is_Some_2 (uuid <$> seq drawn (length decls)) i)
      as [id Hid].
    { rewrite Hlen. by eapply lookup_lt_Some. }
    exists id. rewrite Hc. apply elem_of_list_to_map; [done |].
    apply list_elem_of_lookup. exists i.
    rewrite lookup_zip_with, Hid. simpl. by rewrite Hi.
Qed.

(** The exception writer on a registry of the chart's own declarations:
    every file of the chart is rewritten to its lines with an annotation
    above each uncovered declaration, and no file appears or disappears. *)
Lemma injectExceptions_tree range t dir (ids : Registry) seenIDs (fs : FS) :
  fairRange range ->
  let decls := treeDecls dir (yamlFiles fs dir) in
  let uncovered := (uncoveredOf seenIDs (map_to_list ids)).*2 in
  (forall d, d ∈ uncovered -> d ∈ decls) ->
  NoDup uncovered ->
  (forall path n, fs !! path = Some n -> below dir path = true ->
                  Filepath.Join2 dir (relPath dir path) = path) ->
  exists ex,
    injectExceptions range t dir ids seenIDs fs = Some ex /\
    ex_err ex = None /\
    (forall path, below dir path = true ->
       (forall content, fs !! path = Some (Regular content) ->
          exists indent out,
            ex_fs ex !! path = Some (Regular out) /\
            Split out LF
            = annotatedLines (uncoveredLine uncovered (relPath dir path))
                (fun k => ignoreLine (Repeat " " (indent k)))
                (Split content LF)) /\
       (forall out, ex_fs ex !! path = Some (Regular out) ->
          exists content, fs !! path = Some (Regular content))).
Proof.
  intros Hfair decls uncovered Hids Hnd Hclean.
  assert (forall d, d ∈ uncovered ->
            exists path content,
              fs !! path = Some (Regular content) /\
              below dir path = true /\ File d = relPath dir path /\
              Filepath.Join2 dir (File d) = path /\
              Line d < length (Split content LF)) as Hpath.
  { intros d Hd.
    destruct (proj1 (treeDecls_spec fs dir d) (Hids d Hd))
      as (p & c & i & l & Hp & Hb & _ & Hl & _ & ->).
    exists p, c. cbn [File Line]. split; [done |]. split; [done |].
    split; [done |]. split; [by eapply Hclean |]. by eapply lookup_lt_Some. }
  destruct (injectExceptions_run range t dir ids seenIDs fs Hfair)
    as (ex & Hex & Herr & _ & Hframe & Hfiles).
  { intros d Hd. destruct (Hpath d Hd) as (p & c & Hp & _ & _ & Hj & Hlt).
    exists c. split; [| done]. unfold ReadFile. by rewrite Hj, Hp. }
  { apply NoDup_fmap_2_strong; [| done].
    intros d d' Hd Hd' [= Hf Hl].
    apply (treeDecls_determined fs dir); auto. }
  { intros d d' Hd Hd' Heq.
    destruct (Hpath d Hd) as (p & c & _ & _ & Hf & Hj & _).
    destruct (Hpath d' Hd') as (p' & c' & _ & _ & Hf' & Hj' & _).
    rewrite Hj, Hj' in Heq. by rewrite Hf, Hf', Heq. }
  exists ex. split; [exact Hex |]. split; [done |].
  intros path Hb. split.
  - intros content Hfs.
    pose proof (Hclean path _ Hfs Hb) as Hj.
    destruct (decide (relPath dir path ∈ File <$> uncovered)) as [Hin | Hout].
    + apply list_elem_of_fmap in Hin as (d & Hf & Hd).
      destruct (Hfiles (relPath dir path) content)
        as (defs & indent & Hperm & Hout & _).
      { by exists d. }
      { unfold ReadFile. by rewrite Hj, Hfs. }
      rewrite Hj in Hout.
      exists indent, (Join (annotatedBy defs indent (Split content LF)) nl).
      split; [done |]. rewrite Split_annotatedBy.
      apply annotatedLines_ext. intros k _. split; [| done].
      by apply uncoveredLine_defs.
    + exists (fun _ => 0), content. split.
      * rewrite Hframe; [done |]. intros d Hd Heq.
        destruct (Hpath d Hd) as (p & c & _ & _ & Hf & Hj' & _).
        apply Hout. apply list_elem_of_fmap. exists d. split; [| done].
        rewrite Hf. congruence.
      * rewrite annotatedLines_none; [done |]. intros k _.
        unfold uncoveredLine. apply bool_decide_eq_false_2.
        intros (d & [= Hf Hl] & Hd)%list_elem_of_fmap.
        apply Hout. apply list_elem_of_fmap. by exists d.
  - intros out Hfs2.
    destruct (decide (path ∈ (fun d => Filepath.Join2 dir (File d))
                              <$> uncovered)) as [Hin | Hout].
    + apply list_elem_of_fmap in Hin as (d & -> & Hd).
      destruct (Hpath d Hd) as (p & c & Hp & _ & _ & Hj & _).
      exists c. by rewrite Hj.
    + exists out. rewrite <- Hframe; [done |]. intros d Hd Heq.
      apply Hout. apply list_elem_of_fmap. by exists d.
Qed.

(** The declarations of the annotated tree are the declarations of the
    chart that were not annotated, each at its new line. *)
Lemma treeDecls_annotated dir (fs fs2 : FS)
    (uncovered : list conditionalDeclRef) :
  (forall path, below dir path = true ->
     (forall content, fs !! path = Some (Regular content) ->
        exists indent out,
          fs2 !! path = Some (Regular out) /\
          Split out LF
          = annotatedLines (uncoveredLine uncovered (relPath dir path))
              (fun k => ignoreLine (Repeat " " (indent k)))
              (Split content LF)) /\
     (forall out, fs2 !! path = Some (Regular out) ->
        exists content, fs !! path = Some (Regular content))) ->
  forall d2,
    d2 ∈ treeDecls dir (yamlFiles fs2 dir) <->
    exists d, d ∈ treeDecls dir (yamlFiles fs dir) /\
              uncoveredLine uncovered (File d) (Line d) = false /\
              d2 = moved uncovered d.
Proof.
  intros Hrel d2. rewrite treeDecls_spec. split.
  - intros (p & out & j & line2 & Hp2 & Hb & Hy & Hl2 & Hd2 & ->).
    destruct (Hrel p Hb) as [Hfwd Hback].
    destruct (Hback out Hp2) as [content Hp].
    destruct (Hfwd content Hp) as (indent & out' & Hp2' & Hsplit).
    rewrite Hp2 in Hp2'. injection Hp2' as <-.
    apply decl_spec in Hd2. rewrite Hsplit in Hd2, Hl2.
    apply decl_annotatedLines in Hd2 as (k & Hk & -> & Hu & Hd);
      [| intros; apply Contains_ignoreLine].
    destruct (lookup_annotatedLines
                (uncoveredLine uncovered (relPath dir p))
                (fun k => ignoreLine (Repeat " " (indent k)))
                (Split content LF) k Hk) as [Hline _].
    rewrite Hline in Hl2.
    exists {| File := relPath dir p; Line := k; Expr := TrimSpace line2 |}.
    split; [| by split].
    apply treeDecls_spec. exists p, content, k, line2.
    repeat split; auto; by apply decl_spec.
  - intros (d & Hd & Hu & ->).
    apply treeDecls_spec in Hd
      as (p & content & i & line & Hp & Hb & Hy & Hl & Hdecl & ->).
    cbn [File Line] in Hu. destruct (Hrel p Hb) as [Hfwd _].
    destruct (Hfwd content Hp) as (indent & out & Hp2 & Hsplit).
    pose proof (lookup_lt_Some _ _ _ Hl) as Hk.
    destruct (lookup_annotatedLines
                (uncoveredLine uncovered (relPath dir p))
                (fun k => ignoreLine (Repeat " " (indent k)))
                (Split content LF) i Hk) as [Hline _].
    exists p, out, (newIndex (uncoveredLine uncovered (relPath dir p)) i),
           line.
    split; [done |]. split; [done |]. split; [done |].
    rewrite Hsplit. split; [by rewrite Hline |]. split; [| done].
    apply decl_spec. apply decl_annotatedLines;
      [intros; apply Contains_ignoreLine |].
    exists i. repeat split; auto. by apply decl_spec.
Qed.

End RoundTrip.

(** C7. Suppression round trip. Take a chart tree whose paths are clean
    and a registry whose uncovered entries (token not in the surviving
    set) are declarations of the chart, none registered twice.
    [injectExceptions] rewrites the tree without panic or error, and
    [injectComments] run again on the rewritten tree, with tokens that are
    pairwise different, ends without panic or error. Every suppressed
    declaration now sits one line below an annotation that contains
    [helmlint:ignore], so the line classifier rejects it and the new
    registry has no entry for its file and line. Every declaration that
    was not rewritten is still registered, with the same file and text, at
    its line moved down by the number of annotations written above it; and
    the new registry has no other entry. *)
Theorem suppression_round_trip (range : RangeOrder) (t : T)
    (uuid : nat -> string) (dir : string) (ids : Registry)
    (seenIDs : list string) (fs : FS) (drawn : nat) :
  fairRange range ->
  (forall k, isUUID (uuid k) = true) ->
  let decls := treeDecls dir (yamlFiles fs dir) in
  let uncovered := (uncoveredOf seenIDs (map_to_list ids)).*2 in
  NoDup (uuid <$> seq drawn (length decls)) ->
  (forall d, d ∈ uncovered -> d ∈ decls) ->
  NoDup uncovered ->
  (forall path n, fs !! path = Some n -> below dir path = true ->
                  Filepath.Join2 dir (relPath dir path) = path) ->
  exists ex r,
    injectExceptions range t dir ids seenIDs fs = Some ex /\
    ex_err ex = None /\
    injectComments uuid dir (ex_fs ex) drawn = Some r /\
    ic_err r = None /\
    (forall d, d ∈ uncovered ->
       (exists out j ann line,
          ReadFile (ex_fs ex) (Filepath.Join2 dir (File d)) = Some out /\
          Line (moved uncovered d) = S j /\
          Split out LF !! j = Some ann /\
          Contains ann ignoreMarker = true /\
          Split out LF !! S j = Some line /\
          TrimSpace line = Expr d /\
          ~ isDeclaration (Split out LF) (S j)) /\
       (forall id d2, ic_comments r !! id = Some d2 ->
          File d2 = File d -> Line d2 <> Line (moved uncovered d))) /\
    (forall d, d ∈ decls -> d ∉ uncovered ->
       exists id, ic_comments r !! id = Some (moved uncovered d)) /\
    (forall id d2, ic_comments r !! id = Some d2 ->
       exists d, d ∈ decls /\ (d ∉ uncovered) /\ d2 = moved uncovered d).
Proof.
  intros Hfair Huuid decls uncovered Htok Hids Hnd Hclean.
  destruct (injectExceptions_tree range t dir ids seenIDs fs
              Hfair Hids Hnd Hclean) as (ex & Hex & Herr & Hrel).
  fold uncovered in Hrel.
  pose proof (treeDecls_annotated dir fs (ex_fs ex) uncovered Hrel) as Hd2.
  set (decls2 := treeDecls dir (yamlFiles (ex_fs ex) dir)) in *.
  assert (length decls2 <= length decls) as Hle.
  { rewrite <- (length_fmap (moved uncovered) decls).
    apply submseteq_length, NoDup_submseteq; [apply NoDup_treeDecls_tree |].
    intros x Hx. apply Hd2 in Hx as (d & Hd & _ & ->).
    apply list_elem_of_fmap. by exists d. }
  assert (NoDup (uuid <$> seq drawn (length decls2))) as Htok2.
  { replace (length decls)
      with (length decls2 + (length decls - length decls2)) in Htok by lia.
    rewrite seq_app, fmap_app in Htok.
    by apply NoDup_app in Htok as [? _]. }
  destruct (injectComments_registry uuid dir (ex_fs ex) drawn Huuid Htok2)
    as (r & Hr & Hrerr & Hin & Hall).
  fold decls2 in Hin, Hall.
  assert (forall d, d ∈ uncovered ->
            uncoveredLine uncovered (File d) (Line d) = true) as Hyes.
  { intros d Hd. unfold uncoveredLine. apply bool_decide_eq_true_2.
    apply list_elem_of_fmap. by exists d. }
  assert (forall d, d ∈ decls -> d ∉ uncovered ->
            uncoveredLine uncovered (File d) (Line d) = false) as Hno.
  { intros d Hd Hout. unfold uncoveredLine. apply bool_decide_eq_false_2.
    intros (d' & [= Hf Hl] & Hd')%list_elem_of_fmap. apply Hout.
    by rewrite (treeDecls_determined fs dir d d' Hd (Hids d' Hd') Hf Hl). }
  exists ex, r. split; [exact Hex |]. split; [done |].
  split; [exact Hr |]. split; [done |]. split; [| split].
  - intros d Hd. pose proof (Hyes d Hd) as Hu. split.
    + destruct (proj1 (treeDecls_spec fs dir d) (Hids d Hd))
        as (p & content & i & line & Hp & Hb & _ & Hl & _ & Heq).
      subst d. cbn [File Line Expr moved] in *.
      pose proof (Hclean p _ Hp Hb) as Hj.
      destruct (Hrel p Hb) as [Hfwd _].
      destruct (Hfwd content Hp) as (indent & out & Hp2 & Hsplit).
      pose proof (lookup_lt_Some _ _ _ Hl) as Hk.
      set (unc := uncoveredLine uncovered (relPath dir p)) in *.
      destruct (lookup_annotatedLines unc
                  (fun k => ignoreLine (Repeat " " (indent k)))
                  (Split content LF) i Hk) as [Hline Hann].
      specialize (Hann Hu).
      assert (newIndex unc i = S (i + picked unc i)) as Hidx.
      { unfold newIndex. rewrite picked_S, Hu. lia. }
      rewrite Hidx in Hline, Hann. simpl in Hann.
      rewrite Nat.sub_0_r in Hann.
      exists out, (i + picked unc i),
             (ignoreLine (Repeat " " (indent i))), line.
      split; [unfold ReadFile; by rewrite Hj, Hp2 |].
      split; [done |]. rewrite Hsplit.
      split; [done |]. split; [apply Contains_ignoreLine |].
      split; [by rewrite Hline |]. split; [done |].
      intros H%decl_spec.
      apply decl_annotatedLines in H as (k & _ & Hk' & Hu' & _);
        [| intros; apply Contains_ignoreLine].
      rewrite <- Hidx in Hk'. apply newIndex_inj in Hk'. subst k.
      by rewrite Hu in Hu'.
    + intros id d2 Hlook Hf Hl. apply Hin, Hd2 in Hlook
        as (d' & _ & Hu' & ->).
      cbn [moved File Line] in Hf, Hl. rewrite Hf in Hl, Hu'.
      apply newIndex_inj in Hl. rewrite Hl in Hu'. by rewrite Hu in Hu'.
  - intros d Hd Hout. apply Hall, Hd2. exists d. by auto.
  - intros id d2 Hlook. apply Hin, Hd2 in Hlook as (d & Hd & Hu & ->).
    exists d. split; [done |]. split; [| done].
    intros Hd'. by rewrite (Hyes d Hd') in Hu.
Qed.


Lemma sampleRegistry_uncovered :
  (uncoveredOf ["00000000-0000-4000-8000-000000000000"]
     (map_to_list sampleRegistry)).*2
  = [{| File := "templates/a.yaml"; Line := 4; Expr := "{{- if c }}" |}].
Proof. vm_compute. reflexivity. Qed.

Lemma sampleChart_decls :
  treeDecls "/c" (yamlFiles sampleChart "/c")
  = [{| File := "templates/a.yaml"; Line := 1; Expr := "{{ if a }}" |};
     {| File := "templates/a.yaml"; Line := 4; Expr := "{{- if c }}" |}].
Proof. vm_compute. reflexivity. Qed.

Lemma sampleChart_clean path n :
  sampleChart !! path = Some n -> below "/c" path = true ->
  Filepath.Join2 "/c" (relPath "/c" path) = path.
Proof.
  intros Hn Hb. apply elem_of_map_to_list in Hn.
  remember (map_to_list sampleChart) as l eqn:Hl.
  vm_compute in Hl. subst l.
  repeat (apply elem_of_cons in Hn as [[= -> ->] | Hn];
          [first [by vm_compute | by vm_compute in Hb] |]).
  by apply elem_of_nil in Hn.
Qed.

Lemma suppression_round_trip_witness :
  exists ex r,
    injectExceptions (fun V => map_to_list) (mkT [] []) "/c" sampleRegistry
                     ["00000000-0000-4000-8000-000000000000"] sampleChart
    = Some ex /\
    injectComments sampleUUID "/c" (ex_fs ex) 0 = Some r /\
    (exists id, ic_comments r !! id
                = Some {| File := "templates/a.yaml"; Line := 1;
                          Expr := "{{ if a }}" |}) /\
    (forall id d2, ic_comments r !! id = Some d2 ->
                   File d2 = "templates/a.yaml" -> Line d2 <> 5).
Proof.
  pose (d1 := {| File := "templates/a.yaml"; Line := 1;
                 Expr := "{{ if a }}" |}).
  pose (d4 := {| File := "templates/a.yaml"; Line := 4;
                 Expr := "{{- if c }}" |}).
  destruct (suppression_round_trip (fun V => map_to_list) (mkT [] [])
              sampleUUID "/c" sampleRegistry
              ["00000000-0000-4000-8000-000000000000"] sampleChart 0
              (fun V m => reflexivity _) sampleUUID_text)
    as (ex & r & Hex & _ & Hr & _ & Hsup & Hkept & _).
  - rewrite sampleChart_decls. apply (bool_decide_unpack _).
    vm_compute. exact I.
  - rewrite sampleRegistry_uncovered, sampleChart_decls. intros d Hd.
    apply list_elem_of_singleton in Hd. subst d.
    apply elem_of_cons. right. apply elem_of_cons. left. reflexivity.
  - rewrite sampleRegistry_uncovered. apply NoDup_singleton.
  - exact sampleChart_clean.
  - exists ex, r. split; [exact Hex |]. split; [exact Hr |]. split.
    + destruct (Hkept d1) as [id Hid].
      * rewrite sampleChart_decls. apply elem_of_cons. left. reflexivity.
      * rewrite sampleRegistry_uncovered. intros H.
        apply list_elem_of_singleton in H. discriminate H.
      * exists id. rewrite Hid. vm_compute. reflexivity.
    + intros id d2 Hlook Hf.
      destruct (Hsup d4) as [_ Hnone].
      * rewrite sampleRegistry_uncovered. apply elem_of_cons. left.
        reflexivity.
      * specialize (Hnone id d2 Hlook Hf). intros Heq. apply Hnone.
        rewrite Heq. vm_compute. reflexivity.
Defined.

(** ** Markers written, markers read *)

Section MarkerRoundTrip.

Variable uuid : nat -> string.
Hypothesis uuid_text : forall k, isUUID (uuid k) = true.

Lemma register_is_Some (m : Registry) entries id :
  is_Some (register m entries !! id) <-> id ∈ entries.*1 \/ is_Some (m !! id).
Proof.
  revert m. induction entries as [|[k v] es IH]; intros m.
  - simpl. split; [by right |]. intros [H | H]; [| done].
    by apply elem_of_nil in H.
  - change (register m ((k, v) :: es)) with (register (<[k := v]> m) es).
    rewrite IH, fmap_cons, elem_of_cons, lookup_insert_is_Some. simpl.
    clear IH. split.
    + intros [H | [H | [_ H]]]; auto.
    + intros [[H | H] | H]; auto.
      destruct (decide (k = id)); auto.
Qed.

Lemma elem_of_fileEntries_keys drawn file (lines : list string) n id :
  id ∈ (fileEntries uuid drawn file lines n).*1 <->
  exists k, k < n /\ decl lines k = true /\ id = uuid (drawn + rank lines k).
Proof.
  induction n as [|n IH].
  - split; [intros H; by apply elem_of_nil in H | intros (k & Hk & _); lia].
  - rewrite fileEntries_S, fmap_app, elem_of_app, IH. split.
    + intros [(k & Hk & Hd & ->) | H].
      * exists k. split; [lia | done].
      * destruct (decl lines n) eqn:E; [| by apply elem_of_nil in H].
        apply list_elem_of_singleton in H. exists n. split; [lia | done].
    + intros (k & Hk & Hd & ->).
      destruct (decide (k = n)) as [-> | Hne].
      * right. rewrite Hd. simpl. by apply list_elem_of_singleton.
      * left. exists k. split; [lia | done].
Qed.


Lemma decl_lt (lines : list string) k :
  decl lines k = true -> k < length lines.
Proof.
  unfold decl. destruct (lines !! k) eqn:E; [| done]. intros _.
  by eapply lookup_lt_Some.
Qed.

(** The tasks of a walk: what every file holds at the end and where the
    keys of the registry come from. *)
Lemma forEach_injectTask_files dir (es : list (string * node))
    (st : injected) :
  NoDup es.*1 ->
  (forall e, e ∈ es -> ic_fs st !! e.1 = Some e.2) ->
  exists r,
    forEach (fun e st => if notYaml e then Some st
                         else injectTask uuid dir e.1 st) es st = Some r /\
    (forall p, (forall c, (p, c) ∉ yamlOf es) ->
               ic_fs r !! p = ic_fs st !! p) /\
    (forall path content, (path, content) ∈ yamlOf es ->
       exists d,
         ic_fs r !! path
         = Some (Regular (Join (instrumented uuid d (Split content LF)
                                  (length (Split content LF))) nl)) /\
         forall k, decl (Split content LF) k = true ->
           is_Some (ic_comments r !! uuid (d + rank (Split content LF) k))) /\
    (forall id, is_Some (ic_comments r !! id) ->
       is_Some (ic_comments st !! id) \/
       exists path content d k,
         (path, content) ∈ yamlOf es /\
         ic_fs r !! path
         = Some (Regular (Join (instrumented uuid d (Split content LF)
                                  (length (Split content LF))) nl)) /\
         decl (Split content LF) k = true /\
         id = uuid (d + rank (Split content LF) k)) /\
    (forall id, is_Some (ic_comments st !! id) ->
                is_Some (ic_comments r !! id)).
Proof.
  revert st. induction es as [|e es IH]; intros st Hnd Hfs.
  - exists st. simpl. split; [done |]. split; [done |].
    split; [intros ? ? H; by apply elem_of_nil in H |]. split; auto.
  - apply NoDup_cons in Hnd as [Hne Hnd]. cbn [forEach].
    destruct (notYaml e) eqn:Hy.
    + cbn [mbind option_bind].
      assert (yamlOf (e :: es) = yamlOf es) as Hyaml.
      { unfold yamlOf. cbn [omap list_omap]. by rewrite Hy. }
      rewrite Hyaml. apply IH; [done |].
      intros e' He'. apply Hfs. by right.
    + destruct e as [path n]. pose proof Hy as Hy'.
      unfold notYaml in Hy'. cbn [fst snd] in Hy', Hne |- *.
      apply orb_false_iff in Hy' as [Hdir _].
      destruct n as [|content]; [done |].
      assert (yamlOf ((path, Regular content) :: es)
              = (path, content) :: yamlOf es) as Hyaml.
      { unfold yamlOf. cbn [omap list_omap]. by rewrite Hy. }
      assert (ReadFile (ic_fs st) path = Some content) as Hread.
      { unfold ReadFile.
        pose proof (Hfs (path, Regular content) ltac:(by left)) as H.
        cbn [fst snd] in H. by rewrite H. }
      pose proof (injectTask_run uuid uuid_text dir path st content Hread)
        as Hrun. cbv zeta in Hrun. rewrite Hrun. cbn [mbind option_bind].
      set (lines := Split content LF) in *.
      match goal with |- context [forEach _ es ?s] => set (st1 := s) end.
      assert (forall p, p <> path -> ic_fs st1 !! p = ic_fs st !! p)
        as Hother.
      { intros p Hp. unfold st1. cbn [ic_fs]. unfold WriteFile.
        by rewrite lookup_insert_ne. }
      assert (forall c, (path, c) ∉ yamlOf es) as Hfresh.
      { intros c Hin. apply elem_of_yamlOf in Hin as [Hin _].
        apply Hne. apply list_elem_of_fmap. by exists (path, Regular c). }
      destruct (IH st1 Hnd) as (r & Hr & Hframe & Hfiles & Horigin & Hmono).
      { intros e' He'. rewrite Hother.
        - apply Hfs. by right.
        - intros Heq. apply Hne. apply list_elem_of_fmap. by exists e'. }
      assert (ic_fs r !! path
              = Some (Regular (Join (instrumented uuid (ic_drawn st) lines
                                       (length lines)) nl))) as Hhead.
      { rewrite Hframe by done. unfold st1. cbn [ic_fs]. unfold WriteFile.
        by rewrite lookup_insert_eq. }
      assert (forall id, is_Some (ic_comments st1 !! id) <->
                (exists k, k < length lines /\ decl lines k = true /\
                           id = uuid (ic_drawn st + rank lines k)) \/
                is_Some (ic_comments st !! id)) as Hkeys.
      { intros id. unfold st1. cbn [ic_comments].
        by rewrite register_is_Some, elem_of_fileEntries_keys. }
      exists r. split; [exact Hr |]. rewrite Hyaml. split; [| split; [| split]].
      * intros p Hp. rewrite Hframe.
        -- apply Hother. intros ->. apply (Hp content). by left.
        -- intros c Hc. apply (Hp c). by right.
      * intros path' content' Hin. apply elem_of_cons in Hin as [Heq | Hin].
        -- injection Heq as -> ->. exists (ic_drawn st). split; [done |].
           intros k Hd. apply Hmono, Hkeys. left. exists k.
           split; [| done]. by apply decl_lt.
        -- by apply Hfiles.
      * intros id Hid. destruct (Horigin id Hid) as [H1 | H1].
        -- apply Hkeys in H1 as [(k & _ & Hd & ->) | H1]; [| by left].
           right. exists path, content, (ic_drawn st), k.
           split; [by left |]. split; [exact Hhead |]. by split.
        -- right. destruct H1 as (p & c & d & k & Hin & H1).
           exists p, c, d, k. split; [by right | done].
      * intros id Hid. apply Hmono, Hkeys. by right.
Qed.


Lemma tokens_sub (segments : list string) t :
  t ∈ Bufio.tokens segments ->
  exists seg, seg ∈ segments /\ t = Bufio.dropCR seg.
Proof.
  induction segments as [|seg rest IH]; [intros H; by apply elem_of_nil in H |].
  destruct rest as [|s2 rest].
  - simpl. destruct (String.eqb seg "" || Bufio.tooLong seg);
      [intros H; by apply elem_of_nil in H |].
    intros ->%list_elem_of_singleton. exists seg. split; [by left | done].
  - change (Bufio.tokens (seg :: s2 :: rest))
      with (if Bufio.tooLong seg then []
            else Bufio.dropCR seg :: Bufio.tokens (s2 :: rest)).
    destruct (Bufio.tooLong seg); [intros H; by apply elem_of_nil in H |].
    intros [-> | H]%elem_of_cons.
    + exists seg. split; [by left | done].
    + destruct (IH H) as (s & Hs & ->). exists s. split; [by right | done].
Qed.

Lemma tokens_all (segments : list string) seg :
  (forall l, l ∈ segments -> Bufio.tooLong l = false) ->
  seg ∈ segments -> seg <> "" -> Bufio.dropCR seg ∈ Bufio.tokens segments.
Proof.
  intros Hshort Hin Hne. apply list_elem_of_lookup in Hin as [i Hi].
  apply (tokens_reach segments i seg Hi); [| by left].
  intros j l _ Hl. apply Hshort. by eapply list_elem_of_lookup_2.
Qed.

Lemma dropCR_split (line : string) :
  exists tail, line = Bufio.dropCR line +:+ tail.
Proof.
  induction line as [|c line IH]; [by exists "" |].
  destruct line as [|d line].
  - simpl. destruct (Ascii.eqb c CR); [by exists (String c "") | by exists ""].
  - destruct IH as [tail IH]. exists tail.
    change (Bufio.dropCR (String c (String d line)))
      with (String c (Bufio.dropCR (String d line))).
    cbn [String.append]. by rewrite <- IH.
Qed.

Lemma dropCR_keep (x : string) c :
  c <> CR -> Bufio.dropCR (x +:+ String c "") = x +:+ String c "".
Proof.
  intros Hc. induction x as [|d x IH].
  - simpl. by rewrite (proj2 (Ascii.eqb_neq c CR) Hc).
  - destruct x as [|e x].
    + cbn [String.append] in *. 
      change (Bufio.dropCR (String d (String c "")))
        with (String d (Bufio.dropCR (String c ""))).
      by rewrite IH.
    + cbn [String.append] in *.
      change (Bufio.dropCR (String d (String e (x +:+ String c ""))))
        with (String d (Bufio.dropCR (String e (x +:+ String c "")))).
      by rewrite IH.
Qed.

Lemma string_last (P : ascii -> bool) (s : string) :
  s <> "" -> allChars P s = true ->
  exists x c, s = x +:+ String c "" /\ P c = true.
Proof.
  induction s as [|c s IH]; [done |]. intros _. simpl.
  rewrite andb_true_iff. intros [Hc Hs].
  destruct s as [|d s].
  - by exists "", c.
  - destruct IH as (x & e & Heq & He); [done | done |].
    exists (String c x), e. cbn [String.append]. by rewrite <- Heq.
Qed.


(** What the scanner makes of a marker line: the token. *)
Lemma TrimSpace_marker n id :
  isUUID id = true ->
  TrimSpace (Repeat " " n +:+ markerPrefix +:+ id) = markerPrefix +:+ id.
Proof.
  intros Hid. unfold TrimSpace.
  assert (trimLeftSpace (Repeat " " n +:+ markerPrefix +:+ id)
          = markerPrefix +:+ id) as ->.
  { unfold trimLeftSpace. induction n as [|n IH]; [| exact IH].
    by apply dropSpaces_plain. }
  destruct (isUUID_chars id Hid) as [Hchars Hne].
  destruct (string_last uuidChar id Hne Hchars) as (x & c & -> & Hc).
  apply uuidChar_cases in Hc as (Hplain & _).
  unfold trimRightSpace. rewrite <- append_assoc, rev_append.
  change (String.rev (String c "")) with (String c "").
  cbn [String.append]. rewrite dropSpaces_plain.
  - by rewrite rev_cons, rev_involutive.
  - unfold plain in Hplain. apply andb_true_iff in Hplain as [_ H].
    by apply negb_true_iff in H.
  - intros d. by destruct (plain_not_token c d d Hplain) as (_ & H & _).
  - intros d e. by destruct (plain_not_token c e d Hplain) as (_ & _ & _ & _ & H).
Qed.

Lemma hexRun_length n s r :
  hexRun n s = Some r -> String.length s = n + String.length r.
Proof.
  intros H. destruct (hexRun_inv n s r H) as (p & -> & _ & <-).
  apply length_append.
Qed.

Lemma dashThen_length n s r :
  dashThen n s = Some r -> String.length s = S n + String.length r.
Proof.
  unfold dashThen. destruct s as [|c s]; [done |].
  destruct (Ascii.eqb c "-"); [| done]. intros H%hexRun_length.
  simpl. lia.
Qed.

Lemma isUUID_length id : isUUID id = true -> String.length id = 36.
Proof.
  unfold isUUID, uuidRest.
  destruct (hexRun 8 id) as [s1|] eqn:E1; [| done]. cbn [mbind option_bind].
  destruct (dashThen 4 s1) as [s2|] eqn:E2; [| done]. cbn [mbind option_bind].
  destruct (dashThen 4 s2) as [s3|] eqn:E3; [| done]. cbn [mbind option_bind].
  destruct (dashThen 4 s3) as [s4|] eqn:E4; [| done]. cbn [mbind option_bind].
  destruct (dashThen 12 s4) as [s5|] eqn:E5; [| done].
  destruct s5; [| done]. intros _.
  apply hexRun_length in E1. apply dashThen_length in E2, E3, E4, E5.
  simpl in E5. lia.
Qed.

Lemma length_Repeat_space n : String.length (Repeat " " n) = n.
Proof. induction n as [|n IH]; [done |]. simpl. by rewrite IH. Qed.

Lemma findIndentation_loop_le (ls : list string) start i n :
  findIndentation_loop ls start i = Some n ->
  exists l, l ∈ ls /\ n <= String.length l + 2.
Proof.
  induction i as [|i IH]; simpl.
  - destruct (ls !! 0) as [l|] eqn:E; [| done]. simpl.
    destruct (opensBlockScalar l).
    + intros [= <-]. exists l. split; [by eapply list_elem_of_lookup_2 |].
      unfold leadingSpaces. lia.
    + destruct (ls !! start) as [l0|] eqn:E0; [| done]. simpl.
      intros [= <-]. exists l0. split; [by eapply list_elem_of_lookup_2 |].
      unfold leadingSpaces. lia.
  - destruct (ls !! S i) as [l|] eqn:E; [| done]. simpl.
    destruct (opensBlockScalar l); [| exact IH].
    intros [= <-]. exists l. split; [by eapply list_elem_of_lookup_2 |].
    unfold leadingSpaces. lia.
Qed.

Lemma markerIndent_le (lines : list string) k :
  k < length lines ->
  exists l, l ∈ lines /\ markerIndent lines k <= String.length l + 2.
Proof.
  intros Hk. destruct (lookup_lt_is_Some_2 lines k Hk) as [lk Hlk].
  unfold markerIndent.
  destruct (findIndentation (maskAbove lines k) k) as [n|] eqn:E.
  - apply findIndentation_loop_le in E as (l & Hl & Hn). simpl.
    apply list_elem_of_lookup in Hl as [j Hj].
    rewrite lookup_maskAbove in Hj.
    destruct (lines !! j) as [l0|] eqn:E0; [| done]. simpl in Hj.
    injection Hj as <-.
    destruct (Nat.ltb j k && decl lines j).
    + exists lk. split; [by eapply list_elem_of_lookup_2 |]. simpl in Hn. lia.
    + exists l0. split; [by eapply list_elem_of_lookup_2 | done].
  - exists lk. split; [by eapply list_elem_of_lookup_2 |]. simpl. lia.
Qed.

Lemma tooLong_false (l : string) :
  (N.of_nat (String.length l) < Bufio.MaxScanTokenSize)%N ->
  Bufio.tooLong l = false.
Proof. intros H. unfold Bufio.tooLong. by apply N.leb_gt. Qed.


Lemma length_markerLine drawn (lines : list string) k :
  String.length (markerLine uuid drawn lines k) = markerIndent lines k + 48.
Proof.
  unfold markerLine. rewrite !length_append, length_Repeat_space.
  rewrite (isUUID_length _ (uuid_text _)). simpl. lia.
Qed.

Lemma dropCR_markerLine drawn (lines : list string) k :
  Bufio.dropCR (markerLine uuid drawn lines k) = markerLine uuid drawn lines k.
Proof.
  unfold markerLine.
  destruct (isUUID_chars _ (uuid_text (drawn + rank lines k)))
    as [Hchars Hne].
  destruct (string_last uuidChar _ Hne Hchars) as (x & c & -> & Hc).
  rewrite <- !append_assoc. apply dropCR_keep.
  apply uuidChar_cases in Hc as (Hplain & _). by intros ->.
Qed.

Lemma scanLine_markerLine drawn (lines : list string) k :
  mentions (markerLine uuid drawn lines k) markerPrefix /\
  TrimPrefix (TrimSpace (markerLine uuid drawn lines k)) markerPrefix
  = uuid (drawn + rank lines k).
Proof.
  unfold markerLine. split.
  - by exists (Repeat " " (markerIndent lines k)), (uuid (drawn + rank lines k)).
  - by rewrite TrimSpace_marker, TrimPrefix_app.
Qed.

(** The lines of an instrumented file. *)
Lemma elem_of_Split_instrumented drawn content seg :
  let lines := Split content LF in
  seg ∈ Split (Join (instrumented uuid drawn lines (length lines)) nl) LF <->
  seg ∈ lines \/
  exists k, decl lines k = true /\ seg = markerLine uuid drawn lines k.
Proof.
  intros lines. unfold lines at 1 2. rewrite (Split_instrumented uuid uuid_text).
  fold lines. rewrite list_elem_of_In, in_concat. split.
  - intros (ys & Hys & Hseg). apply list_elem_of_In in Hys, Hseg.
    apply elem_of_lookup_imap in Hys as (k & l & -> & Hl).
    destruct (decl lines k) eqn:Hd.
    + apply elem_of_cons in Hseg as [-> | Hseg];
        [left; by eapply list_elem_of_lookup_2 |].
      apply list_elem_of_singleton in Hseg. right. by exists k.
    + apply list_elem_of_singleton in Hseg as ->. left.
      by eapply list_elem_of_lookup_2.
  - intros [Hin | (k & Hd & ->)].
    + apply list_elem_of_lookup in Hin as [k Hk].
      exists (if decl lines k
              then [seg; markerLine uuid drawn lines k] else [seg]).
      split.
      * apply list_elem_of_In, elem_of_lookup_imap. by exists k, seg.
      * apply list_elem_of_In. destruct (decl lines k); by left.
    + destruct (lookup_lt_is_Some_2 lines k (decl_lt _ _ Hd)) as [l Hl].
      exists [l; markerLine uuid drawn lines k]. split.
      * apply list_elem_of_In, elem_of_lookup_imap. exists k, l.
        by rewrite Hd.
      * apply list_elem_of_In. right. by left.
Qed.

End MarkerRoundTrip.

(** X1. Markers written are markers read. When no line of a [.yaml] file
    of the tree comes within 50 bytes of the scanner's 64 KiB buffer, the
    scanner run on the tree the injector has just instrumented finds the
    token of every registry entry, so the coverage check on that tree
    reports nothing; and when in addition no source line holds the marker
    prefix already, the scanner finds nothing but registry tokens. *)
Theorem markers_round_trip (range : RangeOrder) (t : T)
    (uuid : nat -> string) (dir : string) (fs : FS) (drawn : nat) :
  fairRange range ->
  (forall k, isUUID (uuid k) = true) ->
  (forall path content line,
     fs !! path = Some (Regular content) -> below dir path = true ->
     HasSuffix (Filepath.Base path) ".yaml" = true ->
     line ∈ Split content LF ->
     (N.of_nat (String.length line) + 50 < Bufio.MaxScanTokenSize)%N) ->
  exists r,
    injectComments uuid dir fs drawn = Some r /\
    let found := dc_ids (discoverComments dir (ic_fs r)) in
    (forall id, is_Some (ic_comments r !! id) -> id ∈ found) /\
    Errors (verifyCoverage range t (ic_comments r) found) = Errors t /\
    ((forall path content line,
        fs !! path = Some (Regular content) -> below dir path = true ->
        HasSuffix (Filepath.Base path) ".yaml" = true ->
        line ∈ Split content LF -> Contains line markerPrefix = false) ->
     forall id, id ∈ found -> is_Some (ic_comments r !! id)).
Proof.
  intros Hfair Huuid Hshort.
  destruct (forEach_injectTask_files uuid Huuid dir (Walk fs dir)
              {| ic_fs := fs; ic_comments := ∅; ic_drawn := drawn;
                 ic_err := None |})
    as (r & Hr & Hframe & Hfiles & Horigin & _).
  { apply Walk_NoDup. }
  { intros e He. by apply (Walk_lookup fs dir). }
  cbn [ic_fs ic_comments] in Hframe, Horigin.
  exists r. split; [exact Hr |]. intros found.
  destruct (discoverComments_run dir (ic_fs r)) as (_ & _ & Hfound).
  fold found in Hfound.
  assert (forall path content, (path, content) ∈ yamlOf (Walk fs dir) <->
            fs !! path = Some (Regular content) /\ below dir path = true /\
            HasSuffix (Filepath.Base path) ".yaml" = true) as Hyaml.
  { intros path content. rewrite elem_of_yamlOf. unfold Walk, notYaml.
    rewrite list_elem_of_filter, elem_of_map_to_list. cbn [fst snd isDir].
    rewrite orb_false_l, negb_false_iff. tauto. }
  assert (forall id, is_Some (ic_comments r !! id) -> id ∈ found) as Hall.
  { intros id Hid.
    destruct (Horigin id Hid) as [H | (path & content & d & k & Hin & Hp & Hd & ->)].
    { rewrite lookup_empty in H. by destruct H. }
    apply Hyaml in Hin as (Hfs & Hb & Hy).
    set (lines := Split content LF) in *.
    destruct (scanLine_markerLine uuid Huuid d lines k) as [Hm Hid'].
    apply Hfound.
    exists path, (Join (instrumented uuid d lines (length lines)) nl),
           (markerLine uuid d lines k).
    split; [done |]. split; [done |]. split; [done |].
    split; [| by split].
    rewrite <- (dropCR_markerLine uuid Huuid). unfold Bufio.ScanLines.
    apply tokens_all.
    - intros l Hl.
      apply (elem_of_Split_instrumented uuid Huuid) in Hl
        as [Hl | (k' & Hd' & ->)].
      + apply tooLong_false.
        pose proof (Hshort path content l Hfs Hb Hy Hl). lia.
      + apply tooLong_false. rewrite (length_markerLine uuid Huuid).
        destruct (markerIndent_le lines k' (decl_lt _ _ Hd'))
          as (l0 & Hl0 & Hle).
        pose proof (Hshort path content l0 Hfs Hb Hy Hl0) as Hl0'.
        unfold lines in *. lia.
    - apply (elem_of_Split_instrumented uuid Huuid). right. by exists k.
    - intros Heq. pose proof (length_markerLine uuid Huuid d lines k) as Hlen.
      rewrite Heq in Hlen. simpl in Hlen. lia. }
  split; [exact Hall |]. split.
  - unfold verifyCoverage.
    destruct (verifyCoverage_fold t found (range _ (ic_comments r)))
      as [HE _]. rewrite HE.
    assert (uncoveredOf found (range _ (ic_comments r)) = []) as ->.
    { unfold uncoveredOf.
      destruct (filter _ _) as [|e es] eqn:E; [done |]. exfalso.
      assert (e ∈ filter (fun e => slices_Contains found e.1 = false)
                         (range _ (ic_comments r))) as He
        by (rewrite E; by left).
      apply list_elem_of_filter in He as [Hno He].
      rewrite (Hfair _ (ic_comments r)) in He. destruct e as [id d].
      apply elem_of_map_to_list in He. cbn [fst] in Hno.
      apply slices_Contains_false in Hno. apply Hno, Hall. by eexists. }
    simpl. by rewrite app_nil_r.
  - intros Hclean id Hid.
    apply Hfound in Hid
      as (path & content' & line & Hp & Hb & Hy & Hline & Hm & ->).
    assert (exists content, (path, content) ∈ yamlOf (Walk fs dir))
      as [content Hin].
    { destruct (fs !! path) as [[|c]|] eqn:E.
      - rewrite Hframe in Hp by (intros c' Hc; apply Hyaml in Hc as [Hc _]; by rewrite E in Hc).
        by rewrite E in Hp.
      - exists c. by apply Hyaml.
      - rewrite Hframe in Hp by (intros c' Hc; apply Hyaml in Hc as [Hc _]; by rewrite E in Hc).
        by rewrite E in Hp. }
    destruct (Hfiles path content Hin) as (d & Hp' & Hreg).
    rewrite Hp in Hp'. injection Hp' as ->.
    apply Hyaml in Hin as (Hfs & _).
    unfold Bufio.ScanLines in Hline.
    apply tokens_sub in Hline as (seg & Hseg & ->).
    apply (elem_of_Split_instrumented uuid Huuid) in Hseg
      as [Hseg | (k & Hd & ->)].
    + exfalso. destruct Hm as (a & b & Hm).
      destruct (dropCR_split seg) as [tail Htail].
      assert (Contains seg markerPrefix = true) as Hc.
      { apply Contains_spec. exists a, (b +:+ tail).
        rewrite Htail at 1. fold markerPrefix in Hm. rewrite Hm.
        by rewrite !append_assoc. }
      by rewrite (Hclean path content seg Hfs Hb Hy Hseg) in Hc.
    + rewrite (dropCR_markerLine uuid Huuid).
      destruct (scanLine_markerLine uuid Huuid d (Split content LF) k)
        as [_ Heq]. fold markerPrefix. rewrite Heq. by apply Hreg.
Qed.

Lemma sampleChart_short path content line :
  sampleChart !! path = Some (Regular content) ->
  HasSuffix (Filepath.Base path) ".yaml" = true ->
  line ∈ Split content LF ->
  (N.of_nat (String.length line) + 50 < Bufio.MaxScanTokenSize)%N.
Proof.
  intros Hn Hy Hline. apply elem_of_map_to_list in Hn.
  remember (map_to_list sampleChart) as l eqn:Hl.
  vm_compute in Hl. subst l.
  repeat (apply elem_of_cons in Hn as [Heq | Hn];
          [first [ discriminate Heq
                 | injection Heq as -> ->;
                   first [ discriminate Hy
                         | vm_compute in Hline;
                           repeat (apply elem_of_cons in Hline as [-> | Hline];
                                   [vm_compute; reflexivity |]);
                           by apply elem_of_nil in Hline ] ] |]).
  by apply elem_of_nil in Hn.
Qed.

Lemma markers_round_trip_witness :
  exists r,
    injectComments sampleUUID "/c" sampleChart 0 = Some r /\
    Errors (verifyCoverage (fun V => map_to_list) (mkT [] []) (ic_comments r)
              (dc_ids (discoverComments "/c" (ic_fs r)))) = [].
Proof.
  destruct (markers_round_trip (fun V => map_to_list) (mkT [] []) sampleUUID
              "/c" sampleChart 0 (fun V m => reflexivity _) sampleUUID_text)
    as (r & Hr & _ & Hcov & _).
  - intros path content line Hn _ Hy Hline.
    exact (sampleChart_short path content line Hn Hy Hline).
  - exists r. split; [exact Hr | exact Hcov].
Defined.

(** ** The surviving tokens as a set *)

Section SeenSet.

Lemma slices_Contains_ext (s s' : list string) :
  (forall v, v ∈ s <-> v ∈ s') ->
  forall v, slices_Contains s v = slices_Contains s' v.
Proof.
  intros H v. destruct (slices_Contains s' v) eqn:E.
  - apply slices_Contains_spec, H. by apply slices_Contains_spec.
  - apply slices_Contains_false. rewrite H. by apply slices_Contains_false.
Qed.

Lemma uncoveredOf_sublist (seen seen' : list string)
    (entries : list (string * conditionalDeclRef)) :
  (forall v, v ∈ seen -> v ∈ seen') ->
  uncoveredOf seen' entries `sublist_of` uncoveredOf seen entries.
Proof.
  intros Hsub. unfold uncoveredOf.
  induction entries as [|e es IH]; [done |].
  rewrite !filter_cons.
  destruct (decide (slices_Contains seen' e.1 = false)) as [H' | H'].
  - rewrite decide_True; [by apply sublist_skip |].
    apply slices_Contains_false. intros Hin.
    apply slices_Contains_false in H'. by apply H', Hsub.
  - destruct (decide (slices_Contains seen e.1 = false));
      [by apply sublist_cons | done].
Qed.

End SeenSet.

Section SeenSetOrders.

Lemma uncoveredOf_fair (range : RangeOrder) (ids : Registry) seenIDs :
  fairRange range ->
  uncoveredOf seenIDs (range _ ids) ≡ₚ uncoveredOf seenIDs (map_to_list ids).
Proof. intros Hfair. unfold uncoveredOf. by rewrite (Hfair _ ids). Qed.

Lemma uncoveredOf_ext (seen seen' : list string)
    (entries : list (string * conditionalDeclRef)) :
  (forall v, v ∈ seen <-> v ∈ seen') ->
  uncoveredOf seen entries = uncoveredOf seen' entries.
Proof.
  intros Hset. unfold uncoveredOf. apply list_filter_iff. intros e.
  by rewrite (slices_Contains_ext _ _ Hset).
Qed.

Lemma groupByFile_lookup (range : RangeOrder) (ids : Registry) seenIDs file :
  default [] (groupByFile range ids seenIDs !! file)
  = defsOf seenIDs (range _ ids) file /\
  (is_Some (groupByFile range ids seenIDs !! file) <->
   defsOf seenIDs (range _ ids) file <> []).
Proof.
  unfold groupByFile. rewrite groupBy_fold, lookup_empty.
  destruct (defsOf seenIDs (range _ ids) file) as [|d ds]; simpl.
  - split; [done |]. split; [by intros [? ?] | done].
  - split; [done |]. split; [done | by eexists].
Qed.

End SeenSetOrders.

(** X2. The two reconcilers read the surviving tokens as a set, whatever
    the order of their [range] loops. For two lists of surviving tokens
    with the same members and any two orders of ranging over the
    registry, [verifyCoverage] reports the same failures up to their
    order and logs nothing, and the first loop of [injectExceptions]
    groups the same declarations under the same files, up to the order
    within a file. *)
Theorem reconcilers_read_a_set (range range' : RangeOrder) (t : T)
    (ids : Registry) (seenIDs seenIDs' : list string) :
  fairRange range -> fairRange range' ->
  (forall id, id ∈ seenIDs <-> id ∈ seenIDs') ->
  (exists reported reported',
     Errors (verifyCoverage range t ids seenIDs)
     = (Errors t ++ reported)%list /\
     Errors (verifyCoverage range' t ids seenIDs')
     = (Errors t ++ reported')%list /\
     reported ≡ₚ reported') /\
  Logs (verifyCoverage range t ids seenIDs) = Logs t /\
  forall file,
    (is_Some (groupByFile range ids seenIDs !! file) <->
     is_Some (groupByFile range' ids seenIDs' !! file)) /\
    default [] (groupByFile range ids seenIDs !! file)
    ≡ₚ default [] (groupByFile range' ids seenIDs' !! file).
Proof.
  intros Hfair Hfair' Hset.
  assert (uncoveredOf seenIDs (range _ ids)
          ≡ₚ uncoveredOf seenIDs' (range' _ ids)) as Hperm.
  { rewrite (uncoveredOf_fair range), (uncoveredOf_fair range') by done.
    by rewrite (uncoveredOf_ext _ _ _ Hset). }
  split; [| split].
  - unfold verifyCoverage.
    destruct (verifyCoverage_fold t seenIDs (range _ ids)) as [HE _].
    destruct (verifyCoverage_fold t seenIDs' (range' _ ids)) as [HE' _].
    eexists _, _. split; [exact HE |]. split; [exact HE' |].
    by rewrite Hperm.
  - unfold verifyCoverage.
    by destruct (verifyCoverage_fold t seenIDs (range _ ids)) as [_ HL].
  - intros file.
    destruct (groupByFile_lookup range ids seenIDs file) as [-> ->].
    destruct (groupByFile_lookup range' ids seenIDs' file) as [-> ->].
    assert (defsOf seenIDs (range _ ids) file
            ≡ₚ defsOf seenIDs' (range' _ ids) file) as Hdefs
      by (unfold defsOf; by rewrite Hperm).
    split; [| done]. split; intros Hne Hnil; apply Hne.
    + apply Permutation_nil_r. by rewrite Hdefs, Hnil.
    + apply Permutation_nil_r. by rewrite <- Hdefs, Hnil.
Qed.

Lemma reconcilers_read_a_set_witness :
  exists reported reported',
    Errors (verifyCoverage (fun V => map_to_list) (mkT [] []) sampleRegistry
              ["00000000-0000-4000-8000-000000000000"; "x"])
    = reported /\
    Errors (verifyCoverage (fun V m => rev (map_to_list m)) (mkT [] [])
              sampleRegistry
              ["x"; "00000000-0000-4000-8000-000000000000"; "x"])
    = reported' /\
    reported ≡ₚ reported'.
Proof.
  destruct (reconcilers_read_a_set (fun V => map_to_list)
              (fun V m => rev (map_to_list m)) (mkT [] []) sampleRegistry
              ["00000000-0000-4000-8000-000000000000"; "x"]
              ["x"; "00000000-0000-4000-8000-000000000000"; "x"])
    as ((reported & reported' & H1 & H2 & Hperm) & _).
  - intros V m. reflexivity.
  - intros V m. symmetry. apply Permutation_rev.
  - intros id. rewrite !elem_of_cons, !elem_of_nil. tauto.
  - exists reported, reported'. split; [exact H1 |]. split; [exact H2 |].
    exact Hperm.
Defined.

(** X3. Coverage is monotone in the surviving tokens, whatever the order
    of the [range] loops: when every token of one list is in another,
    each failure [verifyCoverage] reports with the larger list is one it
    reports with the smaller list, as often. *)
Theorem verifyCoverage_monotone (range range' : RangeOrder) (t : T)
    (ids : Registry) (seenIDs seenIDs' : list string) :
  fairRange range -> fairRange range' ->
  (forall id, id ∈ seenIDs -> id ∈ seenIDs') ->
  exists more fewer,
    Errors (verifyCoverage range t ids seenIDs) = (Errors t ++ more)%list /\
    Errors (verifyCoverage range' t ids seenIDs') = (Errors t ++ fewer)%list /\
    fewer ⊆+ more.
Proof.
  intros Hfair Hfair' Hsub. unfold verifyCoverage.
  destruct (verifyCoverage_fold t seenIDs (range _ ids)) as [HE _].
  destruct (verifyCoverage_fold t seenIDs' (range' _ ids)) as [HE' _].
  eexists _, _. split; [exact HE |]. split; [exact HE' |].
  apply fmap_submseteq.
  rewrite (uncoveredOf_fair range), (uncoveredOf_fair range') by done.
  by apply sublist_submseteq, uncoveredOf_sublist.
Qed.

Lemma verifyCoverage_monotone_witness :
  exists more fewer,
    Errors (verifyCoverage (fun V => map_to_list) (mkT [] []) sampleRegistry [])
    = more /\
    Errors (verifyCoverage (fun V m => rev (map_to_list m)) (mkT [] [])
              sampleRegistry ["00000000-0000-4000-8000-000000000000"])
    = fewer /\
    fewer ⊆+ more.
Proof.
  destruct (verifyCoverage_monotone (fun V => map_to_list)
              (fun V m => rev (map_to_list m)) (mkT [] [])
              sampleRegistry [] ["00000000-0000-4000-8000-000000000000"])
    as (more & fewer & H1 & H2 & Hsub).
  - intros V m. reflexivity.
  - intros V m. symmetry. apply Permutation_rev.
  - intros id H. by apply elem_of_nil in H.
  - exists more, fewer. split; [exact H1 |]. split; [exact H2 | exact Hsub].
Defined.

(** ** Rendering *)

Section Rendering.

Variable env : Env.

Lemma foldl_renderOne fixturesDir chartDir resultsDir
    (fixtures : list (string * node)) (st : world * error) :
  let r := foldl (renderOne env fixturesDir chartDir resultsDir) st fixtures in
  w_trace r.1
  = (w_trace st.1 ++
     (helmEvent fixturesDir chartDir resultsDir <$> fixtures))%list /\
  w_t r.1 = w_t st.1.
Proof.
  revert st. induction fixtures as [|f fixtures IH]; intros st.
  - simpl. by rewrite app_nil_r.
  - cbn [foldl]. specialize (IH (renderOne env fixturesDir chartDir
                                   resultsDir st f)).
    cbv zeta in IH. destruct IH as (Ht & HT).
    cbv zeta. rewrite Ht, HT. unfold renderOne.
    destruct (helm env (w_fs st.1) (outputPathOf resultsDir f.1)
                (Filepath.Join2 fixturesDir f.1) chartDir)
      as [fs [out err]] eqn:Eh.
    cbn [fst snd w_event w_trace w_t]. rewrite fmap_cons, <- app_assoc.
    by split.
Qed.

End Rendering.

(** X4. [renderChart] starts one [helm template] run for every fixture,
    a regular entry of the fixtures directory whose extension is [.yaml],
    in the order of the listing, and none for any other entry; a run that
    fails stops none of the others. It reports nothing through [Errorf],
    and logs the elapsed time once on every way out. It ends either with
    one output directory per fixture, in the same order, or with the
    fatal message "rendering chart: ...". *)
Theorem renderChart_renders_every_fixture (env : Env) (opts : options)
    (chartDir resultsDir : string) (w : world)
    (entries : list (string * node)) :
  ReadDir (w_fs w) (FixturesDir opts) = Some entries ->
  let fixtures := filter (fun e => isFixture e = true) entries in
  exists w',
    (renderChart env opts chartDir resultsDir w
     = Continue (w', (fun e => outputPathOf resultsDir e.1) <$> fixtures) \/
     exists e, renderChart env opts chartDir resultsDir w
               = Fatal w' ("rendering chart: " +:+ e)) /\
    w_trace w'
    = (w_trace w ++
       (helmEvent (FixturesDir opts) chartDir resultsDir <$> fixtures))%list /\
    Errors (w_t w') = Errors (w_t w) /\
    Logs (w_t w')
    = (Logs (w_t w) ++
       ["rendered the chart for every fixture in " +:+ elapsed env])%list.
Proof.
  intros Hdir fixtures. unfold renderChart. rewrite Hdir. fold fixtures.
  pose proof (foldl_renderOne env (FixturesDir opts) chartDir resultsDir
                fixtures (w, None)) as H. cbv zeta in H.
  destruct (foldl (renderOne env (FixturesDir opts) chartDir resultsDir)
              (w, None) fixtures) as [w1 err].
  cbn [fst snd] in H. destruct H as (Ht & HT).
  exists (w_Logf w1 ("rendered the chart for every fixture in " +:+
                      elapsed env)).
  cbn [w_Logf w_trace w_t Logf Errors Logs]. rewrite Ht, HT.
  split; [| done]. destruct err as [e|]; [right; by exists e | by left].
Qed.

Lemma sampleFixtures_listing :
  ReadDir sampleFixtures (FixturesDir sampleOptions)
  = Some [("a.yaml", Regular "on: true"); ("notes.txt", Regular "x");
          ("sub", Directory)].
Proof. vm_compute. reflexivity. Qed.

Lemma renderChart_renders_every_fixture_witness :
  exists w',
    renderChart sampleEnv sampleOptions "/tmp/1/chart" "/tmp/1/results"
                {| w_fs := sampleFixtures; w_t := mkT [] []; w_trace := [] |}
    = Continue (w', ["/tmp/1/results/a"]) /\
    w_trace w'
    = [Helm "/tmp/1/results/a" "/c/fixtures/a.yaml" "/tmp/1/chart"].
Proof.
  destruct (renderChart_renders_every_fixture sampleEnv sampleOptions
              "/tmp/1/chart" "/tmp/1/results"
              {| w_fs := sampleFixtures; w_t := mkT [] []; w_trace := [] |}
              _ sampleFixtures_listing)
    as (w' & [Hok | [e He]] & Ht & _).
  - exists w'. split.
    + rewrite Hok. vm_compute. reflexivity.
    + rewrite Ht. vm_compute. reflexivity.
  - exfalso. vm_compute in He. discriminate He.
Defined.

(** ** The ways out of [Lint] *)

Section FatalRuns.

Variable env : Env.

Lemma renderChart_fatal opts chartDir resultsDir w w' msg :
  renderChart env opts chartDir resultsDir w = Fatal w' msg ->
  Errors (w_t w') = Errors (w_t w) /\
  exists helms, w_trace w' = (w_trace w ++ helms)%list /\ onlyHelm helms.
Proof.
  unfold renderChart.
  destruct (ReadDir (w_fs w) (FixturesDir opts)) as [entries|].
  - pose proof (foldl_renderOne env (FixturesDir opts) chartDir resultsDir
                  (filter (fun e => isFixture e = true) entries) (w, None))
      as H. cbv zeta in H.
    destruct (foldl (renderOne env (FixturesDir opts) chartDir resultsDir)
                (w, None) (filter (fun e => isFixture e = true) entries))
      as [w1 err].
    cbn [fst snd] in H. destruct H as (Ht & HT).
    destruct err as [e|]; [| done]. intros [= <- <-].
    cbn [w_Logf w_trace w_t Logf Errors]. rewrite Ht, HT.
    split; [done |].
    eexists. split; [done |]. intros ev Hev.
    apply list_elem_of_fmap in Hev as (f & -> & _). unfold helmEvent.
    by eexists _, _, _.
  - intros [= <- <-]. cbn [w_Logf w_trace w_t Logf Errors].
    split; [done |].
    exists []. split; [by rewrite app_nil_r |].
    intros ev Hev. by apply elem_of_nil in Hev.
Qed.

End FatalRuns.

(** X5. A run that is stopped by [t.Fatalf] because the chart cannot be
    copied, the fixtures cannot be listed or a [helm template] run fails
    has checked nothing: nothing was reported through [Errorf], and the
    trace has gained [helm template] runs only, so no policy check, no
    visitor and no extraction function ran. *)
Theorem Lint_fatal_is_early (env : Env) (args : list Option) (w : world)
    (drawn : nat) (w' : world) (msg : string) :
  Lint env args w drawn = Fatal w' msg ->
  Errors (w_t w') = Errors (w_t w) /\
  exists helms, w_trace w' = (w_trace w ++ helms)%list /\ onlyHelm helms.
Proof.
  assert (onlyHelm []) as Hnil by (intros ev H; by apply elem_of_nil in H).
  unfold Lint, laterStages. cbn [foldl].
  unfold setup.
  destruct (cp_r _ _ _) as [fs0|]; cbn [andThen].
  2: { intros [= <- <-]. cbn [w_t w_trace].
       split; [done |]. exists []. by rewrite app_nil_r. }
  unfold instrument at 1. cbn [fr_world fr_chartDir fr_drawn w_fs].
  destruct (injectComments _ _ _ _) as [r|]; cbn [andThen]; [| done].
  destruct (ic_err r) as [e|]; cbn [andThen].
  { intros [= <- <-]. cbn [w_t w_trace].
    split; [done |]. exists []. by rewrite app_nil_r. }
  unfold render at 1. cbn [fr_world fr_opts fr_chartDir fr_dir].
  destruct (renderChart _ _ _ _ _) as [[w1 dirs]|w1 m|] eqn:Er;
    cbn [andThen]; [| | done].
  - unfold scan at 1. cbn [andThen]. unfold reconcile at 1.
    cbn [fr_opts fr_world].
    match goal with |- context [WriteExceptions ?o] =>
      destruct (WriteExceptions o) end.
    + destruct (injectExceptions _ _ _ _ _ _) as [ex|];
        cbv beta zeta; cbn [andThen]; intros H; inversion H.
    + cbv beta zeta. cbn [andThen]. intros H. inversion H.
  - intros [= <- <-].
    destruct (renderChart_fatal env _ _ _ _ _ _ Er) as (HE & Hh).
    cbn [w_t w_trace] in HE, Hh. done.
Qed.

Lemma Lint_fatal_is_early_witness :
  exists w' msg,
    Lint sampleEnv [WithChartDir "/c"]
         {| w_fs := sampleChart; w_t := mkT [] ["earlier"]; w_trace := [] |} 0
    = Fatal w' msg /\
    Errors (w_t w') = ["earlier"] /\
    exists helms, w_trace w' = helms /\ onlyHelm helms.
Proof.
  destruct (Lint sampleEnv [WithChartDir "/c"]
              {| w_fs := sampleChart; w_t := mkT [] ["earlier"];
                 w_trace := [] |} 0) as [f|w' msg|] eqn:E.
  - vm_compute in E. discriminate E.
  - exists w', msg. split; [reflexivity |].
    destruct (Lint_fatal_is_early _ _ _ _ _ _ E) as (HE & Hh).
    split; [exact HE | exact Hh].
  - vm_compute in E. discriminate E.
Defined.

(** ** The policy stage *)

Section PolicyStage.

Variable env : Env.

Lemma extends_refl w : extends w w.
Proof. by repeat split. Qed.

Lemma extends_trans w1 w2 w3 : extends w1 w2 -> extends w2 w3 -> extends w1 w3.
Proof.
  intros (H1 & H2 & H3) (H1' & H2' & H3').
  repeat split; by etrans.
Qed.

Lemma foldl_Logf t msgs :
  Logs (foldl Logf t msgs) = (Logs t ++ msgs)%list /\
  Errors (foldl Logf t msgs) = Errors t.
Proof.
  revert t. induction msgs as [|m msgs IH]; intros t.
  - simpl. by rewrite app_nil_r.
  - cbn [foldl]. destruct (IH (Logf t m)) as [-> ->]. simpl.
    by rewrite <- app_assoc.
Qed.

Lemma foldl_Errorf t msgs :
  Errors (foldl Errorf t msgs) = (Errors t ++ msgs)%list /\
  Logs (foldl Errorf t msgs) = Logs t.
Proof.
  revert t. induction msgs as [|m msgs IH]; intros t.
  - simpl. by rewrite app_nil_r.
  - cbn [foldl]. destruct (IH (Errorf t m)) as [-> ->]. simpl.
    by rewrite <- app_assoc.
Qed.

Lemma runConftest_extends policiesDir dir w :
  extends w (runConftest env policiesDir dir w).1.
Proof.
  unfold runConftest, extends.
  destruct (conftest env _ _ _) as [out [e|]]; simpl;
    repeat split; try done; by apply prefix_app_r.
Qed.

Lemma visit_extends dir w iv : extends w (visit dir w iv).
Proof.
  unfold visit, extends. destruct (iv.2 dir (w_fs w)) as [[logs errors] fs].
  cbn [w_event w_trace w_t].
  destruct (foldl_Errorf (foldl Logf (w_t w) logs) errors) as [-> ->].
  destruct (foldl_Logf (w_t w) logs) as [-> ->].
  repeat split; by apply prefix_app_r.
Qed.

Lemma recurse_extends recursionDir dir w ir :
  extends w (recurse env recursionDir dir w ir).
Proof.
  unfold recurse. destruct (MkdirAll _ _) as [fs|].
  - unfold recursionTask. destruct (Fn ir.2 _ _ _) as [fs' [e|]].
    + unfold extends. simpl. repeat split; try done; by apply prefix_app_r.
    + cbn [w_event w_fs w_t w_trace].
      destruct (Nat.eqb _ 0).
      * unfold extends. simpl. repeat split; try done. by apply prefix_app_r.
      * eapply extends_trans; [| apply runConftest_extends].
        unfold extends. simpl. repeat split; try done.
        by apply prefix_app_r.
  - unfold extends. simpl. repeat split; try done. by apply prefix_app_r.
Qed.

Lemma foldl_extends {A : Type} (f : world -> A -> world) (l : list A) w :
  (forall w a, extends w (f w a)) -> extends w (foldl f w l).
Proof.
  intros H. revert w. induction l as [|a l IH]; intros w;
    [apply extends_refl |].
  cbn [foldl]. eapply extends_trans; [apply H | apply IH].
Qed.

Lemma walkDir_extends opts recursionDir w dir :
  extends w (walkDir env opts recursionDir w dir) /\
  Conftest (PoliciesDir opts) dir
    ∈ w_trace (walkDir env opts recursionDir w dir).
Proof.
  unfold walkDir.
  set (w1 := (runConftest env (PoliciesDir opts) dir w).1).
  set (w2 := foldl (visit dir) w1 (imap pair (Visitors opts))).
  assert (extends w1 (foldl (recurse env recursionDir dir) w2
                            (imap pair (Recursions opts)))) as H12.
  { eapply extends_trans.
    - apply (foldl_extends (visit dir)). intros. apply visit_extends.
    - apply (foldl_extends (recurse env recursionDir dir)).
      intros. apply recurse_extends. }
  split.
  - eapply extends_trans; [apply runConftest_extends | exact H12].
  - destruct H12 as [[rest Hp] _]. rewrite Hp.
    destruct (runConftest_trace env (PoliciesDir opts) dir w) as [Ht _].
    fold w1 in Ht. rewrite Ht.
    apply elem_of_app. left. apply elem_of_app. right. by left.
Qed.

Lemma walkRenderedChart_extends opts dir outputDirs w :
  extends w (walkRenderedChart env opts dir outputDirs w) /\
  forall d, d ∈ outputDirs ->
    Conftest (PoliciesDir opts) d
      ∈ w_trace (walkRenderedChart env opts dir outputDirs w).
Proof.
  unfold walkRenderedChart. revert w.
  induction outputDirs as [|d ds IH]; intros w.
  - split; [apply extends_refl |]. intros d H. by apply elem_of_nil in H.
  - cbn [foldl].
    destruct (walkDir_extends opts (Filepath.Join2 dir "recursions") w d)
      as [He Hd].
    destruct (IH (walkDir env opts (Filepath.Join2 dir "recursions") w d))
      as [He' Hds].
    split; [by eapply extends_trans |].
    intros d' [-> | Hin]%elem_of_cons; [| by apply Hds].
    destruct He' as [[rest Hp] _]. rewrite Hp. apply elem_of_app. by left.
Qed.

End PolicyStage.

(** X6. A run of [Lint] that returns without writing exceptions has
    carried out both checks on what the earlier stages produced. The
    registry is the one [injectComments] built on the copy of the chart,
    the rendered directories are those [renderChart] returned, and the
    surviving tokens are those [discoverComments] found below the results
    directory after rendering. Every entry of that registry whose token
    is not among those tokens is reported as a missing branch, the policy
    check ran on every one of those directories, also when branches are
    missing, an error of [discoverComments] is reported, and nothing
    reported before the run is lost. *)
Theorem Lint_reports_and_checks (env : Env) (args : list Option) (w : world)
    (drawn : nat) (f : frame) :
  fairRange (rangeOrder env) ->
  Lint env args w drawn = Continue f ->
  WriteExceptions (fr_opts f) = false ->
  let opts := Finalize env (applyOptions args zeroOptions) in
  let dir := MkdirTemp env (w_fs w) in
  let chartDir := Filepath.Join2 dir "chart" in
  let resultsDir := Filepath.Join2 dir "results" in
  exists fs0 r w1 dirs,
    cp_r (<[dir := Directory]> (w_fs w)) (ChartDir opts) chartDir = Some fs0 /\
    injectComments (NewString env) chartDir fs0 drawn = Some r /\
    renderChart env opts chartDir resultsDir
      {| w_fs := ic_fs r; w_t := w_t w; w_trace := w_trace w |}
    = Continue (w1, dirs) /\
    let found := dc_ids (discoverComments resultsDir (w_fs w1)) in
    fr_opts f = opts /\ fr_ids f = ic_comments r /\
    fr_outputDirs f = dirs /\ fr_seenIDs f = found /\
    (forall id d, ic_comments r !! id = Some d -> id ∉ found ->
                  notFound d ∈ Errors (w_t (fr_world f))) /\
    (forall d, d ∈ dirs ->
       Conftest (PoliciesDir opts) d ∈ w_trace (fr_world f)) /\
    (forall e, dc_err (discoverComments resultsDir (w_fs w1)) = Some e ->
       "discovering comments: " +:+ e ∈ Errors (w_t (fr_world f))) /\
    Errors (w_t w) `prefix_of` Errors (w_t (fr_world f)).
Proof.
  intros Hfair. unfold Lint, laterStages. cbn [foldl].
  unfold setup.
  destruct (cp_r _ _ _) as [fs0|] eqn:Hcp; cbn [andThen]; [| done].
  unfold instrument at 1. cbn [fr_world fr_chartDir fr_drawn w_fs].
  destruct (injectComments _ _ _ _) as [r|] eqn:Hinj; cbn [andThen];
    [| done].
  destruct (ic_err r) as [e|]; cbn [andThen]; [done |].
  unfold render at 1. cbn [fr_world fr_opts fr_chartDir fr_dir].
  destruct (renderChart _ _ _ _ _) as [[w1 dirs]|w1 m|] eqn:Er;
    cbn [andThen]; [| done | done].
  unfold scan at 1. cbn [andThen fr_world fr_resultsDir fst snd].
  unfold reconcile at 1. cbn [fr_opts fr_world fr_ids fr_seenIDs].
  set (opts := Finalize env (applyOptions args zeroOptions)) in *.
  set (found := discoverComments _ (w_fs w1)).
  destruct (WriteExceptions opts) eqn:HW.
  { destruct (injectExceptions _ _ _ _ _ _) as [ex|]; cbn [andThen];
      [| done].
    unfold policies. intros [= <-]. cbn [fr_opts]. by rewrite HW. }
  cbn [andThen]. unfold policies. intros [= <-] _.
  cbn [fr_opts fr_ids fr_seenIDs fr_outputDirs fr_world fr_dir].
  exists fs0, r, w1, dirs.
  split; [first [reflexivity | exact Hcp] |].
  split; [first [reflexivity | exact Hinj] |].
  split; [first [reflexivity | exact Er] |].
  fold found.
  match goal with
  | |- context [walkRenderedChart env opts ?d dirs ?w0] =>
      destruct (walkRenderedChart_extends env opts d dirs w0)
        as [(_ & [more HE] & _) Hdirs]; set (w5 := w0) in *
  end.
  assert (Errors (w_t w1) = Errors (w_t w)) as Hw1.
  { unfold renderChart in Er.
    destruct (ReadDir _ _) as [entries|]; [| done].
    pose proof (foldl_renderOne env (FixturesDir opts)
                  (Filepath.Join2 (MkdirTemp env (w_fs w)) "chart")
                  (Filepath.Join2 (MkdirTemp env (w_fs w)) "results")
                  (filter (fun e => isFixture e = true) entries)
                  ({| w_fs := ic_fs r; w_t := w_t w; w_trace := w_trace w |},
                   None)) as H. cbv zeta in H.
    destruct (foldl _ _ _) as [w0 err]. cbn [fst snd] in H.
    destruct H as (_ & HT). destruct err; [done |].
    injection Er as <- _. cbn [w_Logf w_t Logf Errors]. by rewrite HT. }
  split; [done |]. split; [done |]. split; [done |]. split; [done |].
  split; [| split; [exact Hdirs | split]].
  - intros id d Hid Hno. rewrite HE. apply elem_of_app. left.
    unfold w5. cbn [w_t]. unfold verifyCoverage.
    match goal with
    | |- context [foldl _ ?t0 (rangeOrder env _ (ic_comments r))] =>
        destruct (verifyCoverage_fold t0 (dc_ids found)
                    (rangeOrder env _ (ic_comments r))) as [HV _]
    end.
    rewrite HV. apply elem_of_app. right.
    apply list_elem_of_fmap. exists (id, d). split; [done |].
    unfold uncoveredOf. apply list_elem_of_filter. split.
    + by apply slices_Contains_false.
    + rewrite (Hfair _ (ic_comments r)). by apply elem_of_map_to_list.
  - intros e He. rewrite HE. apply elem_of_app. left.
    unfold w5. cbn [w_t]. unfold verifyCoverage.
    match goal with
    | |- context [foldl _ ?t0 (rangeOrder env _ (ic_comments r))] =>
        destruct (verifyCoverage_fold t0 (dc_ids found)
                    (rangeOrder env _ (ic_comments r))) as [HV _]
    end.
    rewrite HV. apply elem_of_app. left. rewrite He.
    cbn [w_Errorf w_t Errorf Errors]. apply elem_of_app. right. by left.
  - rewrite HE. unfold w5. cbn [w_t]. unfold verifyCoverage.
    match goal with
    | |- context [foldl _ ?t0 (rangeOrder env _ (ic_comments r))] =>
        destruct (verifyCoverage_fold t0 (dc_ids found)
                    (rangeOrder env _ (ic_comments r))) as [HV _]
    end.
    rewrite HV. rewrite <- !app_assoc.
    destruct (dc_err found); cbn [w_Errorf w_t Errorf Errors];
      rewrite Hw1, <- ?app_assoc; by apply prefix_app_r.
Qed.

Lemma sampleProject_run :
  match Lint sampleEnv [WithChartDir "/c"]
             {| w_fs := sampleProject; w_t := mkT [] []; w_trace := [] |} 0
  with
  | Continue f =>
      WriteExceptions (fr_opts f) = false /\
      fr_ids f !! "00000000-0000-4000-8000-000000000000"
      = Some {| File := "templates/a.yaml"; Line := 1;
                Expr := "{{ if a }}" |} /\
      fr_seenIDs f = [] /\
      fr_outputDirs f = ["/tmp/1/results/a"] /\
      PoliciesDir (fr_opts f) = "/c/policies"
  | _ => False
  end.
Proof. vm_compute. repeat split; reflexivity. Qed.

Lemma Lint_reports_and_checks_witness :
  exists f,
    Lint sampleEnv [WithChartDir "/c"]
         {| w_fs := sampleProject; w_t := mkT [] []; w_trace := [] |} 0
    = Continue f /\
    notFound {| File := "templates/a.yaml"; Line := 1; Expr := "{{ if a }}" |}
      ∈ Errors (w_t (fr_world f)) /\
    Conftest "/c/policies" "/tmp/1/results/a" ∈ w_trace (fr_world f).
Proof.
  pose proof sampleProject_run as Hrun.
  destruct (Lint sampleEnv [WithChartDir "/c"]
              {| w_fs := sampleProject; w_t := mkT [] []; w_trace := [] |} 0)
    as [f|w' msg|] eqn:E; [| destruct Hrun ..].
  destruct Hrun as (HW & Hid & Hseen & Hdirs & Hpol).
  destruct (Lint_reports_and_checks sampleEnv _ _ _ f
              (fun V m => reflexivity _) E HW)
    as (fs0 & r & w1 & dirs & _ & _ & _ & Hopts & Hids & Hout & Hfound &
        Hcov & Hchk & _ & _).
  exists f. split; [reflexivity |]. split.
  - apply (Hcov "00000000-0000-4000-8000-000000000000").
    + rewrite <- Hids. exact Hid.
    + rewrite <- Hfound, Hseen. intros Hin. apply elem_of_nil in Hin.
      exact Hin.
  - rewrite <- Hpol, Hopts. apply Hchk. rewrite <- Hout, Hdirs.
    apply elem_of_cons. left. reflexivity.
Defined.

(** ** Paths *)

Section Paths.

Import Filepath.

Lemma eqb_neq_string (a b : string) : a <> b -> String.eqb a b = false.
Proof. intros H. by apply String.eqb_neq. Qed.

Lemma cleanStep_ordinary out e :
  ordinary e -> cleanStep true out e = e :: out.
Proof.
  intros (H1 & H2 & H3 & _). unfold cleanStep.
  by rewrite !eqb_neq_string.
Qed.

Lemma cleanStep_keeps out e :
  Forall ordinary out -> byteIn "/" e = false ->
  Forall ordinary (cleanStep true out e).
Proof.
  intros Hout He. unfold cleanStep.
  destruct (String.eqb_spec e "") as [-> | H1]; [done |].
  destruct (String.eqb_spec e ".") as [-> | H2]; [done |]. simpl.
  destruct (String.eqb_spec e "..") as [-> | H3].
  - destruct out as [|top rest]; [done |].
    apply Forall_cons in Hout as [(_ & _ & Htop & _) Hrest].
    by rewrite eqb_neq_string.
  - by apply Forall_cons.
Qed.

Lemma foldl_cleanStep_keeps out es :
  Forall ordinary out -> Forall (fun e => byteIn "/" e = false) es ->
  Forall ordinary (foldl (cleanStep true) out es).
Proof.
  revert out. induction es as [|e es IH]; intros out Hout Hes; [done |].
  apply Forall_cons in Hes as [He Hes]. cbn [foldl].
  apply IH; [by apply cleanStep_keeps | done].
Qed.

Lemma foldl_cleanStep_ordinary out es :
  Forall ordinary es -> foldl (cleanStep true) out es = (rev es ++ out)%list.
Proof.
  revert out. induction es as [|e es IH]; intros out Hes; [done |].
  apply Forall_cons in Hes as [He Hes]. cbn [foldl].
  rewrite cleanStep_ordinary, IH by done. simpl. by rewrite <- app_assoc.
Qed.

Lemma Split_elems_no_sep s c :
  Forall (fun e => byteIn c e = false) (Split s c).
Proof.
  apply Forall_forall. intros e He. apply (Split_elem_no_sep s).
  by apply list_elem_of_In.
Qed.

(** [Clean] of a rooted path is a cleaned absolute path, and [Clean]
    leaves a cleaned absolute path as it is. *)
Lemma Clean_rooted p : HasPrefix p "/" = true -> cleanAbs (Clean p).
Proof.
  intros Hp. unfold Clean. rewrite Hp.
  destruct (String.eqb_spec p "") as [-> | _]; [done |].
  eexists. split; [| reflexivity].
  apply Forall_rev, foldl_cleanStep_keeps; [done |].
  apply Split_elems_no_sep.
Qed.

Lemma Split_Join_ordinary es :
  Forall ordinary es -> es <> [] -> Split (Join es "/") "/" = es.
Proof.
  intros Hes Hne. rewrite (Split_Join es "/" Hne).
  induction Hes as [|e es (_ & _ & _ & He) Hes IH]; [done |].
  cbn [flat_map]. rewrite Split_no_sep by done. simpl.
  destruct es as [|e' es]; [done |]. by rewrite IH.
Qed.

Lemma Clean_cleanAbs p : cleanAbs p -> Clean p = p.
Proof.
  intros (es & Hes & ->). unfold Clean.
  change (String.eqb ("/" +:+ Join es "/") "") with false.
  change (HasPrefix ("/" +:+ Join es "/") "/") with true. cbv iota.
  change (Split ("/" +:+ Join es "/") "/")
    with ("" :: Split (Join es "/") "/").
  cbn [foldl]. change (cleanStep true [] "") with (@nil string).
  destruct es as [|e es].
  - done.
  - rewrite Split_Join_ordinary, foldl_cleanStep_ordinary by done.
    by rewrite app_nil_r, List.rev_involutive.
Qed.

Lemma cleanAbs_IsAbs p : cleanAbs p -> IsAbs p = true.
Proof. by intros (es & _ & ->). Qed.

Lemma IsAbs_app p q : IsAbs p = true -> IsAbs (p +:+ q) = true.
Proof. unfold IsAbs. destruct p as [|c p]; [done |]. simpl. by rewrite andb_true_r. Qed.

Lemma Join2_cleanAbs a b : IsAbs a = true -> cleanAbs (Join2 a b).
Proof.
  intros Ha. unfold Join2. destruct a as [|c a]; [done |].
  change (negb (String.eqb (String c a) "")) with true. cbv iota.
  apply Clean_rooted. by apply (IsAbs_app (String c a)).
Qed.

Lemma Abs_cleanAbs cwd p : IsAbs cwd = true -> cleanAbs (Abs cwd p).
Proof.
  intros Hcwd. unfold Abs. destruct (IsAbs p) eqn:Hp.
  - by apply Clean_rooted.
  - by apply Join2_cleanAbs.
Qed.

Lemma Abs_cleanAbs_id cwd p : cleanAbs p -> Abs cwd p = p.
Proof.
  intros Hp. unfold Abs. rewrite (cleanAbs_IsAbs p Hp).
  by apply Clean_cleanAbs.
Qed.

End Paths.

Lemma chartRelPath_resolved env chartDir path defaultPath :
  Filepath.IsAbs (cwd env) = true -> cleanAbs chartDir ->
  cleanAbs (chartRelPath env chartDir path defaultPath) /\
  (Filepath.IsAbs defaultPath = false -> defaultPath <> "" ->
   chartRelPath env chartDir path defaultPath
   = if Filepath.IsAbs path then Filepath.Clean path
     else Filepath.Join2 chartDir
            (if String.eqb path "" then defaultPath else path)).
Proof.
  intros Hcwd Hchart. unfold chartRelPath. split.
  - by apply Abs_cleanAbs.
  - intros Hrel Hne. destruct (String.eqb_spec path "") as [-> | Hp].
    + change (Filepath.IsAbs "") with false. cbv iota. rewrite Hrel. simpl.
      apply Abs_cleanAbs_id, Join2_cleanAbs. by apply cleanAbs_IsAbs.
    + destruct (Filepath.IsAbs path) eqn:Habs; simpl.
      * unfold Filepath.Abs. by rewrite Habs.
      * apply Abs_cleanAbs_id, Join2_cleanAbs. by apply cleanAbs_IsAbs.
Qed.

Lemma chartRelPath_cleanAbs env chartDir path defaultPath :
  cleanAbs path -> chartRelPath env chartDir path defaultPath = path.
Proof.
  intros Hp. unfold chartRelPath. pose proof (cleanAbs_IsAbs _ Hp) as Habs.
  assert (String.eqb path "" = false) as ->.
  { destruct Hp as (es & _ & ->). done. }
  rewrite Habs. simpl. by apply Abs_cleanAbs_id.
Qed.

(** X7. [Finalize] resolves the three directories of a run. When the
    working directory is absolute, the chart, fixtures and policies
    directories come out absolute and cleaned. A fixtures or policies
    directory that was given as an absolute path is only cleaned; one
    that was given as a relative path, or not at all (then "fixtures" and
    "policies"), is taken relative to the finalized chart directory, not
    to the working directory. Finalizing again changes nothing. *)
Theorem Finalize_resolves_directories (env : Env) (o : options) :
  Filepath.IsAbs (cwd env) = true ->
  let o' := Finalize env o in
  (forall d, d ∈ [ChartDir o'; FixturesDir o'; PoliciesDir o'] ->
             Filepath.IsAbs d = true /\ Filepath.Clean d = d) /\
  ChartDir o' = Filepath.Abs (cwd env) (ChartDir o) /\
  FixturesDir o'
  = (if Filepath.IsAbs (FixturesDir o) then Filepath.Clean (FixturesDir o)
     else Filepath.Join2 (ChartDir o')
            (if String.eqb (FixturesDir o) "" then "fixtures"
             else FixturesDir o)) /\
  PoliciesDir o'
  = (if Filepath.IsAbs (PoliciesDir o) then Filepath.Clean (PoliciesDir o)
     else Filepath.Join2 (ChartDir o')
            (if String.eqb (PoliciesDir o) "" then "policies"
             else PoliciesDir o)) /\
  Finalize env o' = o'.
Proof.
  intros Hcwd o'.
  assert (cleanAbs (ChartDir o')) as Hchart by (by apply Abs_cleanAbs).
  destruct (chartRelPath_resolved env (ChartDir o') (FixturesDir o)
              "fixtures" Hcwd Hchart) as [Hfix Hfix'].
  destruct (chartRelPath_resolved env (ChartDir o') (PoliciesDir o)
              "policies" Hcwd Hchart) as [Hpol Hpol'].
  split; [| split; [done |]; split; [by apply Hfix' |];
            split; [by apply Hpol' |]].
  - intros d Hd. assert (cleanAbs d) as Hc.
    { repeat (apply elem_of_cons in Hd as [-> | Hd]; [done |]).
      by apply elem_of_nil in Hd. }
    split; [by apply cleanAbs_IsAbs | by apply Clean_cleanAbs].
  - unfold Finalize at 1. fold o'.
    rewrite (Abs_cleanAbs_id (cwd env) (ChartDir o') Hchart).
    assert (chartRelPath env (ChartDir o') (FixturesDir o') "fixtures"
            = FixturesDir o') as -> by (by apply chartRelPath_cleanAbs).
    assert (chartRelPath env (ChartDir o') (PoliciesDir o') "policies"
            = PoliciesDir o') as -> by (by apply chartRelPath_cleanAbs).
    assert ((if Z.eqb (Concurrency o') 0 then (NumCPU env * 2)%Z
             else Concurrency o') = Concurrency o') as ->.
    { destruct (Z.eqb_spec (Concurrency o') 0) as [H0 | _]; [| done].
      rewrite H0. unfold o', Finalize in H0. cbn [Concurrency] in H0.
      destruct (Z.eqb_spec (Concurrency o) 0) as [_ | Hne]; [done |].
      by rewrite H0 in Hne. }
    assert ((if negb (WriteExceptions o')
             then String.eqb (Getenv env "HELMLINT_WRITE_EXCEPTIONS") "true"
             else WriteExceptions o') = WriteExceptions o') as ->.
    { unfold o', Finalize. cbn [WriteExceptions].
      destruct (WriteExceptions o); simpl; [done |].
      by destruct (String.eqb _ "true"). }
    by destruct o'.
Qed.

Lemma Finalize_resolves_directories_witness :
  let o' := Finalize sampleEnv (WithChartDir "x/../c/." zeroOptions) in
  ChartDir o' = "/c" /\ FixturesDir o' = "/c/fixtures" /\
  Finalize sampleEnv o' = o'.
Proof.
  destruct (Finalize_resolves_directories sampleEnv
              (WithChartDir "x/../c/." zeroOptions) eq_refl)
    as (_ & Hc & Hf & _ & Hidem).
  split; [| split; [| exact Hidem]].
  - rewrite Hc. vm_compute. reflexivity.
  - rewrite Hf. vm_compute. reflexivity.
Defined.

(** ** Options *)

Section Options.

Variable env : Env.

Lemma exported_keeps (opt : Option) (o : options) :
  exported env opt ->
  Recursions o `prefix_of` Recursions (opt o) /\
  Visitors o `prefix_of` Visitors (opt o).
Proof.
  intros []; simpl; split; try done; by apply prefix_app_r.
Qed.

Lemma applyOptions_keeps (args : list Option) (o : options) :
  Forall (exported env) args ->
  Recursions o `prefix_of` Recursions (applyOptions args o) /\
  Visitors o `prefix_of` Visitors (applyOptions args o).
Proof.
  unfold applyOptions. revert o.
  induction args as [|opt args IH]; intros o Hargs; [done |].
  apply Forall_cons in Hargs as [Hopt Hargs]. cbn [foldl].
  destruct (exported_keeps opt o Hopt) as [H1 H2].
  destruct (IH (opt o) Hargs) as [H1' H2']. split; by etrans.
Qed.

End Options.

(** X8. A recursion rule is fixed when it is registered. Whatever
    exported options come after [WithRecursion] in the argument list, the
    rule keeps its place in the list of rules and its options: they are
    finalized from the chart and policies directories set by the options
    before it and from the rule's own options; a [WithPoliciesDir] or
    [WithChartDir] given later changes the run, not the rule. Rules and
    visitors registered earlier keep their order. *)
Theorem WithRecursion_fixes_the_rule (env : Env) (before after : list Option)
    (fn : RecursionFn) (ruleOpts : list Option) :
  Forall (exported env) after ->
  let o := applyOptions before zeroOptions in
  let final := applyOptions (before ++ WithRecursion env fn ruleOpts :: after)
                            zeroOptions in
  Recursions final !! length (Recursions o)
  = Some {| Fn := fn;
            Opts := Finalize env (applyOptions ruleOpts (ruleBase o)) |} /\
  Recursions o `prefix_of` Recursions final /\
  Visitors o `prefix_of` Visitors final.
Proof.
  intros Hafter o final.
  assert (final = applyOptions after (WithRecursion env fn ruleOpts o))
    as Hfinal.
  { unfold final, o, applyOptions. by rewrite foldl_app. }
  destruct (applyOptions_keeps env after (WithRecursion env fn ruleOpts o)
              Hafter) as [[rest Hr] Hv].
  rewrite <- Hfinal in Hr, Hv. cbn [WithRecursion Recursions Visitors] in Hr, Hv.
  split; [| split; [| done]].
  - rewrite Hr, <- app_assoc. cbn [app]. by apply list_lookup_middle.
  - rewrite Hr, <- app_assoc. by apply prefix_app_r.
Qed.

Lemma WithRecursion_fixes_the_rule_witness :
  PoliciesDir ∘ Opts
    <$> Recursions (applyOptions [WithChartDir "/c";
                                  WithRecursion sampleEnv writesOne [];
                                  WithPoliciesDir "/p"] zeroOptions)
  = ["/c/policies"].
Proof.
  destruct (WithRecursion_fixes_the_rule sampleEnv [WithChartDir "/c"]
              [WithPoliciesDir "/p"] writesOne []) as (Hrule & _).
  - apply Forall_cons. split; [constructor | constructor].
  - cbv zeta in Hrule. change (length _) with 0 in Hrule.
    destruct (Recursions _) as [|rule [|rule' rules]] eqn:E;
      [discriminate Hrule | | vm_compute in E; discriminate E].
    simpl in Hrule. injection Hrule as ->. vm_compute. reflexivity.
Defined.

(** ** The exception writer: what it leaves alone *)

Section ExceptionsFrame.

Lemma exceptFiles_frame chartDir
    (files : list (string * list conditionalDeclRef)) (fs : FS) (t : T) r :
  exceptFiles chartDir files fs t = Some r ->
  forall p, p ∉ (fun e => Filepath.Join2 chartDir e.1) <$> files ->
            ex_fs r !! p = fs !! p.
Proof.
  revert fs t. induction files as [|[file defs] files IH]; intros fs t.
  - simpl. by intros [= <-].
  - cbn [exceptFiles].
    destruct (ReadFile fs (Filepath.Join2 chartDir file)) as [c|] eqn:Hread.
    + destruct (forEach annotate defs (Split c LF)) as [lines'|]; [| done].
      cbn [mbind option_bind]. intros H p Hp.
      rewrite (IH _ _ H).
      * unfold WriteFile. apply lookup_insert_ne. intros <-.
        apply Hp. rewrite fmap_cons. by left.
      * intros Hin. apply Hp. rewrite fmap_cons. by right.
    + by intros [= <-].
Qed.

End ExceptionsFrame.

(** X9. Whatever the registry and the chart, a run of [injectExceptions]
    that does not panic touches only files of declarations whose token
    was not seen: every other path keeps its entry, also when the run
    ends in an error. It reports nothing through [Errorf]. With no
    uncovered declaration it writes and logs nothing and returns no
    error. *)
Theorem injectExceptions_touches_only_uncovered (range : RangeOrder) (t : T)
    (chartDir : string) (ids : Registry) (seenIDs : list string) (fs : FS)
    (r : excepted) :
  fairRange range ->
  injectExceptions range t chartDir ids seenIDs fs = Some r ->
  let uncovered := (uncoveredOf seenIDs (map_to_list ids)).*2 in
  Errors (ex_t r) = Errors t /\
  (forall p,
     (forall d, d ∈ uncovered -> Filepath.Join2 chartDir (File d) <> p) ->
     ex_fs r !! p = fs !! p) /\
  (uncovered = [] -> ex_fs r = fs /\ ex_t r = t /\ ex_err r = None).
Proof.
  intros Hfair Hr uncovered. unfold injectExceptions in Hr.
  set (files := range _ (groupByFile range ids seenIDs)) in *.
  assert (forall file defs, (file, defs) ∈ files ->
            exists d, d ∈ uncovered /\ File d = file) as Hhead.
  { intros file defs Hin.
    apply groupByFile_spec in Hin as [-> Hne]; [| done].
    pose proof (defsOf_Permutation range ids seenIDs file Hfair) as Hp.
    destruct (defsOf seenIDs (range _ ids) file) as [|d ds]; [done |].
    exists d.
    assert (d ∈ d :: ds) as Hd by (by left). rewrite Hp in Hd.
    by apply list_elem_of_filter in Hd as [? ?]. }
  pose proof (exceptFiles_frame _ _ _ _ _ Hr) as Hframe.
  split; [by eapply exceptFiles_Errors |]. split.
  - intros p Hp. apply Hframe. intros Hin.
    apply list_elem_of_fmap in Hin as ([file defs] & -> & Hin).
    destruct (Hhead _ _ Hin) as (d & Hd & Hf). cbn [fst].
    apply (Hp d Hd). by rewrite Hf.
  - intros Hnone. destruct files as [|[file defs] files'] eqn:E.
    + simpl in Hr. by injection Hr as <-.
    + destruct (Hhead file defs) as (d & Hd & _); [by left |].
      rewrite Hnone in Hd. by apply elem_of_nil in Hd.
Qed.

Lemma staleRegistry_run :
  is_Some (injectExceptions (fun V => map_to_list) (mkT [] []) "/c"
                            staleRegistry [] sampleChart).
Proof. vm_compute. eexists. reflexivity. Qed.

Lemma injectExceptions_touches_only_uncovered_witness :
  exists r,
    injectExceptions (fun V => map_to_list) (mkT [] []) "/c" staleRegistry []
                     sampleChart = Some r /\
    Errors (ex_t r) = [] /\
    ex_fs r !! "/c/templates/a.yaml" = sampleChart !! "/c/templates/a.yaml".
Proof.
  destruct staleRegistry_run as [r E].
  destruct (injectExceptions_touches_only_uncovered _ _ _ _ _ _ r
              (fun V m => reflexivity _) E) as (HE & Hframe & _).
  exists r. split; [exact E |]. split; [exact HE |].
  apply Hframe. intros d Hd.
  assert ((uncoveredOf [] (map_to_list staleRegistry)).*2
          = [{| File := "templates/gone.yaml"; Line := 0;
                Expr := "{{ if a }}" |}]) as Hu by (vm_compute; reflexivity).
  rewrite Hu in Hd. apply list_elem_of_singleton in Hd. subst d.
  vm_compute. intros H. discriminate H.
Defined.

(** ** Where a run writes *)

Section PathsInside.

Import Filepath.

Implicit Types (es more : list string) (e p : string).

Lemma Join_app es more :
  es <> [] -> more <> [] ->
  Join (es ++ more) "/" = Join es "/" +:+ "/" +:+ Join more "/".
Proof.
  intros Hes Hmore. induction es as [|e es IH]; [done |].
  destruct es as [|e' es].
  - simpl. destruct more; [done |]. done.
  - change ((e :: e' :: es) ++ more)%list with (e :: (e' :: es) ++ more)%list.
    rewrite Join_cons by done. rewrite IH by done.
    rewrite (Join_cons e (e' :: es)) by done.
    by rewrite !append_assoc.
Qed.

Lemma absPath_cleanAbs es : Forall ordinary es -> cleanAbs (absPath es).
Proof. intros H. by exists es. Qed.

Lemma absPath_below es more :
  es <> [] -> more <> [] -> below (absPath es) (absPath (es ++ more)) = true.
Proof.
  intros Hes Hmore. unfold below, absPath. rewrite Join_app by done.
  assert ("/" +:+ Join es "/" +:+ "/" +:+ Join more "/"
          = (("/" +:+ Join es "/") +:+ "/") +:+ Join more "/") as ->
    by (by rewrite !append_assoc).
  apply HasPrefix_app.
Qed.

Lemma below_trans a b p :
  below a b = true -> below b p = true -> below a p = true.
Proof.
  unfold below. intros [r ->]%HasPrefix_inv [r' ->]%HasPrefix_inv.
  apply HasPrefix_spec. exists (r +:+ "/" +:+ r'). by rewrite !append_assoc.
Qed.

Lemma outside_below dir o p :
  o = dir \/ below dir o = true -> outside dir p ->
  p <> o /\ below o p = false.
Proof.
  intros Ho [Hne Hb]. split.
  - intros ->. destruct Ho as [-> | Ho]; [done |]. by rewrite Ho in Hb.
  - destruct (below o p) eqn:E; [| done].
    destruct Ho as [-> | Ho]; [by rewrite E in Hb |].
    by rewrite (below_trans dir o p Ho E) in Hb.
Qed.

(** [Join(a, e)] for a cleaned absolute path [a] that is not the root and
    one element [e]. *)
Lemma Join2_elem es e :
  Forall ordinary es -> es <> [] -> byteIn "/" e = false ->
  Join2 (absPath es) e = absPath (rev (cleanStep true (rev es) e)).
Proof.
  intros Hes Hne He. unfold Join2, absPath.
  change (negb (String.eqb ("/" +:+ Join es "/") "")) with true. cbv iota.
  unfold Clean.
  change (String.eqb (("/" +:+ Join es "/") +:+ "/" +:+ e) "") with false.
  change (HasPrefix (("/" +:+ Join es "/") +:+ "/" +:+ e) "/") with true.
  cbv iota.
  change (("/" +:+ Join es "/") +:+ "/" +:+ e)
    with (String "/" (Join es "/" +:+ String "/" e)).
  change (Split (String "/" (Join es "/" +:+ String "/" e)) "/")
    with ("" :: Split (Join es "/" +:+ String "/" e) "/").
  rewrite Split_app_sep, Split_Join_ordinary, (Split_no_sep e) by done.
  cbn [foldl]. change (cleanStep true [] "") with (@nil string).
  rewrite foldl_app, (foldl_cleanStep_ordinary [] es) by done.
  by rewrite app_nil_r.
Qed.

Lemma Join2_ordinary es e :
  Forall ordinary es -> es <> [] -> ordinary e ->
  Join2 (absPath es) e = absPath (es ++ [e]).
Proof.
  intros Hes Hne He. rewrite Join2_elem; [| done | done | apply He].
  rewrite cleanStep_ordinary by done. simpl.
  by rewrite List.rev_involutive.
Qed.

(** The path [Join] gives is the path itself, its parent or a child. *)
Lemma Join2_elem_inside es e :
  Forall ordinary es -> es <> [] -> byteIn "/" e = false ->
  exists es', Forall ordinary es' /\ Join2 (absPath es) e = absPath es' /\
    (es' = (es ++ [e])%list \/ es' = es \/
     exists l, es = (es' ++ [l])%list).
Proof.
  intros Hes Hne He. rewrite Join2_elem by done.
  assert (Forall ordinary (rev es)) as Hrev by (by apply Forall_rev).
  pose proof (cleanStep_keeps (rev es) e Hrev He) as Hkeep.
  exists (rev (cleanStep true (rev es) e)).
  split; [by apply Forall_rev |]. split; [done |].
  unfold cleanStep in *.
  destruct (String.eqb e "" || String.eqb e ".").
  { right. left. by rewrite List.rev_involutive. }
  destruct (String.eqb e "..").
  - destruct (rev es) as [|top rest] eqn:E.
    + right. left. by rewrite <- E, List.rev_involutive.
    + apply Forall_cons in Hrev as [(_ & _ & Htop & _) _].
      rewrite (eqb_neq_string top "..") by done.
      right. right. exists top.
      rewrite <- (List.rev_involutive es), E. done.
  - left. simpl. by rewrite List.rev_involutive.
Qed.

Lemma filter_ordinary es :
  Forall ordinary es -> filter (fun e => e <> "") es = es.
Proof.
  induction es as [|x xs IH]; [done |]. intros Hes.
  apply Forall_cons in Hes as [(Hx & _) Hxs].
  rewrite filter_cons, decide_True by done. by rewrite IH.
Qed.

Lemma Base_absPath es l :
  Forall ordinary (es ++ [l]) -> Base (absPath (es ++ [l])) = l.
Proof.
  intros Hes. unfold Base, absPath.
  change (String.eqb ("/" +:+ Join (es ++ [l]) "/") "") with false.
  cbv iota.
  change (Split ("/" +:+ Join (es ++ [l]) "/") "/")
    with ("" :: Split (Join (es ++ [l]) "/") "/").
  rewrite Split_Join_ordinary; [| done | by destruct es].
  rewrite filter_cons, decide_False by (by intros H; apply H).
  rewrite filter_ordinary by done. by rewrite rev_app_distr.
Qed.

End PathsInside.

Section StageFrames.

Import Filepath.

Lemma cp_r_frame (fs fs' : FS) src dst :
  cp_r fs src dst = Some fs' ->
  forall p, p <> dst -> below dst p = false -> fs' !! p = fs !! p.
Proof.
  unfold cp_r. destruct (fs !! src) as [n|]; [| done]. intros [= <-] p Hp Hb.
  assert (Forall (fun e : string * node => below src e.1 = true)
                 (Walk fs src)) as Hwalk.
  { apply Forall_forall. intros e He. unfold Walk in He.
    by apply list_elem_of_filter in He as [? _]. }
  induction Hwalk as [|e es He Hes IH]; simpl.
  - by rewrite lookup_insert_ne.
  - rewrite lookup_insert_ne; [exact IH |]. intros <-.
    apply below_inv in He. rewrite He in Hb.
    rewrite from_app in Hb. unfold below in Hb.
    assert (dst +:+ "/" +:+ relPath src e.1
            = (dst +:+ "/") +:+ relPath src e.1) as Heq
      by (by rewrite append_assoc).
    rewrite Heq, HasPrefix_app in Hb. done.
Qed.

Lemma injectTask_frame uuid dir path (st st' : injected) :
  injectTask uuid dir path st = Some st' ->
  forall p, p <> path -> ic_fs st' !! p = ic_fs st !! p.
Proof.
  unfold injectTask. destruct (ReadFile (ic_fs st) path) as [content|].
  - destruct (rangeLoop _ _ _ _) as [r|]; [| done]. cbn [mbind option_bind].
    intros [= <-] p Hp. cbn [ic_fs]. unfold WriteFile.
    by rewrite lookup_insert_ne.
  - by intros [= <-].
Qed.

Lemma forEach_injectTask_frame uuid dir (es : list (string * node))
    (st r : injected) :
  Forall (fun e : string * node => below dir e.1 = true) es ->
  forEach (fun e st => if notYaml e then Some st
                       else injectTask uuid dir e.1 st) es st = Some r ->
  forall p, below dir p = false -> ic_fs r !! p = ic_fs st !! p.
Proof.
  intros Hes. revert st. induction Hes as [|e es He Hes IH]; intros st.
  - simpl. by intros [= <-].
  - cbn [forEach]. destruct (notYaml e).
    + cbn [mbind option_bind]. apply IH.
    + destruct (injectTask uuid dir e.1 st) as [st1|] eqn:E; [| done].
      cbn [mbind option_bind]. intros H p Hp.
      rewrite (IH st1 H p Hp). apply (injectTask_frame _ _ _ _ _ E).
      intros ->. by rewrite He in Hp.
Qed.

Lemma injectComments_frame uuid dir (fs : FS) drawn r :
  injectComments uuid dir fs drawn = Some r ->
  forall p, below dir p = false -> ic_fs r !! p = fs !! p.
Proof.
  unfold injectComments. intros H p Hp.
  assert (Forall (fun e : string * node => below dir e.1 = true)
                 (Walk fs dir)) as Hwalk.
  { apply Forall_forall. intros e He. unfold Walk in He.
    by apply list_elem_of_filter in He as [? _]. }
  by rewrite (forEach_injectTask_frame _ _ _ _ _ Hwalk H p Hp).
Qed.

End StageFrames.
Section InsideTempDir.

Import Filepath.

Variable env : Env.
Variable es : list string.
Hypothesis es_ordinary : Forall ordinary es.
Hypothesis es_nonempty : es <> [].

(** What the commands and the callbacks of the run may write. *)
Hypothesis helm_writes_output :
  forall fs o f c, properDir o -> writesWithin o fs (helm env fs o f c).1.

Lemma Contains_byte (s : string) c : Contains s (String c "") = byteIn c s.
Proof.
  induction s as [|d s IH]; [done |]. simpl.
  by rewrite IH, andb_true_r, Ascii.eqb_sym.
Qed.

Lemma byteIn_upto c n (s : string) :
  byteIn c s = false -> byteIn c (upto n s) = false.
Proof.
  revert s. induction n as [|n IH]; intros [|d s]; simpl; try done.
  intros [H1 H2]%orb_false_iff. by rewrite H1, IH.
Qed.

Lemma ReadDir_names (fs : FS) d entries :
  ReadDir fs d = Some entries ->
  forall e, e ∈ entries -> byteIn "/" e.1 = false.
Proof.
  unfold ReadDir. destruct (fs !! d) as [[|c]|]; [| done | done].
  intros [= <-] e He. rewrite merge_sort_Permutation in He.
  apply list_elem_of_omap in He as (x & _ & Hx).
  destruct (below d x.1 && negb (Contains (from (String.length d + 1) x.1) "/"))
    eqn:E; [| done].
  injection Hx as <-. cbn [fst].
  apply andb_true_iff in E as [_ E]. apply negb_true_iff in E.
  by rewrite <- Contains_byte.
Qed.

Lemma fmt_d_no_slash n : byteIn "/" (fmt_d n) = false.
Proof.
  unfold fmt_d. induction (Nat.to_uint n) as [|u IH|u IH|u IH|u IH|u IH|u IH
                                               |u IH|u IH|u IH|u IH];
    simpl; by rewrite ?IH.
Qed.

Lemma ordinary_recursion_name l i :
  byteIn "/" l = false -> ordinary (l +:+ "-recursion-" +:+ fmt_d i).
Proof.
  intros Hl.
  assert (11 <= String.length (l +:+ "-recursion-" +:+ fmt_d i)) as Hlen.
  { rewrite !length_append. simpl. lia. }
  repeat split.
  - intros H. rewrite H in Hlen. simpl in Hlen. lia.
  - intros H. rewrite H in Hlen. simpl in Hlen. lia.
  - intros H. rewrite H in Hlen. simpl in Hlen. lia.
  - by rewrite !byteIn_app, Hl, fmt_d_no_slash.
Qed.

Lemma ordinary_literals :
  ordinary "chart" /\ ordinary "results" /\ ordinary "recursions".
Proof. by repeat split. Qed.

Lemma within_inside p :
  withinDir es p -> p = absPath es \/ below (absPath es) p = true.
Proof.
  intros (es' & _ & _ & -> & [-> | (more & Hm & ->)]); [by left |].
  right. by apply absPath_below.
Qed.

Lemma within_outside o p :
  withinDir es o -> outside (absPath es) p -> outside o p.
Proof. intros Ho. apply outside_below. by apply within_inside. Qed.

Lemma within_proper d : withinDir es d -> properDir d.
Proof.
  intros (es' & Hes' & Hne & -> & _). split; [by apply absPath_cleanAbs |].
  destruct Hes' as [|e es' (He & _) _]; [done |].
  unfold absPath. intros H. injection H as H.
  destruct es' as [|e' es']; simpl in H.
  - done.
  - by destruct e.
Qed.

Lemma outputPath_within name :
  byteIn "/" name = false ->
  withinDir es (outputPathOf (Join2 (absPath es) "results") name).
Proof.
  intros Hname. destruct ordinary_literals as (_ & Hres & _).
  unfold outputPathOf. rewrite Join2_ordinary by done.
  destruct (Join2_elem_inside (es ++ ["results"])
              (upto (String.length name - String.length ".yaml") name))
    as (es' & Hes' & -> & Hcase).
  { apply Forall_app. split; [done |]. by apply Forall_singleton. }
  { by destruct es. }
  { by apply byteIn_upto. }
  exists es'. split; [done |].
  destruct Hcase as [-> | [-> | [l Heq]]].
  - split; [by destruct es |]. split; [done |]. right.
    eexists. split; [| by rewrite <- app_assoc]. done.
  - split; [by destruct es |]. split; [done |]. right.
    by exists ["results"].
  - apply app_inj_tail in Heq as [<- _]. by repeat split; auto.
Qed.

Lemma target_within d i :
  withinDir es d ->
  withinDir es (targetOf (Join2 (absPath es) "recursions") d i).
Proof.
  intros (es' & Hes' & Hne & -> & _).
  destruct ordinary_literals as (_ & _ & Hrec).
  destruct es' as [|x xs] using rev_ind; [done |]. clear IHxs.
  unfold targetOf. rewrite Base_absPath by done.
  destruct (proj1 (Forall_app ordinary xs [x]) Hes') as [_ Hx].
  pose proof (proj1 (Forall_singleton ordinary x) Hx) as Hx'.
  pose proof (ordinary_recursion_name x i ltac:(apply Hx')) as Hname.
  rewrite Join2_ordinary by done.
  rewrite Join2_ordinary; [| | by destruct es | done].
  2: { apply Forall_app. split; [done |]. by apply Forall_singleton. }
  eexists. split; [| split; [| split; [reflexivity |]]].
  - rewrite !Forall_app. split; [split; [done |] |]; by apply Forall_singleton.
  - by destruct es.
  - right. eexists. split; [| by rewrite <- app_assoc]. done.
Qed.


Lemma foldl_renderOne_frame fixturesDir chartDir
    (fixtures : list (string * node)) (st : world * error) p :
  Forall (fun e : string * node => byteIn "/" e.1 = false) fixtures ->
  outside (absPath es) p ->
  w_fs (foldl (renderOne env fixturesDir chartDir
                 (Join2 (absPath es) "results")) st fixtures).1 !! p
  = w_fs st.1 !! p.
Proof.
  intros Hfix Hp. revert st.
  induction Hfix as [|f fixtures Hf Hfix IH]; intros st; [done |].
  cbn [foldl]. rewrite IH. unfold renderOne.
  pose proof (helm_writes_output (w_fs st.1)
                (outputPathOf (Join2 (absPath es) "results") f.1)
                (Join2 fixturesDir f.1) chartDir
                (within_proper _ (outputPath_within f.1 Hf)) p
                (within_outside _ p (outputPath_within f.1 Hf) Hp)) as Hh.
  destruct (helm env _ _ _ _) as [fs [out err]]. by cbn [fst snd w_event w_fs].
Qed.

Lemma renderChart_frame opts chartDir w :
  match renderChart env opts chartDir (Join2 (absPath es) "results") w with
  | Continue (w', dirs) =>
      (forall p, outside (absPath es) p -> w_fs w' !! p = w_fs w !! p) /\
      Forall (withinDir es) dirs
  | Fatal w' _ =>
      forall p, outside (absPath es) p -> w_fs w' !! p = w_fs w !! p
  | Panic => True
  end.
Proof.
  unfold renderChart.
  destruct (ReadDir (w_fs w) (FixturesDir opts)) as [entries|] eqn:Hdir;
    [| done].
  set (fixtures := filter (fun e => isFixture e = true) entries).
  assert (Forall (fun e : string * node => byteIn "/" e.1 = false) fixtures)
    as Hnames.
  { apply Forall_forall. intros e He. unfold fixtures in He.
    apply list_elem_of_filter in He as [_ He].
    by apply (ReadDir_names _ _ _ Hdir). }
  pose proof (fun p => foldl_renderOne_frame (FixturesDir opts) chartDir
                         fixtures (w, None) p Hnames) as Hfs.
  destruct (foldl _ _ _) as [w1 err]. cbn [fst] in Hfs.
  destruct err as [e|]; [done |]. split; [done |].
  apply Forall_forall. intros d Hd.
  apply list_elem_of_In, in_map_iff in Hd as (f & <- & Hf).
  apply outputPath_within.
  apply (proj1 (Forall_forall _ _) Hnames). by apply list_elem_of_In.
Qed.

Lemma recurse_frame (rule : recursionRule) d i w p :
  (forall d t fs, properDir t -> writesWithin t fs (Fn rule d t fs).1) ->
  withinDir es d -> outside (absPath es) p ->
  w_fs (recurse env (Join2 (absPath es) "recursions") d w (i, rule)) !! p
  = w_fs w !! p.
Proof.
  intros Hfn Hd Hp. unfold recurse. cbn [fst snd].
  fold (targetOf (Join2 (absPath es) "recursions") d i).
  set (target := targetOf (Join2 (absPath es) "recursions") d i).
  destruct (within_outside target p (target_within d i Hd) Hp) as [Hne Hb].
  unfold MkdirAll.
  assert (w_fs (recursionTask env i rule d target
                  {| w_fs := <[target := Directory]> (w_fs w);
                     w_t := w_t w; w_trace := w_trace w |}) !! p
          = w_fs w !! p) as Htask.
  { unfold recursionTask. cbn [w_fs].
    pose proof (Hfn d target (<[target := Directory]> (w_fs w))
                  (within_proper _ (target_within d i Hd)) p
                  (conj Hne Hb)) as Hw.
    destruct (Fn rule d target _) as [fs [e|]]; cbn [fst] in Hw.
    - unfold w_Errorf, w_event. cbn [w_fs]. rewrite Hw.
      by apply lookup_insert_ne.
    - destruct (Nat.eqb _ 0).
      + unfold w_event. cbn [w_fs]. rewrite Hw. by apply lookup_insert_ne.
      + destruct (runConftest_trace env (PoliciesDir (Opts rule)) target
                    {| w_fs := fs; w_t := w_t w;
                       w_trace := w_trace w ++ [Extract i d target] |})
          as [_ Hc].
        unfold w_event in *. cbn [w_fs w_t w_trace] in *. rewrite Hc, Hw.
        by apply lookup_insert_ne. }
  destruct (w_fs w !! target) as [[|c]|]; done.
Qed.

Lemma visit_frame (fn : VisitorFn) d i w p :
  (forall d fs, properDir d -> writesWithin d fs (fn d fs).2) ->
  withinDir es d -> outside (absPath es) p ->
  w_fs (visit d w (i, fn)) !! p = w_fs w !! p.
Proof.
  intros Hfn Hd Hp. unfold visit. cbn [snd fst].
  specialize (Hfn d (w_fs w) (within_proper d Hd) p
                (within_outside d p Hd Hp)).
  by destruct (fn d (w_fs w)) as [[logs errors] fs].
Qed.

Lemma foldl_frame {A : Type} (f : world -> A -> world) (l : list A) w p :
  (forall w a, a ∈ l -> w_fs (f w a) !! p = w_fs w !! p) ->
  w_fs (foldl f w l) !! p = w_fs w !! p.
Proof.
  revert w. induction l as [|a l IH]; intros w H; [done |].
  cbn [foldl]. rewrite IH.
  - apply H. by left.
  - intros w' a' Ha. apply H. by right.
Qed.

Lemma walkRenderedChart_frame opts (dirs : list string) w p :
  (forall fn d fs, fn ∈ Visitors opts ->
     properDir d -> writesWithin d fs (fn d fs).2) ->
  (forall rule d t fs, rule ∈ Recursions opts ->
     properDir t -> writesWithin t fs (Fn rule d t fs).1) ->
  Forall (withinDir es) dirs -> outside (absPath es) p ->
  w_fs (walkRenderedChart env opts (absPath es) dirs w) !! p = w_fs w !! p.
Proof.
  intros Hvis Hrec Hdirs Hp. unfold walkRenderedChart.
  apply foldl_frame. intros w0 d Hd. unfold walkDir.
  pose proof (proj1 (Forall_forall _ _) Hdirs d Hd) as Hwithin.
  rewrite foldl_frame.
  - rewrite foldl_frame.
    + by destruct (runConftest_trace env (PoliciesDir opts) d w0) as [_ ->].
    + intros w1 [i fn] Hin. apply visit_frame; [| done | done].
      intros d' fs. apply Hvis.
      apply elem_of_lookup_imap in Hin as (j & y & [= _ ->] & Hy).
      by eapply list_elem_of_lookup_2.
  - intros w1 [i rule] Hin. apply recurse_frame; [| done | done].
    intros d' t fs. apply Hrec.
    apply elem_of_lookup_imap in Hin as (j & y & [= _ ->] & Hy).
    by eapply list_elem_of_lookup_2.
Qed.


Lemma chart_within : withinDir es (Join2 (absPath es) "chart").
Proof.
  destruct ordinary_literals as (Hc & _ & _).
  rewrite Join2_ordinary by done.
  exists (es ++ ["chart"])%list. split; [| split; [| split; [done |]]].
  - apply Forall_app. split; [done |]. by apply Forall_singleton.
  - by destruct es.
  - right. by exists ["chart"].
Qed.

Lemma discoverComments_fs dir (fs : FS) :
  dc_fs (discoverComments dir fs) = fs.
Proof.
  destruct (discoverComments_walk dir fs) as [-> _].
  assert (forall (l : list (string * node)) st,
            dc_fs (foldl (fun st e => if notYaml e then st
                                      else discoverTask e.1 st) st l)
            = dc_fs st) as H.
  { induction l as [|e l IH]; intros st; [done |]. cbn [foldl]. rewrite IH.
    destruct (notYaml e); [done |]. unfold discoverTask.
    by destruct (dc_fs st !! e.1) as [[|c]|]. }
  by rewrite H.
Qed.

Variable args : list Option.
Variable w : world.

Hypothesis temp_dir : MkdirTemp env (w_fs w) = absPath es.
Hypothesis verifying :
  WriteExceptions (Finalize env (applyOptions args zeroOptions)) = false.
Hypothesis visitors_write_dir :
  forall fn d fs,
    fn ∈ Visitors (Finalize env (applyOptions args zeroOptions)) ->
    properDir d -> writesWithin d fs (fn d fs).2.
Hypothesis rules_write_target :
  forall rule d t fs,
    rule ∈ Recursions (Finalize env (applyOptions args zeroOptions)) ->
    properDir t -> writesWithin t fs (Fn rule d t fs).1.

Lemma andThen_confined opts (o : outcome frame) k :
  confinedRun es opts (w_fs w) o ->
  (forall f, confined es opts (w_fs w) f ->
             confinedRun es opts (w_fs w) (k f)) ->
  confinedRun es opts (w_fs w) (andThen o k).
Proof. intros Ho Hk. destruct o as [f | w' msg |]; [by apply Hk | done..]. Qed.

Lemma setup_confined drawn :
  confinedRun es (Finalize env (applyOptions args zeroOptions)) (w_fs w)
              (setup env args w drawn).
Proof.
  unfold setup. rewrite temp_dir.
  assert (forall p, outside (absPath es) p ->
            <[absPath es := Directory]> (w_fs w) !! p = w_fs w !! p) as Hmk.
  { intros p [Hne _]. by apply lookup_insert_ne. }
  destruct (cp_r _ _ _) as [fs'|] eqn:Hcp; cbn [confinedRun w_fs].
  - repeat split; cbn [fr_dir fr_chartDir fr_opts fr_outputDirs fr_world w_fs];
      try done.
    intros p Hp.
    destruct (within_outside _ p chart_within Hp) as [Hne Hb].
    rewrite (cp_r_frame _ _ _ _ Hcp p Hne Hb). by apply Hmk.
  - done.
Qed.

Lemma instrument_confined opts f :
  confined es opts (w_fs w) f ->
  confinedRun es opts (w_fs w) (instrument env f).
Proof.
  intros (Hdir & Hchart & Hopts & Hout & Hfs). unfold instrument.
  destruct (injectComments _ _ _ _) as [r|] eqn:Hinj; [| done].
  assert (forall p, outside (absPath es) p -> ic_fs r !! p = w_fs w !! p)
    as Hkeep.
  { intros p Hp. rewrite <- (Hfs p Hp).
    apply (injectComments_frame _ _ _ _ _ Hinj). rewrite Hchart.
    by destruct (within_outside _ p chart_within Hp). }
  destruct (ic_err r); cbn [confinedRun w_fs]; [done |].
  by repeat split.
Qed.

Lemma render_confined opts f :
  confined es opts (w_fs w) f ->
  confinedRun es opts (w_fs w) (render env f).
Proof.
  intros (Hdir & Hchart & Hopts & Hout & Hfs). unfold render. rewrite Hdir.
  pose proof (renderChart_frame (fr_opts f) (fr_chartDir f) (fr_world f))
    as H.
  destruct (renderChart _ _ _ _ _) as [[w' dirs] | w' msg |];
    cbn [andThen confinedRun]; [| | done].
  - destruct H as [Hkeep Hdirs].
    repeat split;
      cbn [fr_dir fr_chartDir fr_opts fr_outputDirs fr_world fst snd];
      try done.
    intros p Hp. by rewrite Hkeep, Hfs.
  - intros p Hp. by rewrite H, Hfs.
Qed.

Lemma scan_confined opts f :
  confined es opts (w_fs w) f -> confinedRun es opts (w_fs w) (scan f).
Proof.
  intros (Hdir & Hchart & Hopts & Hout & Hfs). unfold scan.
  cbn [confinedRun].
  repeat split;
    cbn [fr_dir fr_chartDir fr_opts fr_outputDirs fr_world]; try done.
  intros p Hp. rewrite <- (Hfs p Hp).
  destruct (dc_err _); unfold w_Errorf; cbn [w_fs];
    by rewrite discoverComments_fs.
Qed.

Lemma reconcile_confined f :
  confined es (Finalize env (applyOptions args zeroOptions)) (w_fs w) f ->
  confinedRun es (Finalize env (applyOptions args zeroOptions)) (w_fs w)
              (reconcile env f).
Proof.
  intros (Hdir & Hchart & Hopts & Hout & Hfs). unfold reconcile.
  rewrite Hopts, verifying. cbn [confinedRun].
  by repeat split.
Qed.

Lemma policies_confined f :
  confined es (Finalize env (applyOptions args zeroOptions)) (w_fs w) f ->
  confinedRun es (Finalize env (applyOptions args zeroOptions)) (w_fs w)
              (policies env f).
Proof.
  intros (Hdir & Hchart & Hopts & Hout & Hfs). unfold policies.
  cbn [confinedRun].
  repeat split;
    cbn [fr_dir fr_chartDir fr_opts fr_outputDirs fr_world]; try done.
  intros p Hp. rewrite <- (Hfs p Hp), Hdir, Hopts.
  by apply walkRenderedChart_frame.
Qed.

Lemma Lint_confined drawn :
  confinedRun es (Finalize env (applyOptions args zeroOptions)) (w_fs w)
              (Lint env args w drawn).
Proof.
  unfold Lint, laterStages. cbn [foldl].
  repeat apply andThen_confined.
  - apply setup_confined.
  - apply instrument_confined.
  - apply render_confined.
  - apply scan_confined.
  - apply reconcile_confined.
  - apply policies_confined.
Qed.

Lemma Lint_frame drawn w' p :
  finalWorld (Lint env args w drawn) = Some w' ->
  outside (absPath es) p -> w_fs w' !! p = w_fs w !! p.
Proof.
  intros Hrun Hp. pose proof (Lint_confined drawn) as H.
  destruct (Lint env args w drawn) as [f | w1 msg |]; cbn in Hrun, H.
  - injection Hrun as <-. by apply H.
  - injection Hrun as <-. by apply H.
  - discriminate Hrun.
Qed.

End InsideTempDir.

Lemma properDir_absPath d :
  properDir d -> exists es, Forall ordinary es /\ es <> [] /\ d = absPath es.
Proof.
  intros [(es & Hes & ->) Hroot]. exists es. split; [done |].
  split; [| done]. by intros ->.
Qed.

(** X10. A run that verifies coverage writes only inside its temporary
    directory. When [os.MkdirTemp] gives a cleaned absolute path other
    than the root, the run does not write exceptions, and [helm
    template], every visitor and every extraction function, handed such
    a directory, write only at or below it, then whatever way [Lint]
    ends (returning, or stopped by [Fatalf]) every path that is neither
    the temporary directory nor below it holds what it held before: the
    chart, its fixtures and its policies are left as they were. *)
Theorem Lint_writes_inside_tempdir (env : Env) (args : list Option)
    (w : world) (drawn : nat) :
  let opts := Finalize env (applyOptions args zeroOptions) in
  let dir := MkdirTemp env (w_fs w) in
  properDir dir ->
  WriteExceptions opts = false ->
  (forall fs o f c, properDir o -> writesWithin o fs (helm env fs o f c).1) ->
  (forall fn d fs, fn ∈ Visitors opts ->
     properDir d -> writesWithin d fs (fn d fs).2) ->
  (forall rule d t fs, rule ∈ Recursions opts ->
     properDir t -> writesWithin t fs (Fn rule d t fs).1) ->
  forall w', finalWorld (Lint env args w drawn) = Some w' ->
  writesWithin dir (w_fs w) (w_fs w').
Proof.
  intros opts dir Hdir Hver Hhelm Hvis Hrules w' Hrun p Hp.
  destruct (properDir_absPath dir Hdir) as (es & Hes & Hne & Heq).
  rewrite Heq in Hp.
  by apply (Lint_frame env es Hes Hne Hhelm args w Heq Hver Hvis Hrules
              drawn w' p).
Qed.

Section CleanUp.

Lemma insert_below_frame (fs : FS) t name n :
  writesWithin t fs (<[t +:+ String "/" name := n]> fs).
Proof.
  intros p [_ Hb]. apply lookup_insert_ne. intros <-.
  assert (below t (t +:+ String "/" name) = true) as H; [| congruence].
  unfold below. apply HasPrefix_spec. exists name.
  by rewrite append_assoc.
Qed.

Lemma RemoveAll_lookup (fs : FS) dir p :
  RemoveAll fs dir !! p
  = if String.eqb p dir || below dir p then None else fs !! p.
Proof.
  unfold RemoveAll. rewrite map_lookup_filter.
  destruct (fs !! p) as [n|] eqn:Hp; cbn.
  - destruct (String.eqb p dir), (below dir p); cbn; by rewrite ?Hp.
  - by destruct (String.eqb p dir || below dir p).
Qed.

Lemma sampleArgs_run :
  match finalWorld (Lint sampleEnv sampleArgs sampleWorld 0) with
  | Some w' => w_fs w' !! "/tmp/1/results/a/seen" = Some (Regular "")
  | None => False
  end.
Proof. vm_compute. reflexivity. Qed.

Lemma sampleArgs_options :
  Visitors (Finalize sampleEnv (applyOptions sampleArgs zeroOptions))
  = [marksDir] /\
  Fn <$> Recursions (Finalize sampleEnv (applyOptions sampleArgs zeroOptions))
  = [writesOne] /\
  WriteExceptions (Finalize sampleEnv (applyOptions sampleArgs zeroOptions))
  = false /\
  Preserve (Finalize sampleEnv (applyOptions sampleArgs zeroOptions)) = false.
Proof. vm_compute. repeat split; reflexivity. Qed.

Lemma sampleArgs_confined :
  let opts := Finalize sampleEnv (applyOptions sampleArgs zeroOptions) in
  properDir (MkdirTemp sampleEnv sampleProject) /\
  (forall fs o f c,
     properDir o -> writesWithin o fs (helm sampleEnv fs o f c).1) /\
  (forall fn d fs, fn ∈ Visitors opts ->
     properDir d -> writesWithin d fs (fn d fs).2) /\
  (forall rule d t fs, rule ∈ Recursions opts ->
     properDir t -> writesWithin t fs (Fn rule d t fs).1).
Proof.
  intros opts. destruct sampleArgs_options as (Hvis & Hrules & _).
  fold opts in Hvis, Hrules. split; [| split; [done | split]].
  - split; [| discriminate]. exists ["tmp"; "1"].
    split; [| reflexivity]. repeat constructor; discriminate.
  - intros fn d fs Hin _. rewrite Hvis in Hin.
    apply list_elem_of_singleton in Hin as ->.
    apply insert_below_frame.
  - intros rule d t fs Hin _.
    assert (Fn rule ∈ Fn <$> Recursions opts) as Hfn
      by by apply list_elem_of_fmap_2.
    rewrite Hrules in Hfn. apply list_elem_of_singleton in Hfn as ->.
    apply insert_below_frame.
Qed.

Lemma sampleProject_fresh p :
  p = "/tmp/1" \/ below "/tmp/1" p = true -> sampleProject !! p = None.
Proof.
  intros Hp. destruct (sampleProject !! p) as [n|] eqn:Hin; [| done].
  apply elem_of_map_to_list in Hin.
  assert (Forall (fun e : string * node =>
                    e.1 <> "/tmp/1" /\ below "/tmp/1" e.1 = false)
                 (map_to_list sampleProject)) as Hall.
  { vm_compute. repeat constructor; discriminate. }
  destruct (proj1 (Forall_forall _ _) Hall _ Hin) as [Hne Hb].
  cbn [fst] in Hne, Hb. destruct Hp as [-> | Hp]; congruence.
Qed.

End CleanUp.

Lemma Lint_writes_inside_tempdir_witness :
  exists w',
    finalWorld (Lint sampleEnv sampleArgs sampleWorld 0) = Some w' /\
    w_fs w' !! "/tmp/1/results/a/seen" = Some (Regular "") /\
    w_fs w' !! "/c/templates/a.yaml" = sampleProject !! "/c/templates/a.yaml".
Proof.
  pose proof sampleArgs_run as Hrun.
  destruct (finalWorld (Lint sampleEnv sampleArgs sampleWorld 0))
    as [w'|] eqn:E; [| destruct Hrun].
  exists w'. split; [reflexivity |]. split; [exact Hrun |].
  destruct sampleArgs_options as (_ & _ & Hver & _).
  destruct sampleArgs_confined as (Hdir & Hhelm & Hvis & Hrules).
  apply (Lint_writes_inside_tempdir sampleEnv sampleArgs sampleWorld 0
           Hdir Hver Hhelm Hvis Hrules w' E).
  split; [discriminate | reflexivity].
Defined.

(** X11. A test that verifies coverage leaves the file system as it
    found it. Under the conditions of a confined run (a cleaned
    temporary directory, no exceptions written, [helm], visitors and
    extraction functions that write only at or below the directory they
    are handed), when the run is not asked to preserve its directory and
    nothing existed at or below that directory before, the file system
    after [Lint] and the clean-up it registered is the one the test
    started with, whether [Lint] returned or was stopped by [Fatalf]. *)
Theorem LintTest_restores_the_file_system (env : Env) (args : list Option)
    (w : world) (drawn : nat) :
  let opts := Finalize env (applyOptions args zeroOptions) in
  let dir := MkdirTemp env (w_fs w) in
  properDir dir ->
  WriteExceptions opts = false ->
  Preserve opts = false ->
  (forall p, p = dir \/ below dir p = true -> w_fs w !! p = None) ->
  (forall fs o f c, properDir o -> writesWithin o fs (helm env fs o f c).1) ->
  (forall fn d fs, fn ∈ Visitors opts ->
     properDir d -> writesWithin d fs (fn d fs).2) ->
  (forall rule d t fs, rule ∈ Recursions opts ->
     properDir t -> writesWithin t fs (Fn rule d t fs).1) ->
  forall w', LintTest env args w drawn = Some w' -> w_fs w' = w_fs w.
Proof.
  intros opts dir Hdir Hver Hpres Hfresh Hhelm Hvis Hrules w' Hrun.
  destruct (properDir_absPath dir Hdir) as (es & Hes & Hne & Heq).
  unfold LintTest in Hrun. fold opts dir in Hrun.
  destruct (finalWorld (Lint env args w drawn)) as [w1|] eqn:Hlint;
    [| discriminate Hrun].
  injection Hrun as <-. unfold cleanup. rewrite Hpres. cbn [w_fs].
  apply map_eq. intros p. rewrite RemoveAll_lookup.
  destruct (String.eqb p dir) eqn:Hp.
  - apply String.eqb_eq in Hp. symmetry. apply Hfresh. by left.
  - destruct (below dir p) eqn:Hb; cbn [orb].
    + symmetry. apply Hfresh. by right.
    + apply String.eqb_neq in Hp.
      apply (Lint_frame env es Hes Hne Hhelm args w Heq Hver Hvis Hrules
               drawn w1 p Hlint).
      rewrite <- Heq. by split.
Qed.

Lemma LintTest_restores_the_file_system_witness :
  exists w',
    LintTest sampleEnv sampleArgs sampleWorld 0 = Some w' /\
    w_fs w' = sampleProject.
Proof.
  pose proof sampleArgs_run as Hrun.
  destruct (finalWorld (Lint sampleEnv sampleArgs sampleWorld 0))
    as [w1|] eqn:E; [| destruct Hrun].
  exists (cleanup (Finalize sampleEnv (applyOptions sampleArgs zeroOptions))
                  (MkdirTemp sampleEnv (w_fs sampleWorld)) w1).
  split; [unfold LintTest; rewrite E; reflexivity |].
  destruct sampleArgs_options as (_ & _ & Hver & Hpres).
  destruct sampleArgs_confined as (Hdir & Hhelm & Hvis & Hrules).
  apply (LintTest_restores_the_file_system sampleEnv sampleArgs sampleWorld 0
           Hdir Hver Hpres sampleProject_fresh Hhelm Hvis Hrules).
  unfold LintTest. rewrite E. reflexivity.
Defined.

(** ** [RecurseConfigmap] *)

Section Configmap.

Import Filepath.

Lemma append_inj_r (a b s : string) : a +:+ s = b +:+ s -> a = b.
Proof.
  revert b. induction a as [|c a IH]; intros [|d b] H.
  - done.
  - apply (f_equal String.length) in H. rewrite !length_append in H.
    simpl in H. lia.
  - apply (f_equal String.length) in H. rewrite !length_append in H.
    simpl in H. lia.
  - simpl in H. injection H as -> H. by rewrite (IH b H).
Qed.

Lemma absPath_inj es es' :
  Forall ordinary es -> Forall ordinary es' -> es <> [] -> es' <> [] ->
  absPath es = absPath es' -> es = es'.
Proof.
  intros Hes Hes' Hne Hne' H. unfold absPath in H. injection H as H.
  by rewrite <- (Split_Join_ordinary es), <- (Split_Join_ordinary es'), H.
Qed.

Lemma ordinary_key k : byteIn "/" k = false -> ordinary (k +:+ ".yaml").
Proof.
  intros Hk.
  assert (5 <= String.length (k +:+ ".yaml")) as Hlen
    by (rewrite length_append; simpl; lia).
  repeat split.
  - intros H. rewrite H in Hlen. simpl in Hlen. lia.
  - intros H. rewrite H in Hlen. simpl in Hlen. lia.
  - intros H. rewrite H in Hlen. simpl in Hlen. lia.
  - by rewrite byteIn_app, Hk.
Qed.

Lemma parentDir_absPath es e :
  Forall ordinary (es ++ [e]) -> es <> [] ->
  parentDir (absPath (es ++ [e])) = absPath es.
Proof.
  intros Hes Hne. unfold parentDir, absPath.
  change (Split ("/" +:+ Join (es ++ [e]) "/") "/")
    with ("" :: Split (Join (es ++ [e]) "/") "/").
  rewrite Split_Join_ordinary; [| done | by destruct es].
  change ("" :: es ++ [e])%list with (("" :: es) ++ [e])%list.
  rewrite removelast_last. by destruct es.
Qed.

Variable es : list string.
Hypothesis es_ordinary : Forall ordinary es.
Hypothesis es_nonempty : es <> [].

Lemma keyFile_ordinary k :
  byteIn "/" k = false -> Forall ordinary (es ++ [k +:+ ".yaml"]).
Proof.
  intros Hk. apply Forall_app. split; [done |].
  apply Forall_singleton. by apply ordinary_key.
Qed.

Lemma keyFile_absPath k :
  keyFile (absPath es) k = absPath (es ++ [k +:+ ".yaml"]).
Proof.
  unfold keyFile, absPath. rewrite Join_app by done.
  by rewrite !append_assoc.
Qed.

Lemma keyFile_Join2 k :
  byteIn "/" k = false ->
  Join2 (absPath es) (k +:+ ".yaml") = keyFile (absPath es) k.
Proof.
  intros Hk. rewrite keyFile_absPath.
  apply Join2_ordinary; [done | done | by apply ordinary_key].
Qed.

Lemma keyFile_inj k k' :
  byteIn "/" k = false -> byteIn "/" k' = false ->
  keyFile (absPath es) k = keyFile (absPath es) k' -> k = k'.
Proof.
  intros Hk Hk' H. rewrite !keyFile_absPath in H. apply absPath_inj in H.
  - apply app_inj_tail in H as [_ H]. by apply append_inj_r in H.
  - by apply keyFile_ordinary.
  - by apply keyFile_ordinary.
  - by destruct es.
  - by destruct es.
Qed.

Lemma keyFile_inside k :
  keyFile (absPath es) k <> absPath es /\
  below (absPath es) (keyFile (absPath es) k) = true.
Proof.
  assert (below (absPath es) (keyFile (absPath es) k) = true) as Hb
    by (rewrite keyFile_absPath; by apply absPath_below).
  split; [| done]. intros H. rewrite H in Hb. unfold below in Hb.
  apply HasPrefix_spec in Hb as [r Hr].
  apply (f_equal String.length) in Hr. rewrite !length_append in Hr.
  simpl in Hr. lia.
Qed.

Lemma createFile_keyFile (fs : FS) k v :
  byteIn "/" k = false ->
  fs !! absPath es = Some Directory ->
  fs !! keyFile (absPath es) k <> Some Directory ->
  createFile fs (keyFile (absPath es) k) v
  = Some (<[keyFile (absPath es) k := Regular v]> fs).
Proof.
  intros Hk Hdir Hfile. unfold createFile. rewrite keyFile_absPath in *.
  rewrite parentDir_absPath by (by apply keyFile_ordinary || done).
  rewrite Hdir. change (String.eqb (absPath es) "") with false. cbv iota.
  by destruct (fs !! absPath (es ++ [k +:+ ".yaml"])) as [[|c]|].
Qed.

Lemma createFile_lookup (fs fs' : FS) name v p :
  createFile fs name v = Some fs' -> p <> name -> fs' !! p = fs !! p.
Proof.
  unfold createFile. intros H Hp.
  assert (fs' = <[name := Regular v]> fs) as ->.
  { destruct (fs !! name) as [[|c]|]; [done | ..];
      destruct (String.eqb _ _); try (by injection H);
      by destruct (fs !! parentDir name) as [[|c']|]; try injection H. }
  by apply lookup_insert_ne.
Qed.

Lemma foldl_writeKey_frame (l : list (string * string)) (st : FS * error) :
  Forall (fun kv : string * string => byteIn "/" kv.1 = false) l ->
  writesWithin (absPath es) st.1 (foldl (writeKey (absPath es)) st l).1.
Proof.
  intros Hl p [Hne Hb]. revert st.
  induction Hl as [|[k v] l Hk Hl IH]; intros st; [done |].
  cbn [foldl]. rewrite IH. unfold writeKey. cbn [fst snd] in *.
  destruct st.2; [done |]. rewrite keyFile_Join2 by done.
  destruct (createFile st.1 (keyFile (absPath es) k) v) as [fs'|] eqn:Hc;
    [| done].
  cbn [fst]. apply (createFile_lookup _ _ _ _ _ Hc).
  intros ->. destruct (keyFile_inside k) as [_ H]. congruence.
Qed.

Lemma foldl_writeKey_all (l : list (string * string)) (fs : FS) :
  NoDup l.*1 ->
  Forall (fun kv : string * string => byteIn "/" kv.1 = false) l ->
  fs !! absPath es = Some Directory ->
  (forall kv, kv ∈ l -> fs !! keyFile (absPath es) kv.1 <> Some Directory) ->
  exists fs',
    foldl (writeKey (absPath es)) (fs, None) l = (fs', None) /\
    (forall kv, kv ∈ l ->
       ReadFile fs' (keyFile (absPath es) kv.1) = Some kv.2) /\
    (forall p, (forall kv, kv ∈ l -> p <> keyFile (absPath es) kv.1) ->
               fs' !! p = fs !! p).
Proof.
  intros Hnd Hl. revert fs Hnd.
  induction Hl as [|[k v] l Hk Hl IH]; intros fs Hnd Hdir Hfiles.
  { exists fs. split; [done |]. split; [| done].
    intros kv Hin. by apply elem_of_nil in Hin. }
  cbn [fmap list_fmap fst] in Hnd. apply NoDup_cons in Hnd as [Hfresh Hnd].
  cbn [fst] in Hk.
  assert (forall kv, kv ∈ l ->
            keyFile (absPath es) kv.1 <> keyFile (absPath es) k) as Hother.
  { intros kv Hin Heq. apply Hfresh. apply keyFile_inj in Heq.
    - rewrite <- Heq. by apply list_elem_of_fmap_2.
    - by apply (proj1 (Forall_forall _ _) Hl).
    - done. }
  cbn [foldl]. unfold writeKey at 2. cbn [fst snd].
  rewrite keyFile_Join2 by done.
  rewrite createFile_keyFile; [| done | done |].
  2: { apply (Hfiles (k, v)). by left. }
  destruct (IH (<[keyFile (absPath es) k := Regular v]> fs) Hnd)
    as (fs' & Hrun & Hall & Hrest).
  { rewrite lookup_insert_ne; [done |]. by destruct (keyFile_inside k). }
  { intros kv Hin.
    rewrite lookup_insert_ne by (by intros H; apply (Hother kv Hin)).
    apply Hfiles. by right. }
  exists fs'. split; [done |]. split.
  - intros kv Hin. apply elem_of_cons in Hin as [-> | Hin]; [| by apply Hall].
    cbn [fst snd]. unfold ReadFile. rewrite Hrest.
    + by rewrite lookup_insert_eq.
    + intros kv Hin Heq. by apply (Hother kv Hin).
  - intros p Hp. rewrite Hrest.
    + apply lookup_insert_ne. intros <-. apply (Hp (k, v)); [by left | done].
    + intros kv Hin. apply Hp. by right.
Qed.

End Configmap.

Lemma range_keys (range : RangeOrder) (data : gmap string string) :
  fairRange range ->
  NoDup (range _ data).*1 /\
  forall kv, kv ∈ range _ data <-> data !! kv.1 = Some kv.2.
Proof.
  intros Hfair. specialize (Hfair _ data). split.
  - rewrite Hfair. apply NoDup_fst_map_to_list.
  - intros [k v]. rewrite Hfair. apply elem_of_map_to_list.
Qed.

(** X12. [RecurseConfigmap] writes one file for each key of the
    ConfigMap. When the manifest can be read and parsed, the output
    directory exists and is a cleaned absolute path other than the root,
    no key holds a path separator and no file to write is a directory,
    the extraction succeeds in any order in which the map is ranged
    over; afterwards the file [<key>.yaml] of the output directory holds
    the value of each key, and every other path holds what it held
    before. *)
Theorem RecurseConfigmap_extracts (unmarshal : Unmarshal)
    (range : RangeOrder) (manifestPath chartDir outputDir : string)
    (fs : FS) (body : string) (data : gmap string string) :
  fairRange range ->
  properDir outputDir ->
  fs !! outputDir = Some Directory ->
  ReadFile fs (Filepath.Join2 chartDir manifestPath) = Some body ->
  unmarshal body = inl data ->
  (forall k, is_Some (data !! k) ->
     byteIn "/" k = false /\ fs !! keyFile outputDir k <> Some Directory) ->
  exists fs',
    RecurseConfigmap unmarshal range manifestPath chartDir outputDir fs
    = (fs', None) /\
    (forall k v, data !! k = Some v ->
       ReadFile fs' (keyFile outputDir k) = Some v) /\
    (forall p, (forall k, is_Some (data !! k) -> p <> keyFile outputDir k) ->
       fs' !! p = fs !! p).
Proof.
  intros Hfair Hout Hdir Hread Hyaml Hkeys.
  destruct (properDir_absPath outputDir Hout) as (es & Hes & Hne & ->).
  destruct (range_keys range data Hfair) as [Hnd Hin].
  unfold RecurseConfigmap. rewrite Hread, Hyaml.
  destruct (foldl_writeKey_all es Hes Hne (range _ data) fs Hnd)
    as (fs' & Hrun & Hall & Hrest).
  - apply Forall_forall. intros kv Hkv. apply Hkeys.
    exists kv.2. by apply Hin.
  - done.
  - intros kv Hkv. apply Hkeys. exists kv.2. by apply Hin.
  - exists fs'. split; [done |]. split.
    + intros k v Hk. apply (Hall (k, v)). by apply Hin.
    + intros p Hp. apply Hrest. intros kv Hkv. apply Hp.
      exists kv.2. by apply Hin.
Qed.

Lemma sampleRendered_keys k :
  is_Some ((<["a" := "x"]> (<["b" := "y"]> ∅) : gmap string string) !! k) ->
  k = "a" \/ k = "b".
Proof.
  intros [v Hk]. apply lookup_insert_Some in Hk as [[<- _] | [_ Hk]];
    [by left |].
  apply lookup_insert_Some in Hk as [[<- _] | [_ Hk]]; [by right |].
  by rewrite lookup_empty in Hk.
Qed.

Lemma sampleTarget_proper : properDir "/t".
Proof.
  split; [| discriminate]. exists ["t"]. split; [| reflexivity].
  repeat constructor; discriminate.
Qed.

Lemma RecurseConfigmap_extracts_witness :
  exists fs',
    RecurseConfigmap sampleUnmarshal (fun V => map_to_list) "cm.yaml" "/r"
                     "/t" sampleRendered
    = (fs', None) /\
    ReadFile fs' "/t/a.yaml" = Some "x" /\
    ReadFile fs' "/t/b.yaml" = Some "y" /\
    fs' !! "/r/cm.yaml" = sampleRendered !! "/r/cm.yaml".
Proof.
  destruct (RecurseConfigmap_extracts sampleUnmarshal (fun V => map_to_list)
              "cm.yaml" "/r" "/t" sampleRendered "data: {a: x, b: y}"
              (<["a" := "x"]> (<["b" := "y"]> ∅)))
    as (fs' & Hrun & Hall & Hrest).
  - intros V m. reflexivity.
  - exact sampleTarget_proper.
  - reflexivity.
  - reflexivity.
  - reflexivity.
  - intros k Hk.
    destruct (sampleRendered_keys k Hk) as [-> | ->];
      (split; [reflexivity | vm_compute; discriminate]).
  - exists fs'. split; [exact Hrun |]. split; [| split].
    + apply (Hall "a" "x"). reflexivity.
    + apply (Hall "b" "y"). reflexivity.
    + apply Hrest. intros k Hk.
      destruct (sampleRendered_keys k Hk) as [-> | ->]; discriminate.
Defined.

(** X13. [RecurseConfigmap] writes nowhere but in its output directory,
    as long as no key of the ConfigMap holds a path separator. Whether
    the extraction succeeds or stops on an error, a path that is neither
    the output directory (a cleaned absolute path other than the root)
    nor below it holds what it held before. *)
Theorem RecurseConfigmap_stays_in_target (unmarshal : Unmarshal)
    (range : RangeOrder) (manifestPath chartDir outputDir : string)
    (fs : FS) :
  fairRange range ->
  properDir outputDir ->
  (forall body data k,
     ReadFile fs (Filepath.Join2 chartDir manifestPath) = Some body ->
     unmarshal body = inl data ->
     is_Some (data !! k) -> byteIn "/" k = false) ->
  writesWithin outputDir fs
    (RecurseConfigmap unmarshal range manifestPath chartDir outputDir fs).1.
Proof.
  intros Hfair Hout Hkeys.
  destruct (properDir_absPath outputDir Hout) as (es & Hes & Hne & ->).
  unfold RecurseConfigmap.
  destruct (ReadFile fs _) as [body|] eqn:Hread; [| done].
  destruct (unmarshal body) as [data | e] eqn:Hyaml; [| done].
  destruct (range_keys range data Hfair) as [_ Hin].
  apply (foldl_writeKey_frame es Hes Hne (range _ data) (fs, None)).
  apply Forall_forall. intros kv Hkv.
  apply (Hkeys body data kv.1 eq_refl Hyaml). exists kv.2. by apply Hin.
Qed.

Lemma RecurseConfigmap_stays_in_target_witness :
  (RecurseConfigmap sampleUnmarshal (fun V => map_to_list) "cm.yaml" "/r"
                    "/t" sampleRendered).1 !! "/r/cm.yaml"
  = sampleRendered !! "/r/cm.yaml".
Proof.
  apply (RecurseConfigmap_stays_in_target sampleUnmarshal
           (fun V => map_to_list) "cm.yaml" "/r" "/t" sampleRendered).
  - intros V m. reflexivity.
  - exact sampleTarget_proper.
  - intros body data k Hread Hyaml Hk.
    assert (body = "data: {a: x, b: y}") as -> by (by injection Hread).
    assert (data = <["a" := "x"]> (<["b" := "y"]> ∅)) as ->
      by (by injection Hyaml).
    by destruct (sampleRendered_keys k Hk) as [-> | ->].
  - split; [discriminate | reflexivity].
Defined.
